(** * apple-docs: retrieval and normalisation pipeline

    A shallow embedding of the TypeScript sources of the apple-docs
    command-line client (lib/http.ts, lib/cache.ts, lib/urls.ts and the
    six command modules) together with the properties of the fetcher,
    the cache, the cache-key builder, the index-tree walkers and the
    sample de-duplication that the specification states.

    Conventions.  A JavaScript string is a sequence of code units; the
    model uses Rocq's [string] (and [list ascii] where the code works
    character by character), i.e. code units below 256, with the case
    mapping JavaScript gives these code units (the ASCII and the Latin-1
    letters); a character such as U+00C9 is the one code unit 201,
    written ["201"%char].  JavaScript numbers that the code uses as counters, limits,
    depths, status codes and timestamps are integers of [Z].  A function
    that may throw returns a [Completion]; effectful code threads a
    [World] (cache store, clock, network log). *)

From stdpp Require Import base strings list gmap pretty sorting.
From Stdlib Require Import ZArith Lia Ascii String Permutation Sorted OrderedTypeEx.

#[local] Open Scope string_scope.
#[local] Open Scope list_scope.
#[local] Open Scope Z_scope.

(** ** JavaScript prelude: the built-ins the sources call *)

Module JS.

(** [Array.prototype.length] as a number. *)
Definition len {A} (l : list A) : Z := Z.of_nat (List.length l).

(** [for (const x of items) { body }] where the body may [return true]
    from the enclosing function; falling off the end of the loop reaches
    the function's final [return false]. *)
Section ForOf.
Context {A S : Type} (body : A -> S -> bool * S).
Fixpoint forOf (items : list A) (s : S) : bool * S :=
  match items with
  | [] => (false, s)
  | x :: rest =>
      let '(stop, s') := body x s in
      if stop then (true, s') else forOf rest s'
  end.
End ForOf.

(** [hay.startsWith(needle)] and [hay.includes(needle)]. *)
Definition startsWith (hay needle : string) : bool := String.prefix needle hay.

Fixpoint includes (hay needle : string) : bool :=
  String.prefix needle hay
  || match hay with
     | EmptyString => false
     | String _ hay' => includes hay' needle
     end.

(** [s.endsWith(suffix)], through the reversed code units. *)
Definition endsWith (hay needle : string) : bool :=
  String.prefix (String.rev needle) (String.rev hay).

(** [s.split(sep)] for a one-character separator: always at least one
    part, empty parts are kept. *)
Fixpoint split (sep : ascii) (s : list ascii) : list (list ascii) :=
  match s with
  | [] => [[]]
  | c :: r =>
      if Ascii.eqb c sep then [] :: split sep r
      else match split sep r with
           | h :: t => (c :: h) :: t
           | [] => [[c]]
           end
  end.

(** [parts.join(sep)]. *)
Fixpoint join {A} (sep : list A) (parts : list (list A)) : list A :=
  match parts with
  | [] => []
  | [p] => p
  | p :: rest => p ++ sep ++ join sep rest
  end.

(** Case canonicalisation used by the [i] flag (no [u] flag): a code
    unit is replaced by its upper-case form when that form is a single
    code unit.  Below 256 the letters [a]-[z] and the Latin-1 letters
    U+00E0-U+00FE (but for the division sign U+00F7) go to the code unit
    32 below.  The sharp s (U+00DF, whose upper-case form is two
    letters) stays; so do the micro sign U+00B5 and y with diaeresis
    U+00FF here: their upper-case forms are code units beyond 255, which
    no other code unit below 256 is mapped to, so that two code units
    below 256 have the same image here exactly when the [i] flag
    identifies them. *)
Definition canonicalize (c : ascii) : ascii :=
  let n := nat_of_ascii c in
  if ((97 <=? n) && (n <=? 122))%nat then ascii_of_nat (n - 32)
  else if ((224 <=? n) && (n <=? 254) && negb (n =? 247))%nat
       then ascii_of_nat (n - 32)
  else c.

(** LineTerminator code units below 256: LF and CR. *)
Definition isLineTerminator (c : ascii) : bool :=
  Ascii.eqb c "010"%char || Ascii.eqb c "013"%char.

(** *** The fragment of ECMAScript regular expressions that
    [matchesPattern] can build *)

Inductive Atom :=
| AChar (c : ascii)          (* a pattern character or an identity escape *)
| ADot.                      (* [.]: any character but a line terminator *)

Inductive Term :=
| TStart                     (* [^] *)
| TEnd                       (* [$] *)
| TAtom (a : Atom) (star : bool).   (* an atom, possibly under [*] *)

(** SyntaxCharacter of the RegExp grammar. *)
Definition isSyntaxCharacter (c : ascii) : bool :=
  existsb (Ascii.eqb c)
    (list_ascii_of_string "^$\.*+?()[]{}|").

(** [new RegExp(source, 'i')], on the fragment: assertions [^] and [$],
    [.], literal characters, identity escapes of syntax characters, and
    the [*] quantifier.  [None] stands for a source outside the fragment
    (for which the constructor may throw a SyntaxError). *)
Fixpoint RegExp (source : list ascii) : option (list Term) :=
  match source with
  | [] => Some []
  | c :: r =>
      if Ascii.eqb c "^" then cons TStart <$> RegExp r
      else if Ascii.eqb c "$" then cons TEnd <$> RegExp r
      else if Ascii.eqb c "\" then
        match r with
        | e :: r' =>
            if isSyntaxCharacter e then
              match r' with
              | q :: r'' =>
                  if Ascii.eqb q "*"
                  then cons (TAtom (AChar e) true) <$> RegExp r''
                  else cons (TAtom (AChar e) false) <$> RegExp r'
              | [] => cons (TAtom (AChar e) false) <$> RegExp r'
              end
            else None
        | [] => None
        end
      else
        let atom :=
          if Ascii.eqb c "." then Some ADot
          else if isSyntaxCharacter c then None
          else Some (AChar c) in
        match atom with
        | None => None
        | Some a =>
            match r with
            | q :: r' =>
                if Ascii.eqb q "*"
                then cons (TAtom a true) <$> RegExp r'
                else cons (TAtom a false) <$> RegExp r
            | [] => cons (TAtom a false) <$> RegExp r
            end
        end
  end.

Definition atomMatches (a : Atom) (c : ascii) : bool :=
  match a with
  | AChar p => Ascii.eqb (canonicalize p) (canonicalize c)
  | ADot => negb (isLineTerminator c)
  end.

(** Backtracking matcher: does [ts] match a prefix of [s]?  [at0] says
    whether the current position is the start of the input. *)
Fixpoint exec (ts : list Term) (at0 : bool) (s : list ascii) : bool :=
  match ts with
  | [] => true
  | TStart :: r => at0 && exec r at0 s
  | TEnd :: r => match s with [] => exec r at0 s | _ :: _ => false end
  | TAtom a false :: r =>
      match s with
      | c :: s' => atomMatches a c && exec r false s'
      | [] => false
      end
  | TAtom a true :: r =>
      (fix star (at0 : bool) (s : list ascii) : bool :=
         exec r at0 s
         || match s with
            | c :: s' => atomMatches a c && star false s'
            | [] => false
            end) at0 s
  end.

(** [re.test(s)]: a match starting at some index of [s]. *)
Fixpoint search (ts : list Term) (at0 : bool) (s : list ascii) : bool :=
  exec ts at0 s
  || match s with
     | _ :: s' => search ts false s'
     | [] => false
     end.

Definition test (re : list Term) (s : string) : bool :=
  search re true (list_ascii_of_string s).

(** [s.toLowerCase()]: below 256 the letters [A]-[Z] and the Latin-1
    letters U+00C0-U+00DE (but for the multiplication sign U+00D7) go to
    the code unit 32 above; every other code unit below 256 is its own
    lower-case form. *)
Definition lowerChar (c : ascii) : ascii :=
  let n := nat_of_ascii c in
  if ((65 <=? n) && (n <=? 90))%nat then ascii_of_nat (n + 32)
  else if ((192 <=? n) && (n <=? 222) && negb (n =? 215))%nat
       then ascii_of_nat (n + 32)
  else c.

Fixpoint toLowerCase (s : string) : string :=
  match s with
  | EmptyString => EmptyString
  | String c r => String (lowerChar c) (toLowerCase r)
  end.

(** [s.slice(0, -1)]. *)
Fixpoint dropLast (s : string) : string :=
  match s with
  | EmptyString => EmptyString
  | String c EmptyString => EmptyString
  | String c r => String c (dropLast r)
  end.

(** [s.slice(n)] for a non-negative [n]. *)
Fixpoint sliceFrom (n : nat) (s : string) : string :=
  match n, s with
  | O, _ => s
  | S n', String _ r => sliceFrom n' r
  | S _, EmptyString => EmptyString
  end.

(** [hay.replace(needle, '')] with a string needle: the first
    occurrence is removed. *)
Fixpoint removeFirst (needle hay : string) : string :=
  if String.prefix needle hay then sliceFrom (String.length needle) hay
  else match hay with
       | EmptyString => EmptyString
       | String c r => String c (removeFirst needle r)
       end.

(** [a || b] on possibly-missing strings: the first truthy operand. *)
Definition orElse (a : option string) (b : option string) : option string :=
  match a with
  | Some EmptyString | None => b
  | Some s => Some s
  end.

(** *** Values, completions and the world *)

(** The JavaScript values that cross the cache and the cache-key
    builder: [undefined], [null], booleans, integers and strings. *)
Inductive Value :=
| VUndefined
| VNull
| VBool (b : bool)
| VNum (n : Z)
| VStr (s : string).

(** [String(v)]. *)
Definition toString (v : Value) : string :=
  match v with
  | VUndefined => "undefined"
  | VNull => "null"
  | VBool true => "true"
  | VBool false => "false"
  | VNum n => pretty n
  | VStr s => s
  end.

(** [v !== undefined], and truthiness ([if (v)]). *)
Definition isDefined (v : Value) : bool :=
  match v with VUndefined => false | _ => true end.

Definition truthy (v : Value) : bool :=
  match v with
  | VUndefined | VNull => false
  | VBool b => b
  | VNum n => negb (n =? 0)
  | VStr s => negb (String.eqb s "")
  end.

(** An optional string or boolean parameter as a value. *)
Definition optStr (o : option string) : Value :=
  match o with Some s => VStr s | None => VUndefined end.

Definition optBool (o : option bool) : Value :=
  match o with Some b => VBool b | None => VUndefined end.

(** A parsed JSON document (the result of [response.json()]). *)
#[warnings="-register-all"]
Inductive Json :=
| JNull
| JBool (b : bool)
| JNum (n : Z)
| JStr (s : string)
| JArr (items : list Json)
| JObj (fields : list (string * Json)).

(** What a [throw] carries: an [Error] object with its message, or any
    other value, of which only [String(value)] is ever observed. *)
Inductive Thrown :=
| ErrorObject (message : string)
| Other (text : string).

(** [error instanceof Error ? error.message : String(error)]. *)
Definition errorText (e : Thrown) : string :=
  match e with ErrorObject m => m | Other t => t end.

(** [error instanceof Error ? error : new Error(String(error))]. *)
Definition asError (e : Thrown) : Thrown := ErrorObject (errorText e).

Inductive Completion (A : Type) :=
| Normal (a : A)
| Throw (e : Thrown).
Arguments Normal {A} a.
Arguments Throw {A} e.

Record CacheEntry := mkCacheEntry { value : Value; expiresAt : Z }.

(** The state the program runs in: the module-level cache [store], the
    clock read by [Date.now()], the log of the requests issued through
    [fetch], and a ghost counter of the producer invocations made by
    [cacheGetOrSet]. *)
Record World := mkWorld {
  store : gmap string CacheEntry;
  now : Z;
  requests : list string;
  producerCalls : nat
}.

(** An [async] function body: state passing with exceptions. *)
Definition M (A : Type) : Type := World -> Completion A * World.

Definition ret {A} (a : A) : M A := fun w => (Normal a, w).
Definition throw {A} (e : Thrown) : M A := fun w => (Throw e, w).
Definition bind {A B} (m : M A) (k : A -> M B) : M B := fun w =>
  match m w with
  | (Normal a, w') => k a w'
  | (Throw e, w') => (Throw e, w')
  end.
Definition lift {A} (c : Completion A) : M A := fun w => (c, w).

(** [try { body } catch (error) { handler }]. *)
Definition tryCatch {A} (body : M A) (handler : Thrown -> M A) : M A :=
  fun w =>
    match body w with
    | (Normal a, w') => (Normal a, w')
    | (Throw e, w') => handler e w'
    end.

(** A [Response]: its status and what [json()] and [text()] settle to. *)
Record Response := mkResponse {
  status : Z;
  json : Completion Json;
  text : Completion string
}.

(** [response.ok]. *)
Definition ok (r : Response) : bool := (200 <=? status r) && (status r <=? 299).

(** One [fetch] settles with a response or rejects (timeout, DNS failure,
    connection reset). *)
Inductive FetchOutcome :=
| Responded (r : Response)
| Rejected (e : Thrown).

Record URL := mkURL { hostname : string; pathname : string }.

(** The platform the program runs on, as far as the sources observe it. *)
Record Platform := mkPlatform {
  (* [fetch(url)] after the given earlier requests: the outcome and the
     milliseconds it took *)
  network : list string -> string -> FetchOutcome * Z;
  (* [a.localeCompare(b)], by its sign *)
  localeCompare : string -> string -> comparison;
  (* [new URL(s)]; [None] when it throws *)
  parseURL : string -> option URL;
  (* [encodeURIComponent(s)] *)
  encodeURIComponent : string -> Completion string;
  (* of two promises under [Promise.all] that both reject, whether the
     first one rejects first *)
  firstRejectsFirst : list string -> bool
}.

(** [arr.slice(0, stop)] for an integer [stop]: a negative [stop] counts
    from the end. *)
Definition sliceTo {A} (stop : Z) (l : list A) : list A :=
  if stop <? 0 then take (Z.to_nat (len l + stop)) l
  else take (Z.to_nat stop) l.

(** The text left of [s] once the characters before its first slash
    are removed: what [/^doc:\/\/[^/]+/] leaves after the host. *)
Fixpoint dropHost (s : string) : string :=
  match s with
  | EmptyString => EmptyString
  | String c r => if Ascii.eqb c "/" then s else dropHost r
  end.

(** [id.replace(/^doc:\/\/[^/]+/, '')] for an [id] that starts with
    [doc://]: without at least one host character the pattern does not
    match and the text is unchanged. *)
Definition stripDocHost (id : string) : string :=
  match sliceFrom 6 id with
  | EmptyString => id
  | String c _ as rest => if Ascii.eqb c "/" then id else dropHost rest
  end.

(** [s.replace(/-/g, ' ')]. *)
Definition dashesToSpaces (s : list ascii) : list ascii :=
  map (fun c => if Ascii.eqb c "-" then " "%char else c) s.

(** [w.charAt(0).toUpperCase() + w.slice(1)]: the first code unit goes
    to its upper-case form where that is one code unit below 256 (the
    ASCII and Latin-1 letters of [canonicalize]). *)
Definition capitalize (w : list ascii) : list ascii :=
  match w with
  | [] => []
  | c :: r => canonicalize c :: r
  end.

(** Does [needle] start [hay], up to case (the [i] flag)? *)
Fixpoint prefixIgnoringCase (needle hay : string) : bool :=
  match needle, hay with
  | EmptyString, _ => true
  | String a n, String b h =>
      Ascii.eqb (canonicalize a) (canonicalize b) && prefixIgnoringCase n h
  | String _ _, EmptyString => false
  end.

(** The longest prefix without a slash: what [[^/]+] takes. *)
Fixpoint segment (s : string) : string :=
  match s with
  | EmptyString => EmptyString
  | String c r => if Ascii.eqb c "/" then EmptyString else String c (segment r)
  end.

(** WhiteSpace and LineTerminator code units below 256: what [\s]
    matches and [trim] removes. *)
Definition isWhiteSpace (c : ascii) : bool :=
  existsb (Nat.eqb (nat_of_ascii c)) [9; 10; 11; 12; 13; 32; 160]%nat.

(** [s.split(/\s+/)]: a run of white space separates two parts; a
    leading or trailing run leaves an empty part. *)
Fixpoint splitWhiteSpace (inRun : bool) (s : list ascii) : list (list ascii) :=
  match s with
  | [] => [[]]
  | c :: r =>
      if isWhiteSpace c then
        if inRun then splitWhiteSpace true r else [] :: splitWhiteSpace true r
      else
        match splitWhiteSpace false r with
        | h :: t => (c :: h) :: t
        | [] => [[c]]
        end
  end.

(** [s.trim()]. *)
Fixpoint trimStart (s : list ascii) : list ascii :=
  match s with
  | [] => []
  | c :: r => if isWhiteSpace c then trimStart r else s
  end.

Definition trim (s : string) : string :=
  string_of_list_ascii
    (rev (trimStart (rev (trimStart (list_ascii_of_string s))))).

(** The names every object inherits from [Object.prototype]: a lookup
    [obj[name]] in an object literal finds them though the literal does
    not define them. *)
Definition inheritedNames : list string :=
  [ "constructor"; "hasOwnProperty"; "isPrototypeOf"; "propertyIsEnumerable";
    "toLocaleString"; "toString"; "valueOf"; "__defineGetter__";
    "__defineSetter__"; "__lookupGetter__"; "__lookupSetter__"; "__proto__" ].

End JS.

Notation "x <- m ;; k" := (JS.bind m (fun x => k))
  (at level 100, m at next level, right associativity).

(** ** lib/http.ts *)

Module Http.
Import JS.

Section Fetcher.
Variable P : Platform.

(** [await fetch(url, ...)]: the request is logged and the clock
    advances by the time the platform took. *)
Definition fetch (url : string) : M Response := fun w =>
  let '(outcome, elapsed) := network P (requests w) url in
  let w' := mkWorld (store w) (now w + elapsed) (requests w ++ [url])
                    (producerCalls w) in
  match outcome with
  | Responded r => (Normal r, w')
  | Rejected e => (Throw e, w')
  end.

(** [await new Promise((resolve) => setTimeout(resolve, delay))]. *)
Definition sleep (delay : Z) (w : World) : World :=
  mkWorld (store w) (now w + delay) (requests w) (producerCalls w).

(** The [try] block of one attempt. *)
Definition attemptOnce (url : string) : M Response :=
  response <- fetch url ;;
  if status response =? 404 then
    throw (ErrorObject ("Not found (404): " +:+ url))
  else if status response >=? 500 then
    throw (ErrorObject
             ("Server error (" +:+ pretty (status response) +:+ "): " +:+ url))
  else if negb (ok response) then
    throw (ErrorObject ("HTTP " +:+ pretty (status response) +:+ ": " +:+ url))
  else ret response.

(** The [for] loop: [remaining] iterations are left, i.e.
    [attempt < maxRetries] holds exactly when [remaining] is not 0. *)
Fixpoint retryLoop (url : string) (maxRetries : Z) (remaining : nat)
    (attempt : Z) (lastError : option Thrown) : M Response :=
  match remaining with
  | O =>
      throw (from_option id (ErrorObject ("Failed to fetch: " +:+ url))
                         lastError)
  | S remaining' => fun w =>
      match attemptOnce url w with
      | (Normal response, w1) => (Normal response, w1)
      | (Throw error, w1) =>
          let lastError := asError error in
          if includes (errorText lastError) "404" then (Throw lastError, w1)
          else
            let w2 :=
              if attempt <? maxRetries - 1
              then sleep (2 ^ attempt * 1000) w1 else w1 in
            retryLoop url maxRetries remaining' (attempt + 1)
                      (Some lastError) w2
      end
  end.

Definition fetchWithRetry (url : string) (maxRetries : Z) : M Response :=
  retryLoop url maxRetries (Z.to_nat maxRetries) 0 None.

Definition fetchJson (url : string) : M Json :=
  response <- fetchWithRetry url 3 ;; lift (json response).

Definition fetchHtml (url : string) : M string :=
  response <- fetchWithRetry url 3 ;; lift (text response).

(** [await Promise.all([a, b])] for two fetches: both run; the result
    is the pair, or the rejection that comes first. *)
Definition promiseAll2 {A B} (a : M A) (b : M B) : M (A * B) := fun w =>
  let '(ra, w1) := a w in
  let '(rb, w2) := b w1 in
  match ra, rb with
  | Normal x, Normal y => (Normal (x, y), w2)
  | Throw e, Normal _ => (Throw e, w2)
  | Normal _, Throw e => (Throw e, w2)
  | Throw e1, Throw e2 =>
      (Throw (if firstRejectsFirst P (requests w2) then e1 else e2), w2)
  end.

End Fetcher.
End Http.

(** ** lib/cache.ts *)

Module Cache.
Import JS.

Definition setStore (s : gmap string CacheEntry) (w : World) : World :=
  mkWorld s (now w) (requests w) (producerCalls w).

(** [cacheGet(key)]: the value, or [undefined]; an expired entry is
    deleted. *)
Definition cacheGet (key : string) (w : World) : Value * World :=
  match store w !! key with
  | None => (VUndefined, w)
  | Some entry =>
      if now w >? expiresAt entry
      then (VUndefined, setStore (delete key (store w)) w)
      else (value entry, w)
  end.

Definition cacheSet (key : string) (v : Value) (ttlMs : Z) (w : World) : World :=
  setStore (<[key := mkCacheEntry v (now w + ttlMs)]> (store w)) w.

(** [await fn()] inside [cacheGetOrSet]; the ghost counter records the
    invocation. *)
Definition invoke {A} (fn : M A) : M A := fun w =>
  fn (mkWorld (store w) (now w) (requests w) (S (producerCalls w))).

Definition cacheGetOrSet (key : string) (fn : M Value) (ttlMs : Z) : M Value :=
  fun w =>
    let '(cached, w0) := cacheGet key w in
    if isDefined cached then (Normal cached, w0)
    else
      match invoke fn w0 with
      | (Normal v, w1) => (Normal v, cacheSet key v ttlMs w1)
      | (Throw e, w1) => (Throw e, w1)
      end.

Section Key.
Variable P : Platform.

(** [entries.sort(([a], [b]) => a.localeCompare(b))]: the sort is
    stable; an entry goes before the first one it does not exceed. *)
Fixpoint insertEntry (e : string * Value) (sorted : list (string * Value))
    : list (string * Value) :=
  match sorted with
  | [] => [e]
  | x :: rest =>
      match localeCompare P (fst e) (fst x) with
      | Gt => x :: insertEntry e rest
      | _ => e :: x :: rest
      end
  end.

Definition sortEntries (entries : list (string * Value))
    : list (string * Value) :=
  foldr insertEntry [] entries.

Definition joinStrings (sep : string) (parts : list string) : string :=
  string_of_list_ascii
    (join (list_ascii_of_string sep) (map list_ascii_of_string parts)).

(** [makeCacheKey(prefix, params)]; [params] is [Object.entries(params)],
    the own properties in the order the object enumerates them. *)
Definition makeCacheKey (prefix : string) (params : list (string * Value))
    : string :=
  let parts :=
    map (fun '(k, v) => k +:+ "=" +:+ toString v)
        (sortEntries (filter (fun e => isDefined (snd e) = true) params)) in
  prefix +:+ ":" +:+ joinStrings "," parts.

End Key.
End Cache.

(** ** lib/urls.ts *)

Module Urls.
Import JS.

Definition BASE := "https://developer.apple.com".
Definition SEARCH := "https://developer.apple.com/search/".
Definition TUTORIALS_DATA := "https://developer.apple.com/tutorials/data/".
Definition TECHNOLOGIES_JSON :=
  "https://developer.apple.com/tutorials/data/documentation/technologies.json".
Definition UPDATES_JSON :=
  "https://developer.apple.com/tutorials/data/documentation/Updates.json".
Definition UPDATES_INDEX_JSON :=
  "https://developer.apple.com/tutorials/data/index/updates".
Definition SAMPLE_CODE_JSON :=
  "https://developer.apple.com/tutorials/data/documentation/SampleCode.json".
Definition SAMPLE_CODE_INDEX_JSON :=
  "https://developer.apple.com/tutorials/data/index/samplecode".

(** [convertToJsonApiUrl(webUrl)]; [None] is [null]. *)
Definition convertToJsonApiUrl (P : Platform) (webUrl : string) : option string :=
  let cleaned := if endsWith webUrl "/" then dropLast webUrl else webUrl in
  match parseURL P cleaned with
  | None => None
  | Some urlObj =>
      if negb (String.eqb (hostname urlObj) "developer.apple.com") then None
      else
        let path := pathname urlObj in
        if includes path "/documentation/" then
          Some ("https://developer.apple.com/tutorials/data/documentation/"
                +:+ removeFirst "/documentation/" path +:+ ".json")
        else if includes path "/tutorials/" then
          Some ("https://developer.apple.com/tutorials/data/"
                +:+ removeFirst "/tutorials/" path +:+ ".json")
        else Some webUrl
  end.

(** [isValidAppleDeveloperUrl(url)]. *)
Definition isValidAppleDeveloperUrl (P : Platform) (url : string) : bool :=
  match parseURL P url with
  | Some u => String.eqb (hostname u) "developer.apple.com"
  | None => false
  end.

End Urls.

(** ** commands/symbols.ts *)

Module Symbols.
Import JS.

#[warnings="-register-all"]
Inductive IndexItem := mkIndexItem {
  path : string;
  title : string;
  type : string;
  beta : option bool;
  deprecated : option bool;
  external : option bool;
  children : option (list IndexItem)
}.

(** [part.replace(/[.*+?^${}()|[\]\\]/g, '\\$&')]: every character of
    the class is prefixed with a backslash. *)
Definition isEscaped (c : ascii) : bool :=
  existsb (Ascii.eqb c) (list_ascii_of_string ".*+?^${}()|[]\").

Definition escapeChar (c : ascii) : list ascii :=
  if isEscaped c then ["\"%char; c] else [c].

Definition escapePart (part : list ascii) : list ascii :=
  flat_map escapeChar part.

(** The source text handed to [new RegExp]. *)
Definition regexPattern (pattern : string) : list ascii :=
  join [("."%char); ("*"%char)]
       (map escapePart (split "*" (list_ascii_of_string pattern))).

(** [matchesPattern(name, pattern)]; [None] if the RegExp constructor
    threw. *)
Definition matchesPattern (name pattern : string) : option bool :=
  match RegExp (("^"%char) :: regexPattern pattern ++ [("$"%char)]) with
  | Some re => Some (test re name)
  | None => None
  end.

Section Walker.
Variable symbolType : string.
Variable namePattern : option string.      (* [undefined] is [None] *)
Variable limit : Z.

(** The two nested [if]s that guard [symbols.push(item)].  An empty
    [namePattern] is falsy, so it filters nothing.  The RegExp
    constructor never throws on an escaped pattern
    ([matchesPattern_never_throws] below), hence the boolean. *)
Definition selected (item : IndexItem) : bool :=
  (String.eqb symbolType "all" || String.eqb (type item) symbolType)
  && match namePattern with
     | None => true
     | Some "" => true
     | Some p => from_option id false (matchesPattern (title item) p)
     end.

(** One iteration of the [for] loop of [findSymbolsRecursive] run at
    nesting level [depth]; the recursive call on [item.children] is
    unfolded in place ([depth + 1 > 6] returns [false] at once). *)
Fixpoint findSymbolsStep (depth : Z) (item : IndexItem)
    (symbols : list IndexItem) {struct item} : bool * list IndexItem :=
  if len symbols >=? limit then (true, symbols) else
  let symbols := if selected item then symbols ++ [item] else symbols in
  match children item with
  | Some cs =>
      if len symbols <? limit then
        if depth + 1 >? 6 then (false, symbols)
        else forOf (findSymbolsStep (depth + 1)) cs symbols
      else (false, symbols)
  | None => (false, symbols)
  end.

(** [findSymbolsRecursive(items, symbolType, namePattern, limit,
    symbols, depth)]: the returned flag and the array [symbols] after
    the call. *)
Definition findSymbolsRecursive (items : list IndexItem)
    (symbols : list IndexItem) (depth : Z) : bool * list IndexItem :=
  if depth >? 6 then (false, symbols)
  else forOf (findSymbolsStep depth) items symbols.

End Walker.

Definition CACHE_TTL : Z := 60 * 60 * 1000.

Section Command.
Variable P : Platform.

(** The stages of the producer that only read the fetched document and
    build text; each may throw on malformed upstream data.
    [indexItemsOf data language] is
    [data.interfaceLanguages?.[language] || []]. *)
Variable indexItemsOf : Json -> string -> Completion (list IndexItem).
Variable languageUnavailable : Json -> string -> string -> Completion string.
Variable formatSymbols :
  string -> string -> option string ->
  list IndexItem -> list IndexItem -> Completion string.

Definition searchFrameworkSymbols_producer (framework symbolType : string)
    (namePattern : option string) (language : string) (limit : Z)
    : M Value :=
  let indexUrl := Urls.TUTORIALS_DATA +:+ "index/" +:+ toLowerCase framework in
  data <- Http.fetchJson P indexUrl ;;
  indexItems <- lift (indexItemsOf data language) ;;
  if len indexItems =? 0 then
    message <- lift (languageUnavailable data language framework) ;;
    ret (VStr message)
  else
    let symbols :=
      snd (findSymbolsRecursive symbolType namePattern limit indexItems [] 0) in
    result <- lift (formatSymbols framework symbolType namePattern
                                  symbols indexItems) ;;
    ret (VStr result).

Definition searchFrameworkSymbols_try (framework symbolType : string)
    (namePattern : option string) (language : string) (limit : Z)
    : M Value :=
  let cacheKey :=
    Cache.makeCacheKey P "symbols"
      [("framework", VStr framework); ("symbolType", VStr symbolType);
       ("namePattern", optStr namePattern); ("language", VStr language);
       ("limit", VNum limit)] in
  Cache.cacheGetOrSet cacheKey
    (searchFrameworkSymbols_producer framework symbolType namePattern
                                     language limit)
    CACHE_TTL.

Definition searchFrameworkSymbols (framework symbolType : string)
    (namePattern : option string) (language : string) (limit : Z)
    : M Value :=
  tryCatch
    (searchFrameworkSymbols_try framework symbolType namePattern language limit)
    (fun error => ret (VStr ("Error searching symbols: " +:+ errorText error))).

End Command.

(** The closure [search(list)] of [findCollections], one iteration of
    its loop: [collections] is the array it pushes to. *)
Fixpoint searchStep (item : IndexItem) (collections : list IndexItem)
    {struct item} : list IndexItem :=
  let collections :=
    if String.eqb (type item) "collection" then collections ++ [item]
    else collections in
  match children item with
  | Some cs => fold_left (fun acc child => searchStep child acc) cs collections
  | None => collections
  end.

Definition search (items collections : list IndexItem) : list IndexItem :=
  fold_left (fun acc item => searchStep item acc) items collections.

(** [findCollections(items)]. *)
Definition findCollections (items : list IndexItem) : list IndexItem :=
  search items [].

End Symbols.

(** ** commands/samples.ts *)

Module Samples.
Import JS.

#[warnings="-register-all"]
Inductive SampleCodeIndexNode := mkNode {
  path : option string;
  title : string;
  type : string;
  children : option (list SampleCodeIndexNode);
  external : option bool;
  beta : option bool
}.

Record ParsedSampleCode := mkSample {
  s_title : string;
  s_framework : option string;
  s_description : option string;
  s_beta : bool;
  s_featured : bool;
  s_url : string;
  s_path : string;
  s_depth : Z
}.

Definition CACHE_TTL : Z := 2 * 60 * 60 * 1000.

Section Walker.
(** [normalizeFramework] of lib/frameworks.ts, the name normaliser (a
    lookup table with a capitalisation fallback), taken as a parameter:
    the walker only passes names through it. *)
Variable normalizeFramework : string -> string.

(** [path.match(/^\/documentation\/([^/]+)\//)]: the text between
    [/documentation/] and the next slash, when it is not empty. *)
Definition extractFrameworkFromPath (path : string) : option string :=
  if String.prefix "/documentation/" path then
    let rest := sliceFrom 15 path in
    match String.index 0 "/" rest with
    | Some i =>
        if (i =? 0)%nat then None
        else
          let fw := String.substring 0 i rest in
          if String.eqb fw "samplecode" || String.eqb fw "documentation"
          then None
          else Some (normalizeFramework fw)
    | None => None
    end
  else None.

Variable frameworkMap : gmap string string.
Variable featuredIds : gset string.

(** One iteration of the [for] loop of [processSampleCodeNodes]; the
    recursive calls on [node.children] are folds of the same body. *)
Fixpoint processSampleCodeNode (currentFramework : string) (depth : Z)
    (sampleCodes : list ParsedSampleCode) (node : SampleCodeIndexNode)
    {struct node} : list ParsedSampleCode :=
  if String.eqb (type node) "groupMarker" then
    let fw := normalizeFramework (title node) in
    match children node with
    | Some cs => fold_left (processSampleCodeNode fw (depth + 1)) cs sampleCodes
    | None => sampleCodes
    end
  else
    match (if String.eqb (type node) "sampleCode" then path node else None) with
    | Some (String c p as nodePath) =>
        let fwFromPath := extractFrameworkFromPath nodePath in
        let docUrl := "doc://com.apple.documentation" +:+ nodePath in
        let fwFromMap := frameworkMap !! docUrl in
        let fw :=
          normalizeFramework
            (from_option id ""
               (orElse (orElse fwFromPath fwFromMap) (Some currentFramework))) in
        sampleCodes ++
          [ mkSample (title node)
                     (orElse (Some fw) None)
                     None
                     (from_option id false (beta node))
                     (bool_decide (docUrl ∈ featuredIds))
                     ("https://developer.apple.com" +:+ nodePath)
                     nodePath
                     depth ]
    | _ =>
        match children node with
        | Some cs =>
            fold_left (processSampleCodeNode currentFramework (depth + 1))
                      cs sampleCodes
        | None => sampleCodes
        end
    end.

Definition processSampleCodeNodes (nodes : list SampleCodeIndexNode)
    (sampleCodes : list ParsedSampleCode) (currentFramework : string)
    (depth : Z) : list ParsedSampleCode :=
  fold_left (processSampleCodeNode currentFramework depth) nodes sampleCodes.

End Walker.

(** *** De-duplication by path *)

(** [uniqueMap]: a [Map] keeps its keys in insertion order, and [set] on
    a present key replaces the value in place. *)
Fixpoint mapGet (key : string) (m : list (string * ParsedSampleCode))
    : option ParsedSampleCode :=
  match m with
  | [] => None
  | (k, v) :: rest => if String.eqb k key then Some v else mapGet key rest
  end.

Fixpoint mapSet (key : string) (v : ParsedSampleCode)
    (m : list (string * ParsedSampleCode)) : list (string * ParsedSampleCode) :=
  match m with
  | [] => [(key, v)]
  | (k, x) :: rest =>
      if String.eqb k key then (k, v) :: rest else (k, x) :: mapSet key v rest
  end.

(** The body of the [// Deduplicate] loop. *)
Definition mergeInto (uniqueMap : list (string * ParsedSampleCode))
    (code : ParsedSampleCode) : list (string * ParsedSampleCode) :=
  match mapGet (s_path code) uniqueMap with
  | None => mapSet (s_path code) code uniqueMap
  | Some existing =>
      mapSet (s_path code)
        (mkSample (s_title existing)
                  (orElse (s_framework code) (s_framework existing))
                  (s_description existing)
                  (s_beta code || s_beta existing)
                  (s_featured code || s_featured existing)
                  (s_url existing)
                  (s_path existing)
                  (Z.min (s_depth code) (s_depth existing)))
        uniqueMap
  end.

(** [Array.from(uniqueMap.values())] after the loop. *)
Definition deduplicate (sampleCodes : list ParsedSampleCode)
    : list ParsedSampleCode :=
  map snd (fold_left mergeInto sampleCodes []).

Section Command.
Variable P : Platform.
Variable normalizeFramework : string -> string.

(** Readers of the two fetched documents and the filter-sort-format
    tail of the producer; each may throw on malformed upstream data. *)
Variable featuredIdsOf : Json -> Completion (gset string).
Variable frameworkMapOf : Json -> Completion (gmap string string).
Variable interfaceLanguagesOf : Json -> Completion (list (list SampleCodeIndexNode)).
Variable filterSortFormat :
  list ParsedSampleCode -> option string -> string -> option string -> Z ->
  Completion string.

Definition getSampleCode_producer (framework : option string) (beta : string)
    (searchQuery : option string) (limit : Z) : M Value :=
  both <- Http.promiseAll2 P (Http.fetchJson P Urls.SAMPLE_CODE_JSON)
                             (Http.fetchJson P Urls.SAMPLE_CODE_INDEX_JSON) ;;
  let '(contentData, indexData) := both in
  featuredIds <- lift (featuredIdsOf contentData) ;;
  frameworkMap <- lift (frameworkMapOf contentData) ;;
  languages <- lift (interfaceLanguagesOf indexData) ;;
  let sampleCodes :=
    fold_left
      (fun acc nodes =>
         processSampleCodeNodes normalizeFramework frameworkMap featuredIds
                                nodes acc "" 0)
      languages [] in
  let results := deduplicate sampleCodes in
  content <- lift (filterSortFormat results framework beta searchQuery limit) ;;
  ret (VStr content).

Definition getSampleCode_try (framework : option string) (beta : string)
    (searchQuery : option string) (limit : Z) : M Value :=
  let cacheKey :=
    Cache.makeCacheKey P "samples"
      [("framework", optStr framework); ("beta", VStr beta);
       ("searchQuery", optStr searchQuery); ("limit", VNum limit)] in
  Cache.cacheGetOrSet cacheKey
    (getSampleCode_producer framework beta searchQuery limit) CACHE_TTL.

Definition getSampleCode (framework : option string) (beta : string)
    (searchQuery : option string) (limit : Z) : M Value :=
  tryCatch (getSampleCode_try framework beta searchQuery limit)
    (fun error =>
       ret (VStr ("Error fetching sample code: " +:+ errorText error))).

End Command.

Section Results.
Variable P : Platform.
Variable normalizeFramework : string -> string.

(** The predicate of the framework filter; [fwLower] is
    [normalizeFramework(framework).toLowerCase()] and
    [c.framework || ''] is the framework or the empty string. *)
Definition matchesFramework (fwLower : string) (c : ParsedSampleCode) : bool :=
  let codeFw :=
    toLowerCase (normalizeFramework (from_option id "" (s_framework c))) in
  String.eqb fwLower codeFw
  || includes codeFw fwLower
  || includes (toLowerCase (s_title c)) fwLower
  || includes (toLowerCase (s_path c)) fwLower.

(** The predicate of the search filter; [q] is [searchQuery.toLowerCase()]. *)
Definition matchesQuery (q : string) (c : ParsedSampleCode) : bool :=
  includes (toLowerCase (s_title c)) q
  || includes (toLowerCase (from_option id "" (s_framework c))) q
  || includes (toLowerCase (s_path c)) q.

(** The [// Filter] stage of [getSampleCode]. *)
Definition filterResults (framework : option string) (beta : string)
    (searchQuery : option string) (results : list ParsedSampleCode)
    : list ParsedSampleCode :=
  let results :=
    match framework with
    | Some (String _ _ as fw) =>
        List.filter (matchesFramework (toLowerCase (normalizeFramework fw))) results
    | _ => results
    end in
  let results :=
    if String.eqb beta "exclude" then List.filter (fun c => negb (s_beta c)) results
    else if String.eqb beta "only" then List.filter (fun c => s_beta c) results
    else results in
  match searchQuery with
  | Some (String _ _ as searchQuery) =>
      List.filter (matchesQuery (toLowerCase searchQuery)) results
  | _ => results
  end.

(** The comparator of the [// Sort] stage, by the sign of its result. *)
Definition compareSamples (a b : ParsedSampleCode) : comparison :=
  if s_featured a && negb (s_featured b) then Lt
  else if negb (s_featured a) && s_featured b then Gt
  else localeCompare P (s_title a) (s_title b).

(** [results.sort(...)]: the sort is stable; a record goes before the
    first one it does not exceed. *)
Fixpoint insertSample (c : ParsedSampleCode) (sorted : list ParsedSampleCode)
    : list ParsedSampleCode :=
  match sorted with
  | [] => [c]
  | x :: rest =>
      match compareSamples c x with
      | Gt => x :: insertSample c rest
      | _ => c :: x :: rest
      end
  end.

Definition sortSamples (results : list ParsedSampleCode) : list ParsedSampleCode :=
  foldr insertSample [] results.

(** From the filter to [results.slice(0, limit)]: the records handed to
    [formatSamples] and [totalFound]. *)
Definition selectSamples (framework : option string) (beta : string)
    (searchQuery : option string) (limit : Z) (results : list ParsedSampleCode)
    : list ParsedSampleCode * Z :=
  let results := filterResults framework beta searchQuery results in
  let totalFound := len results in
  (JS.sliceTo limit (sortSamples results), totalFound).

End Results.

End Samples.

(** ** commands/doc.ts *)

Module Doc.
Import JS.

Record DocOptions := mkDocOptions {
  related : option bool;
  references : option bool;
  similar : option bool;
  platform : option bool
}.

Definition CACHE_TTL : Z := 30 * 60 * 1000.

Section Command.
Variable P : Platform.

(** Readers of the fetched page.  [lacksPrimaryContent data] is
    [!data.primaryContentSections && data.references &&
     Object.keys(data.references).length > 0];
    [firstReferenceUrl data] is [Object.values(data.references)[0]?.url]
    when it is truthy; [renderDoc data options url] is the assembled
    Markdown.  Each may throw on malformed upstream data. *)
Variable lacksPrimaryContent : Json -> Completion bool.
Variable firstReferenceUrl : Json -> Completion (option string).
Variable renderDoc : Json -> DocOptions -> string -> Completion string.

Definition errorMessage (url : string) (error : Thrown) : string :=
  "Error: Failed to get Apple doc content: " +:+ errorText error
  +:+ String "010" (String "010"
        ("Please try accessing the documentation directly at: " +:+ url)).

(** The part of the [try] block after the JSON document has arrived
    and no redirect is taken. *)
Definition finish (url cacheKey : string) (options : DocOptions)
    (data : Json) : M Value :=
  content <- lift (renderDoc data options url) ;;
  fun w => (Normal (VStr content), Cache.cacheSet cacheKey (VStr content) CACHE_TTL w).

(** [url.includes('.json') ? url : convertToJsonApiUrl(url)]. *)
Definition jsonApiUrlOf (url : string) : option string :=
  if includes url ".json" then Some url else Urls.convertToJsonApiUrl P url.

(** [makeCacheKey('doc', { url: jsonApiUrl, ...options })]. *)
Definition cacheKeyOf (jsonApiUrl : string) (options : DocOptions) : string :=
  Cache.makeCacheKey P "doc"
    [("url", VStr jsonApiUrl);
     ("related", optBool (related options));
     ("references", optBool (references options));
     ("similar", optBool (similar options));
     ("platform", optBool (platform options))].

(** [`https://developer.apple.com${firstRef.url}`] unless it is absolute. *)
Definition fullRefUrlOf (refUrl : string) : string :=
  if startsWith refUrl "http" then refUrl
  else "https://developer.apple.com" +:+ refUrl.

(** The [try] block from [fetchJson] on, reached on a cache miss.
    [follow] is the recursive call
    [getAppleDocContent(_, options, maxDepth - 1)] when [maxDepth > 0],
    and [None] when no redirect is allowed any more. *)
Definition fetchAndRender (follow : option (string -> M Value))
    (url jsonApiUrl cacheKey : string) (options : DocOptions) : M Value :=
  data <- Http.fetchJson P jsonApiUrl ;;
  lacks <- lift (lacksPrimaryContent data) ;;
  match follow with
  | Some getAppleDocContent =>
      if lacks : bool then
        firstRef <- lift (firstReferenceUrl data) ;;
        match firstRef with
        | Some refUrl =>
            match Urls.convertToJsonApiUrl P (fullRefUrlOf refUrl) with
            | Some (String c r as refJsonUrl) => getAppleDocContent refJsonUrl
            | _ => finish url cacheKey options data
            end
        | None => finish url cacheKey options data
        end
      else finish url cacheKey options data
  | None => finish url cacheKey options data
  end.

(** The [try] block. *)
Definition getAppleDocContent_try (follow : option (string -> M Value))
    (url : string) (options : DocOptions) : M Value :=
  if negb (includes url "developer.apple.com") then
    ret (VStr "Error: URL must be from developer.apple.com")
  else
    match jsonApiUrlOf url with
    | None | Some EmptyString =>
        ret (VStr "Error: Invalid Apple Developer Documentation URL")
    | Some jsonApiUrl =>
        let cacheKey := cacheKeyOf jsonApiUrl options in
        fun w =>
          let '(cached, w0) := Cache.cacheGet cacheKey w in
          if truthy cached then (Normal cached, w0)
          else fetchAndRender follow url jsonApiUrl cacheKey options w0
    end.

(** [getAppleDocContent(url, options, maxDepth)]; [maxDepth] counts the
    redirects still allowed. *)
Fixpoint getAppleDocContent (url : string) (options : DocOptions)
    (maxDepth : nat) {struct maxDepth} : M Value :=
  tryCatch
    (getAppleDocContent_try
       match maxDepth with
       | S maxDepth' => Some (fun refJsonUrl =>
                                getAppleDocContent refJsonUrl options maxDepth')
       | O => None
       end
       url options)
    (fun error => ret (VStr (errorMessage url error))).

(** The recursive call available to a run with [maxDepth]. *)
Definition followOf (options : DocOptions) (maxDepth : nat)
    : option (string -> M Value) :=
  match maxDepth with
  | S maxDepth' => Some (fun refJsonUrl =>
                           getAppleDocContent refJsonUrl options maxDepth')
  | O => None
  end.

End Command.
End Doc.

(** ** commands/search.ts *)

Module Search.
Import JS.

Section Command.
Variable P : Platform.

(** [renderSearch html query filterType limit searchUrl]: the result
    extraction from the page and the Markdown assembly (it may throw). *)
Variable renderSearch : string -> string -> string -> Z -> string -> Completion string.

Definition searchUrlOf (query : string) : Completion string :=
  match encodeURIComponent P query with
  | Normal q => Normal (Urls.SEARCH +:+ "?q=" +:+ q)
  | Throw e => Throw e
  end.

Definition searchAppleDocs_try (query filterType : string) (limit : Z)
    : M Value :=
  searchUrl <- lift (searchUrlOf query) ;;
  html <- Http.fetchHtml P searchUrl ;;
  content <- lift (renderSearch html query filterType limit searchUrl) ;;
  ret (VStr content).

Definition searchAppleDocs (query filterType : string) (limit : Z) : M Value :=
  tryCatch (searchAppleDocs_try query filterType limit)
    (fun error =>
       ret (VStr ("Error searching Apple docs: " +:+ errorText error))).

End Command.
(** What [parseResult] reads off a [.search-result] element through
    cheerio: the [class] attribute, the text and the [href] of the link
    in [.result-title], the text of [.result-description], the texts of
    the [.result-tag.language] elements, and the text of the element. *)
Record ResultElement := mkElement {
  classAttr : option string;
  titleText : string;
  href : option string;
  descriptionText : string;
  languageTexts : list string;
  fullText : string
}.

Record SearchResult := mkResult {
  title : string;
  url : string;
  type : string;
  description : string;
  framework : option string;
  languages : option (list string);
  beta : option bool
}.

(** [TYPE_MAPPING[filterType]]: an array for the three own keys, a value
    that is no array for an inherited name, [undefined] otherwise. *)
Inductive Lookup :=
| Own (types : list string)
| Inherited
| Missing.

Definition TYPE_MAPPING (filterType : string) : Lookup :=
  if String.eqb filterType "all" then Own ["documentation"; "sample_code"]
  else if String.eqb filterType "documentation" then Own ["documentation"]
  else if String.eqb filterType "sample" then Own ["sample_code"]
  else if existsb (String.eqb filterType) JS.inheritedNames then Inherited
  else Missing.

Definition UNSUPPORTED_TYPES : list string := ["general"; "video"; "forums"; "news"].

(** [extractResultType(element)]. *)
Definition extractResultType (element : ResultElement) : string :=
  let classes :=
    match classAttr element with
    | Some c =>
        map string_of_list_ascii
            (JS.splitWhiteSpace false (list_ascii_of_string c))
    | None => []
    end in
  from_option id "other"
    (List.find (fun cls => negb (String.eqb cls "")
                           && negb (String.eqb cls "search-result")) classes).

(** [url.match(/\/documentation\/([^/]+)/)?.[1]]. *)
Fixpoint documentationSegment (url : string) : option string :=
  let here :=
    if String.prefix "/documentation/" url then
      match segment (sliceFrom 15 url) with
      | EmptyString => None
      | seg => Some seg
      end
    else None in
  match here with
  | Some seg => Some seg
  | None =>
      match url with
      | EmptyString => None
      | String _ rest => documentationSegment rest
      end
  end.

Section Results.
(** [normalizeFramework] of lib/frameworks.ts, and the message of the
    TypeError the engine throws when a method that does not exist is
    called. *)
Variable normalizeFramework : string -> string.
Variable notAFunction : string.

(** [parseResult(element, filterType)]; [None] is [null]. *)
Definition parseResult (element : ResultElement) (filterType : string)
    : Completion (option SearchResult) :=
  let resultType := extractResultType element in
  let allowed :=
    match TYPE_MAPPING filterType with
    | Missing => TYPE_MAPPING "all"
    | found => found
    end in
  match allowed with
  | Own allowed =>
      if negb (existsb (String.eqb resultType) allowed)
         || existsb (String.eqb resultType) UNSUPPORTED_TYPES
      then Normal None
      else
        let title := JS.trim (titleText element) in
        let url := from_option id "" (href element) in
        let url :=
          if startsWith url "/" then "https://developer.apple.com" +:+ url
          else url in
        if String.eqb url ""
           || negb (includes url "/documentation/")
           || includes url "download.apple.com"
           || includes url ".zip"
           || includes url "/design/human-interface-guidelines/"
        then Normal None
        else
          let description := JS.trim (descriptionText element) in
          let framework :=
            match documentationSegment url with
            | Some seg => Some (normalizeFramework seg)
            | None => None
            end in
          let languages :=
            List.filter (fun lang => negb (String.eqb lang ""))
                        (map JS.trim (languageTexts element)) in
          let beta := includes (fullText element) "Beta" in
          Normal (Some (mkResult title url resultType description framework
                          (if len languages >? 0 then Some languages else None)
                          (Some beta)))
  | _ => Throw (ErrorObject notAFunction)
  end.

(** The callback of [$('.search-result').each], over the elements in
    document order: [results] is the array it pushes to, and returning
    [false] ends the iteration. *)
Fixpoint collectResults (filterType : string) (limit : Z)
    (elements : list ResultElement) (results : list SearchResult)
    : Completion (list SearchResult) :=
  match elements with
  | [] => Normal results
  | el :: rest =>
      if len results >=? limit then Normal results
      else
        match parseResult el filterType with
        | Throw e => Throw e
        | Normal (Some result) =>
            collectResults filterType limit rest (results ++ [result])
        | Normal None => collectResults filterType limit rest results
        end
  end.

End Results.

End Search.

(** ** commands/technologies.ts *)

Module Technologies.
Import JS.

Definition CACHE_TTL : Z := 2 * 60 * 60 * 1000.

Section Command.
Variable P : Platform.

(** [formatList(applyFilters(parseTechnologies(data), filters))]; it
    may throw on malformed upstream data. *)
Variable renderTechnologies :
  Json -> option string -> option string -> bool -> Z -> Completion string.

Definition listTechnologies_producer (category language : option string)
    (includeBeta : bool) (limit : Z) : M Value :=
  data <- Http.fetchJson P Urls.TECHNOLOGIES_JSON ;;
  content <- lift (renderTechnologies data category language includeBeta limit) ;;
  ret (VStr content).

Definition listTechnologies_try (category language : option string)
    (includeBeta : bool) (limit : Z) : M Value :=
  let cacheKey :=
    Cache.makeCacheKey P "technologies"
      [("category", optStr category); ("language", optStr language);
       ("includeBeta", VBool includeBeta); ("limit", VNum limit)] in
  Cache.cacheGetOrSet cacheKey
    (listTechnologies_producer category language includeBeta limit) CACHE_TTL.

Definition listTechnologies (category language : option string)
    (includeBeta : bool) (limit : Z) : M Value :=
  tryCatch (listTechnologies_try category language includeBeta limit)
    (fun error =>
       ret (VStr ("Error: Failed to list technologies: " +:+ errorText error))).

End Command.
Record Technology := mkTechnology {
  title : string;
  identifier : string;
  tags : list string;
  languages : list string;
  url : option string
}.

Record TechnologyGroup := mkGroup {
  name : string;
  technologies : list Technology
}.

(** [identifierToWebUrl(id)]. *)
Definition identifierToWebUrl (id : string) : string :=
  if startsWith id "doc://" then
    let path := stripDocHost id in
    "https://developer.apple.com" +:+ path
  else if startsWith id "http" then id
  else if startsWith id "/" then "https://developer.apple.com" +:+ id
  else "https://developer.apple.com/documentation/" +:+ id.

(** [arr.includes(x)] on an array of strings. *)
Definition arrayIncludes (arr : list string) (x : string) : bool :=
  existsb (String.eqb x) arr.

Section Filters.
(** [filters]: absent fields are [None]. *)
Variable category : option string.
Variable language : option string.
Variable includeBeta : option bool.
Variable limit : option Z.

(** The callback of [group.technologies.filter]. *)
Definition keepsTechnology (tech : Technology) : bool :=
  if negb (truthy (optBool includeBeta)) && arrayIncludes (tags tech) "Beta"
  then false
  else if truthy (optStr language)
          && negb (arrayIncludes (languages tech) (from_option id "" language))
  then false
  else true.

(** The callback of the first [groups.map]; [None] is [null]. *)
Definition filterGroup (group : TechnologyGroup) : option TechnologyGroup :=
  if truthy (optStr category)
     && negb (includes (toLowerCase (name group))
                       (toLowerCase (from_option id "" category)))
  then None
  else
    let techs := List.filter keepsTechnology (technologies group) in
    if len techs >? 0 then Some (mkGroup (name group) techs) else None.

(** The second [map], whose callback reads and updates [total]. *)
Fixpoint limitGroups (limit : Z) (total : Z) (groups : list TechnologyGroup)
    : list (option TechnologyGroup) :=
  match groups with
  | [] => []
  | group :: rest =>
      let available := limit - total in
      if available <=? 0 then None :: limitGroups limit total rest
      else
        let limited := sliceTo available (technologies group) in
        Some (mkGroup (name group) limited)
        :: limitGroups limit (total + len limited) rest
  end.

(** [.filter((g) => g !== null && g.technologies.length > 0)]. *)
Definition nonEmptyGroups (groups : list (option TechnologyGroup))
    : list TechnologyGroup :=
  omap (fun g =>
          match g with
          | Some g => if len (technologies g) >? 0 then Some g else None
          | None => None
          end) groups.

(** [applyFilters(groups, filters)]. *)
Definition applyFilters (groups : list TechnologyGroup) : list TechnologyGroup :=
  let filtered := omap filterGroup groups in
  match limit with
  | Some limit =>
      if limit >=? 0 then
        if limit =? 0 then []
        else nonEmptyGroups (limitGroups limit 0 filtered)
      else filtered
  | None => filtered
  end.

End Filters.

End Technologies.

(** ** commands/updates.ts *)

Module Updates.
Import JS.

Definition CACHE_TTL : Z := 30 * 60 * 1000.

Section Command.
Variable P : Platform.

(** [formatUpdates] of the filtered [parseUpdates(updatesData,
    updatesIndex)]; it may throw on malformed upstream data. *)
Variable renderUpdates :
  Json -> Json -> string -> option string -> option string -> option string ->
  bool -> Z -> Completion string.

Definition getDocumentationUpdates_producer (category : string)
    (technology year searchQuery : option string) (includeBeta : bool)
    (limit : Z) : M Value :=
  both <- Http.promiseAll2 P (Http.fetchJson P Urls.UPDATES_JSON)
                             (Http.fetchJson P Urls.UPDATES_INDEX_JSON) ;;
  let '(updatesData, updatesIndex) := both in
  content <- lift (renderUpdates updatesData updatesIndex category technology
                                 year searchQuery includeBeta limit) ;;
  ret (VStr content).

Definition getDocumentationUpdates_try (category : string)
    (technology year searchQuery : option string) (includeBeta : bool)
    (limit : Z) : M Value :=
  let cacheKey :=
    Cache.makeCacheKey P "updates"
      [("category", VStr category); ("technology", optStr technology);
       ("year", optStr year); ("searchQuery", optStr searchQuery);
       ("includeBeta", VBool includeBeta); ("limit", VNum limit)] in
  Cache.cacheGetOrSet cacheKey
    (getDocumentationUpdates_producer category technology year searchQuery
                                      includeBeta limit)
    CACHE_TTL.

Definition getDocumentationUpdates (category : string)
    (technology year searchQuery : option string) (includeBeta : bool)
    (limit : Z) : M Value :=
  tryCatch
    (getDocumentationUpdates_try category technology year searchQuery
                                 includeBeta limit)
    (fun error =>
       ret (VStr ("Error: Failed to fetch documentation updates: "
                  +:+ errorText error))).

End Command.
Record UpdateItem := mkUpdate {
  title : string;
  url : string;
  description : string;
  category : string;
  type : string;
  identifier : string;
  technology : option string;
  year : option string;
  beta : option bool;
  images : option (list (string * string))
}.

#[warnings="-register-all"]
Inductive UpdatesIndexSection := mkSection {
  sec_path : string;
  sec_title : string;
  sec_type : string;
  sec_beta : option bool;
  sec_children : option (list UpdatesIndexSection)
}.

(** [getSectionCategory(title)]. *)
Definition getSectionCategory (title : string) : string :=
  let lower := toLowerCase title in
  if includes lower "wwdc" then "wwdc"
  else if includes lower "release notes" then "release-notes"
  else if includes lower "technology" then "technology"
  else "other".

(** [path.match(/\/documentation\/updates\/([^/]+)/i)?.[1]]: the
    segment after the leftmost [/documentation/updates/] that is
    followed by a character other than a slash. *)
Fixpoint updatesSegment (path : string) : option string :=
  let here :=
    if JS.prefixIgnoringCase "/documentation/updates/" path then
      match JS.segment (sliceFrom 23 path) with
      | EmptyString => None
      | seg => Some seg
      end
    else None in
  match here with
  | Some seg => Some seg
  | None =>
      match path with
      | EmptyString => None
      | String _ rest => updatesSegment rest
      end
  end.

(** [extractTechFromPath(path)]; [None] is [undefined]. *)
Definition extractTechFromPath (path : string) : option string :=
  match updatesSegment path with
  | Some seg =>
      Some (string_of_list_ascii
              (join [" "%char]
                    (map JS.capitalize
                         (split " " (JS.dashesToSpaces (list_ascii_of_string seg))))))
  | None => None
  end.

(** [updates.find(pred)] followed by an assignment to the fields of the
    object found: the first update that satisfies [pred] is changed in
    place. *)
Fixpoint updateFirst (pred : UpdateItem -> bool) (change : UpdateItem -> UpdateItem)
    (updates : list UpdateItem) : list UpdateItem :=
  match updates with
  | [] => []
  | u :: rest =>
      if pred u then change u :: rest else u :: updateFirst pred change rest
  end.

(** The callback of [updates.find] in [processIndex]. *)
Definition matchesSection (section : UpdatesIndexSection) (u : UpdateItem) : bool :=
  includes (url u) (sec_path section) || String.eqb (title u) (sec_title section).

(** [match.beta = section.beta ?? false;
     match.technology = extractTechFromPath(section.path)]. *)
Definition enrich (section : UpdatesIndexSection) (u : UpdateItem) : UpdateItem :=
  mkUpdate (title u) (url u) (description u) (category u) (type u)
           (identifier u)
           (extractTechFromPath (sec_path section))
           (year u)
           (Some (from_option id false (sec_beta section)))
           (images u).

(** One iteration of the [for] loop of [processIndex]. *)
Fixpoint processSection (section : UpdatesIndexSection) (updates : list UpdateItem)
    {struct section} : list UpdateItem :=
  let updates := updateFirst (matchesSection section) (enrich section) updates in
  match sec_children section with
  | Some cs => fold_left (fun acc child => processSection child acc) cs updates
  | None => updates
  end.

(** [processIndex(sections, updates)]: the array [updates] after the call. *)
Definition processIndex (sections : list UpdatesIndexSection)
    (updates : list UpdateItem) : list UpdateItem :=
  fold_left (fun acc section => processSection section acc) sections updates.

(** The callbacks of the technology and the search filter. *)
Definition matchesTechnology (techLower : string) (u : UpdateItem) : bool :=
  match technology u with
  | Some t => includes (toLowerCase t) techLower
  | None => false
  end
  || includes (toLowerCase (title u)) techLower
  || includes (toLowerCase (description u)) techLower.

Definition matchesQuery (q : string) (u : UpdateItem) : bool :=
  includes (toLowerCase (title u)) q || includes (toLowerCase (description u)) q.

Section Filters.
Variable category : string.
Variable technology year searchQuery : option string.
Variable includeBeta : bool.
Variable limit : Z.

(** [// Apply filters] of [getDocumentationUpdates], down to the
    [slice]: the list handed to [formatUpdates]. *)
Definition selectUpdates (updates : list UpdateItem) : list UpdateItem :=
  let updates :=
    if negb (String.eqb category "all")
    then List.filter (fun u => String.eqb (Updates.category u) category) updates
    else updates in
  let updates :=
    match technology with
    | Some (String _ _ as technology) =>
        List.filter (matchesTechnology (toLowerCase technology)) updates
    | _ => updates
    end in
  let updates :=
    match year with
    | Some (String _ _ as year) =>
        List.filter (fun u => bool_decide (Updates.year u = Some year)) updates
    | _ => updates
    end in
  let updates :=
    match searchQuery with
    | Some (String _ _ as searchQuery) =>
        List.filter (matchesQuery (toLowerCase searchQuery)) updates
    | _ => updates
    end in
  let updates :=
    if negb includeBeta
    then List.filter (fun u => negb (truthy (optBool (beta u)))) updates
    else updates in
  if limit >? 0 then sliceTo limit updates else updates.

End Filters.

End Updates.

(** ** lib/format.ts *)

Module Format.
Import JS.

(** [identifierToUrl(id)]. *)
Definition identifierToUrl (id : string) : string :=
  if startsWith id "doc://" then
    let path := stripDocHost id in
    "https://developer.apple.com" +:+ path
  else if startsWith id "http" then id
  else if startsWith id "/" then "https://developer.apple.com" +:+ id
  else "https://developer.apple.com/documentation/" +:+ id.

End Format.

(** ** Specification-level definitions *)

Module Spec.
Import JS.

(** The exhaustive walk the specification compares [findSymbolsRecursive]
    with: every selected node within the depth bound, in depth-first
    pre-order (a node before its children, children in document order). *)
Section Exhaustive.
Variable symbolType : string.
Variable namePattern : option string.

Fixpoint matchesUnder (depth : Z) (item : Symbols.IndexItem)
    : list Symbols.IndexItem :=
  (if Symbols.selected symbolType namePattern item then [item] else [])
  ++ match Symbols.children item with
     | Some cs =>
         if depth + 1 >? 6 then []
         else flat_map (matchesUnder (depth + 1)) cs
     | None => []
     end.

Definition allMatches (items : list Symbols.IndexItem) (depth : Z)
    : list Symbols.IndexItem :=
  if depth >? 6 then [] else flat_map (matchesUnder depth) items.
End Exhaustive.

(** How many more symbols fit under [limit], and what it means for a
    (part of the) walker [f] to add the first of [found x] that fit. *)
Definition room (limit : Z) (symbols : list Symbols.IndexItem) : nat :=
  Z.to_nat (limit - len symbols).

Definition walks (limit : Z) {A}
    (f : A -> list Symbols.IndexItem -> bool * list Symbols.IndexItem)
    (found : A -> list Symbols.IndexItem) (x : A) : Prop :=
  forall symbols,
    snd (f x symbols) = symbols ++ take (room limit symbols) (found x)
    /\ (fst (f x symbols) = true -> limit <= len (snd (f x symbols))).





(** A node of a sample-code index tree: one of [nodes] or a descendant. *)
Inductive inTree : Samples.SampleCodeIndexNode ->
                   list Samples.SampleCodeIndexNode -> Prop :=
| inTree_here n l : In n l -> inTree n l
| inTree_below n m cs l :
    In m l -> Samples.children m = Some cs -> inTree n cs -> inTree n l.

(** A record and the node it was built from. *)
Definition builtFrom (n : Samples.SampleCodeIndexNode) (r : Samples.ParsedSampleCode)
    : Prop :=
  Samples.type n = "sampleCode"
  /\ Samples.path n = Some (Samples.s_path r)
  /\ Samples.s_title r = Samples.title n.

Definition pushesOnlySamples {A}
    (f : A -> list Samples.ParsedSampleCode -> list Samples.ParsedSampleCode)
    (within : A -> list Samples.SampleCodeIndexNode) (x : A) : Prop :=
  forall sampleCodes,
    exists origins pushed,
      f x sampleCodes = sampleCodes ++ pushed
      /\ Forall2 builtFrom origins pushed
      /\ Forall (fun n => inTree n (within x)) origins.

(** What the specification assumes of the collation behind
    [localeCompare]: a strict total order on names. *)
Record Collation (cmp : string -> string -> comparison) : Prop := {
  collation_antisym : forall a b, cmp a b = CompOpp (cmp b a);
  collation_eq : forall a b, cmp a b = Eq -> a = b;
  collation_trans : forall a b c, cmp a b = Lt -> cmp b c = Lt -> cmp a c = Lt
}.

Definition before (cmp : string -> string -> comparison)
    (x y : string * Value) : Prop :=
  cmp (fst x) (fst y) = Lt.

Definition defined (e : string * Value) : Prop := isDefined (snd e) = true.

(** [`${k}=${String(v)}`]. *)
Definition part (e : string * Value) : string :=
  fst e +:+ "=" +:+ toString (snd e).

(** A framework that is present and not the empty string. *)
Definition hasFramework (r : Samples.ParsedSampleCode) : bool :=
  match Samples.s_framework r with
  | Some (String _ _) => true
  | _ => false
  end.

(** [r] is the merge, for path [p], of the records of [l] with that path. *)
Definition mergeOf (p : string) (r : Samples.ParsedSampleCode)
    (l : list Samples.ParsedSampleCode) : Prop :=
  let dup d := d ∈ l /\ Samples.s_path d = p in
  Samples.s_path r = p
  /\ (hasFramework r = true <-> exists d, dup d /\ hasFramework d = true)
  /\ (Samples.s_featured r = true <-> exists d, dup d /\ Samples.s_featured d = true)
  /\ (Samples.s_beta r = true <-> exists d, dup d /\ Samples.s_beta d = true)
  /\ (forall d, dup d -> Samples.s_depth r <= Samples.s_depth d)
  /\ (exists d, dup d /\ Samples.s_depth d = Samples.s_depth r).

(** The state of the de-duplication loop after the records [l]. *)
Definition merged (m : list (string * Samples.ParsedSampleCode))
    (l : list Samples.ParsedSampleCode) : Prop :=
  NoDup (map fst m)
  /\ (forall k v, Samples.mapGet k m = Some v -> mergeOf k v l)
  /\ (forall d, d ∈ l -> Samples.mapGet (Samples.s_path d) m <> None).

(** What one attempt settles to, given what the platform answered, and
    the world after the request. *)
Definition attemptResult (url : string) (outcome : FetchOutcome)
    : Completion Response :=
  match outcome with
  | Responded r =>
      if status r =? 404 then Throw (ErrorObject ("Not found (404): " +:+ url))
      else if status r >=? 500 then
        Throw (ErrorObject ("Server error (" +:+ pretty (status r) +:+ "): " +:+ url))
      else if negb (ok r) then
        Throw (ErrorObject ("HTTP " +:+ pretty (status r) +:+ ": " +:+ url))
      else Normal r
  | Rejected e => Throw e
  end.

Definition logged (P : Platform) (url : string) (w : World) : World :=
  mkWorld (store w) (now w + snd (network P (requests w) url))
          (requests w ++ [url]) (producerCalls w).

(** The platform's answer to the [k]-th further request for [url]. *)
Definition outcomeAt (P : Platform) (url : string) (w : World) (k : nat)
    : FetchOutcome :=
  fst (network P (requests w ++ replicate k url) url).

(** A failing outcome other than a 404 response, whose own text does
    not mention 404. *)
Definition retriable (outcome : FetchOutcome) : Prop :=
  match outcome with
  | Responded r => 100 <= status r <= 599 /\ ok r = false /\ status r <> 404
  | Rejected e => includes (errorText e) "404" = false
  end.

Definition success (outcome : FetchOutcome) (r : Response) : Prop :=
  outcome = Responded r /\ ok r = true.

(** The cache holds texts only: the six commands are its only writers,
    and each stores the Markdown it returns. *)
Definition stringStore (w : World) : Prop :=
  forall k e, store w !! k = Some e -> exists s, value e = VStr s.

(** [m] keeps the cache a store of texts. *)
Definition keeps {A} (m : M A) : Prop :=
  forall w, stringStore w -> stringStore (snd (m w)).


(** [f] returns a string and never throws. *)
Definition total (f : M Value) : Prop :=
  forall w, stringStore w ->
    exists s w', f w = (Normal (VStr s), w') /\ stringStore w'.


(** [m] only ever appends to the request log. *)
Definition grows {A} (m : M A) : Prop :=
  forall w, exists rest, requests (snd (m w)) = requests w ++ rest.

(** The first thing [m] does in [w] is to request [url]. *)
Definition requestsFirst {A} (url : string) (m : M A) (w : World) : Prop :=
  exists rest, requests (snd (m w)) = requests w ++ url :: rest.

(** [webUrl.endsWith('/') ? webUrl.slice(0, -1) : webUrl]. *)
Definition trimmed (webUrl : string) : string :=
  if endsWith webUrl "/" then dropLast webUrl else webUrl.

(** [m] appends at most [n] requests to the log. *)
Definition atMost (n : nat) {A} (m : M A) : Prop :=
  forall w, exists rest,
    requests (snd (m w)) = requests w ++ rest /\ (List.length rest <= n)%nat.

(** The nodes of an index tree in document order: a node, then the
    nodes of its children. *)
Fixpoint nodesOf (item : Symbols.IndexItem) : list Symbols.IndexItem :=
  item :: match Symbols.children item with
          | Some cs => flat_map nodesOf cs
          | None => []
          end.

Definition isCollection (item : Symbols.IndexItem) : bool :=
  String.eqb (Symbols.type item) "collection".

(** A tree of at most [levels] levels. *)
Fixpoint shallow (levels : nat) (item : Symbols.IndexItem) : bool :=
  match levels with
  | O => false
  | S n =>
      match Symbols.children item with
      | Some cs => forallb (shallow n) cs
      | None => true
      end
  end.

(** The distinct elements of a list, each at its first occurrence. *)
Fixpoint firstOccurrences (l : list string) : list string :=
  match l with
  | [] => []
  | x :: r => x :: List.filter (fun y => negb (String.eqb y x)) (firstOccurrences r)
  end.

(** The first record of [l] with path [p], and the last one with path
    [p] that has a framework. *)
Definition firstWith (p : string) (l : list Samples.ParsedSampleCode)
    : option Samples.ParsedSampleCode :=
  List.find (fun d => String.eqb (Samples.s_path d) p) l.

Definition lastFrameworkWith (p : string) (l : list Samples.ParsedSampleCode)
    : option Samples.ParsedSampleCode :=
  List.find (fun d => String.eqb (Samples.s_path d) p && hasFramework d) (rev l).

(** What the walker guarantees of a record it builds at nesting level
    [minDepth] or below, and what the de-duplication keeps. *)
Definition wellFormed (featuredIds : gset string) (minDepth : Z)
    (r : Samples.ParsedSampleCode) : Prop :=
  Samples.s_path r <> ""
  /\ Samples.s_url r = "https://developer.apple.com" +:+ Samples.s_path r
  /\ Samples.s_framework r <> Some ""
  /\ Samples.s_description r = None
  /\ Samples.s_featured r
     = bool_decide ("doc://com.apple.documentation" +:+ Samples.s_path r ∈ featuredIds)
  /\ minDepth <= Samples.s_depth r.

(** What the record kept under a path owes to which duplicate. *)
Definition provenance (m : list (string * Samples.ParsedSampleCode))
    (l : list Samples.ParsedSampleCode) : Prop :=
  forall k v, Samples.mapGet k m = Some v ->
    exists first,
      firstWith k l = Some first
      /\ Samples.s_title v = Samples.s_title first
      /\ Samples.s_url v = Samples.s_url first
      /\ Samples.s_description v = Samples.s_description first
      /\ Samples.s_framework v
         = match lastFrameworkWith k l with
           | Some d => Samples.s_framework d
           | None => Samples.s_framework first
           end.
(** The record that replaces [existing] when [code] has the same path. *)
Definition mergeRecords (code existing : Samples.ParsedSampleCode)
    : Samples.ParsedSampleCode :=
  Samples.mkSample (Samples.s_title existing)
    (orElse (Samples.s_framework code) (Samples.s_framework existing))
    (Samples.s_description existing)
    (Samples.s_beta code || Samples.s_beta existing)
    (Samples.s_featured code || Samples.s_featured existing)
    (Samples.s_url existing)
    (Samples.s_path existing)
    (Z.min (Samples.s_depth code) (Samples.s_depth existing)).

(** [m] pushes records that satisfy [Q], and only pushes. *)
Definition pushesAll (Q : Samples.ParsedSampleCode -> Prop)
    (f : list Samples.ParsedSampleCode -> list Samples.ParsedSampleCode) : Prop :=
  forall sampleCodes,
    exists pushed, f sampleCodes = sampleCodes ++ pushed /\ Forall Q pushed.

(** [a] does not come after [b] in the listing order. *)
Definition notAfter (P : Platform) (a b : Samples.ParsedSampleCode) : Prop :=
  Samples.compareSamples P a b <> Gt.

(** The technologies of a list of groups, in order. *)
Definition allTechnologies (groups : list Technologies.TechnologyGroup)
    : list Technologies.Technology :=
  flat_map Technologies.technologies groups.

(** A host name: not empty, no slash. *)
Fixpoint noSlash (s : string) : bool :=
  match s with
  | EmptyString => true
  | String c r => negb (Ascii.eqb c "/") && noSlash r
  end.

(** The sections of an index tree in the order [processIndex] visits
    them. *)
Fixpoint sectionsOf (section : Updates.UpdatesIndexSection)
    : list Updates.UpdatesIndexSection :=
  section :: match Updates.sec_children section with
             | Some cs => flat_map sectionsOf cs
             | None => []
             end.

(** Two updates that differ at most in [beta] and [technology]. *)
Definition sameUpdate (u v : Updates.UpdateItem) : Prop :=
  Updates.title v = Updates.title u
  /\ Updates.url v = Updates.url u
  /\ Updates.description v = Updates.description u
  /\ Updates.category v = Updates.category u
  /\ Updates.type v = Updates.type u
  /\ Updates.identifier v = Updates.identifier u
  /\ Updates.year v = Updates.year u
  /\ Updates.images v = Updates.images u.

(** What a pass over some sections does to the array: positions and all
    fields but [beta] and [technology] are kept, and an update that none
    of the sections matches is not touched. *)
Definition enriches (sections : list Updates.UpdatesIndexSection)
    (f : list Updates.UpdateItem -> list Updates.UpdateItem) : Prop :=
  forall updates,
    Forall2 sameUpdate updates (f updates)
    /\ forall i u,
         updates !! i = Some u ->
         (forall s, s ∈ sections -> Updates.matchesSection s u = false) ->
         f updates !! i = Some u.

(** [l'] is [l] without the elements that fail [C], in the same order. *)
Definition keepsWhere {A} (C : A -> Prop) (l' l : list A) : Prop :=
  sublist l' l /\ forall u, u ∈ l' <-> u ∈ l /\ C u.

(** The result types a filter lets through. *)
Definition allowedTypes (filterType : string) : list string :=
  if String.eqb filterType "documentation" then ["documentation"]
  else if String.eqb filterType "sample" then ["sample_code"]
  else ["documentation"; "sample_code"].

(** The results of the elements that [parseResult] accepts. *)
Definition accepted (normalizeFramework : string -> string) (notAFunction : string)
    (filterType : string) (elements : list Search.ResultElement)
    : list Search.SearchResult :=
  omap (fun el =>
          match Search.parseResult normalizeFramework notAFunction el filterType with
          | Normal (Some r) => Some r
          | _ => None
          end) elements.

(** A result that may be listed under [filterType]. *)
Definition listable (filterType : string) (r : Search.SearchResult) : Prop :=
  Search.type r ∈ allowedTypes filterType
  /\ Search.url r <> ""
  /\ includes (Search.url r) "/documentation/" = true
  /\ includes (Search.url r) "download.apple.com" = false
  /\ includes (Search.url r) ".zip" = false
  /\ includes (Search.url r) "/design/human-interface-guidelines/" = false
  /\ Search.languages r <> Some []
  /\ Search.beta r <> None.

(** A URL on the Apple developer host. *)
Definition toAppleHost (url : string) : Prop :=
  startsWith url "https://developer.apple.com/" = true.

(** [m] appends at most [n] requests to the log, each to a URL that
    satisfies [ok]. *)
Definition requestsOnly (ok : string -> Prop) (n : nat) {A} (m : M A) : Prop :=
  forall w, exists sent,
    requests (snd (m w)) = requests w ++ sent
    /\ Forall ok sent /\ (List.length sent <= n)%nat.

(** What [localeCompare] is on every platform: a comparison whose sign
    is reversed when the arguments are swapped and whose "before" is
    transitive.  Two different names may compare as equal (a tie), as
    names do that differ only in characters the collation ignores. *)
Record WeakOrder (cmp : string -> string -> comparison) : Prop := {
  order_antisym : forall a b, cmp a b = CompOpp (cmp b a);
  order_trans : forall a b c, cmp a b = Lt -> cmp b c = Lt -> cmp a c = Lt
}.

(** No two different names of the list tie. *)
Definition tieFree (cmp : string -> string -> comparison) (names : list string)
    : Prop :=
  forall a b, a ∈ names -> b ∈ names -> cmp a b = Eq -> a = b.

(** A record that is not featured does not come before a featured one. *)
Definition featuredFirst (a b : Samples.ParsedSampleCode) : Prop :=
  Samples.s_featured b = true -> Samples.s_featured a = true.







(** An attempt that fails with an error the loop retries after: its
    message does not contain [404]. *)
Definition retried (url : string) (outcome : FetchOutcome) : Prop :=
  exists e, attemptResult url outcome = Throw e
            /\ includes (errorText e) "404" = false.

End Spec.

(** ** Concrete inputs used by the examples below *)

Module Examples.
Import JS.

(** A grouping node with one class below it. *)
Definition sampleTree : list Symbols.IndexItem :=
  [ Symbols.mkIndexItem "" "Views" "groupMarker" None None None
      (Some [ Symbols.mkIndexItem "/documentation/swiftui/view" "View" "class"
                None None None None ]) ].

(** A platform for the examples: code-unit order as the collation, a
    network that answers every request with the given outcome, a URL
    parser that accepts nothing. *)
Definition platformWith (net : list string -> string -> FetchOutcome * Z)
    : Platform :=
  mkPlatform net String.compare (fun _ => None) (fun s => Normal s)
             (fun _ => true).

Definition offline : Platform :=
  platformWith (fun _ _ => (Rejected (ErrorObject "The operation timed out."), 30000)).

Definition emptyWorld : World := mkWorld ∅ 0 [] 0.

(** A world whose cache holds [undefined] under ["k"], not yet expired. *)
Definition undefinedCached : World :=
  mkWorld {[ "k" := mkCacheEntry VUndefined 100 ]} 0 [] 0.

Definition plainSample : Samples.ParsedSampleCode :=
  Samples.mkSample "Landmarks" None None false false
    "https://developer.apple.com/documentation/swiftui/landmarks"
    "/documentation/swiftui/landmarks" 3.

Definition featuredBetaSample : Samples.ParsedSampleCode :=
  Samples.mkSample "Landmarks" (Some "SwiftUI") None true true
    "https://developer.apple.com/documentation/swiftui/landmarks"
    "/documentation/swiftui/landmarks" 1.

Definition okResponse : Response := mkResponse 200 (Normal (JObj [])) (Normal "{}").
Definition serverError : Response := mkResponse 500 (Normal JNull) (Normal "").

(** A server that fails twice and then answers. *)
Definition flaky : Platform :=
  platformWith (fun earlier _ =>
    if (List.length earlier <? 2)%nat then (Responded serverError, 10)
    else (Responded okResponse, 10)).

Definition indexUrl : string :=
  "https://developer.apple.com/tutorials/data/index/swiftui".

(** A URL parser for the examples: [https://host/path], nothing else. *)
Definition parseHttpsUrl (s : string) : option URL :=
  if String.prefix "https://" s then
    let rest := sliceFrom 8 s in
    match String.index 0 "/" rest with
    | Some i =>
        if (i =? 0)%nat then None
        else Some (mkURL (String.substring 0 i rest) (sliceFrom i rest))
    | None =>
        if String.eqb rest "" then None else Some (mkURL rest "/")
    end
  else None.

Definition web : Platform :=
  mkPlatform (fun _ _ => (Responded okResponse, 10)) String.compare
             parseHttpsUrl (fun s => Normal s) (fun _ => true).

(** A URL on another host that mentions the Apple host in its path. *)
Definition foreignJsonUrl : string :=
  "https://evil.example/developer.apple.com/page.json".

(** Three classes under a grouping node, and a chain nested eight deep
    with a class at the bottom. *)
Definition leaf (name type : string) : Symbols.IndexItem :=
  Symbols.mkIndexItem ("/documentation/swiftui/" +:+ name) name type
                      None None None None.

Definition threeClasses : list Symbols.IndexItem :=
  [ Symbols.mkIndexItem "" "Views" "groupMarker" None None None
      (Some [leaf "View" "class"; leaf "Text" "struct"; leaf "NavigationView" "class"]);
    leaf "Button" "class" ].

Fixpoint chain (n : nat) (bottom : Symbols.IndexItem) : Symbols.IndexItem :=
  match n with
  | O => bottom
  | S n' => Symbols.mkIndexItem "" "level" "collection" None None None
              (Some [chain n' bottom])
  end.

(** A sample index: a grouping node over one sample and one article. *)
Definition sampleIndex : list Samples.SampleCodeIndexNode :=
  [ Samples.mkNode None "swiftui" "groupMarker"
      (Some [ Samples.mkNode (Some "/documentation/swiftui/landmarks") "Landmarks"
                "sampleCode" None None (Some true);
              Samples.mkNode (Some "/documentation/swiftui/overview") "Overview"
                "article" None None None ])
      None None ].

Definition swiftuiUrl : string := "https://developer.apple.com/documentation/swiftui".

(** A collection over a class, then a collection nested eight deep. *)
Definition collections : list Symbols.IndexItem :=
  [ Symbols.mkIndexItem "/documentation/swiftui/views" "Views" "collection"
      None None None (Some [leaf "View" "class"]);
    chain 8 (leaf "Deep" "class") ].

Definition sample (title : string) (fw : option string) (beta featured : bool)
    : Samples.ParsedSampleCode :=
  Samples.mkSample title fw None beta featured
    ("https://developer.apple.com/documentation/samples/" +:+ title)
    ("/documentation/samples/" +:+ title) 1.

Definition fourSamples : list Samples.ParsedSampleCode :=
  [ sample "Zoo" (Some "SwiftUI") false false;
    sample "Maps" (Some "MapKit") true true;
    sample "Audio" None false false;
    sample "Bonjour" (Some "Network") true true ].

Definition tech (title : string) (tags languages : list string)
    : Technologies.Technology :=
  Technologies.mkTechnology title ("doc://com.apple.documentation/documentation/" +:+ title)
    tags languages (Some ("https://developer.apple.com/documentation/" +:+ title)).

Definition techGroups : list Technologies.TechnologyGroup :=
  [ Technologies.mkGroup "App Frameworks"
      [tech "SwiftUI" [] ["swift"]; tech "UIKit" [] ["swift"; "occ"];
       tech "FoundationModels" ["Beta"] ["swift"]];
    Technologies.mkGroup "Graphics and Games"
      [tech "Metal" [] ["swift"; "occ"]; tech "RealityKit" ["Beta"] ["swift"]] ].

Definition update (title path category : string) (year : option string)
    : Updates.UpdateItem :=
  Updates.mkUpdate title ("https://developer.apple.com" +:+ path) "" category
    "update" ("doc://com.apple.documentation" +:+ path) None year None None.

Definition someUpdates : list Updates.UpdateItem :=
  [ update "WWDC25" "/documentation/updates/wwdc2025" "wwdc" (Some "2025");
    update "SwiftUI updates" "/documentation/updates/swiftui" "technology" None;
    update "Core ML updates" "/documentation/updates/core-ml" "technology" None;
    update "Xcode 26" "/documentation/xcode-release-notes/xcode-26" "release-notes"
           None ].

Definition updatesIndex : list Updates.UpdatesIndexSection :=
  [ Updates.mkSection "/documentation/updates" "Updates" "module" None
      (Some [ Updates.mkSection "/documentation/updates/core-ml" "Core ML"
                "article" (Some true) None;
              Updates.mkSection "/documentation/Updates/SwiftUI" "SwiftUI updates"
                "article" None None ]) ].

Definition element (classes link text : string) : Search.ResultElement :=
  Search.mkElement (Some classes) ("  " +:+ text +:+ " ") (Some link)
                    "A description." ["Swift "; " "] (text +:+ " Beta").

Definition resultPage : list Search.ResultElement :=
  [ element "search-result documentation" "/documentation/swiftui/view" "View";
    element "search-result video" "/videos/play/wwdc2024/10144" "What's new";
    element " sample_code search-result" "/documentation/swiftui/landmarks.zip"
            "Landmarks";
    element "search-result sample_code"
            "https://developer.apple.com/documentation/swiftui/food-truck" "Food Truck";
    element "search-result documentation" "/documentation/uikit/uiview" "UIView" ].

(** A platform whose collation ignores the control character U+0001, as
    the root collation of ICU does: ["a"] and ["a" ++ U+0001] tie. *)
Fixpoint withoutIgnorable (s : string) : string :=
  match s with
  | EmptyString => EmptyString
  | String c r =>
      if Ascii.eqb c "001" then withoutIgnorable r
      else String c (withoutIgnorable r)
  end.

Definition tying : Platform :=
  mkPlatform (fun _ _ => (Responded okResponse, 10))
             (fun a b => String.compare (withoutIgnorable a) (withoutIgnorable b))
             parseHttpsUrl (fun s => Normal s) (fun _ => true).

End Examples.

(** * Properties *)

Import JS Spec Examples.

(** ** The symbol walker *)

Section IndexItemInduction.
Variable Q : Symbols.IndexItem -> Prop.
Hypothesis step :
  forall item,
    (forall cs, Symbols.children item = Some cs -> Forall Q cs) -> Q item.

Lemma children_all (kids : option (list Symbols.IndexItem)) :
  match kids with Some l => Forall Q l | None => True end ->
  forall cs, kids = Some cs -> Forall Q cs.
Proof. intros H cs E. subst kids. exact H. Qed.

Fixpoint IndexItem_nested_ind (item : Symbols.IndexItem) : Q item :=
  step item
    (match item as i
           return forall cs, Symbols.children i = Some cs -> Forall Q cs with
     | Symbols.mkIndexItem _ _ _ _ _ _ kids =>
         children_all kids
           (match kids as k
                  return match k with Some l => Forall Q l | None => True end with
            | None => I
            | Some l =>
                (fix all (l : list Symbols.IndexItem) : Forall Q l :=
                   match l with
                   | [] => @List.Forall_nil _ Q
                   | x :: r =>
                       @List.Forall_cons _ Q x r (IndexItem_nested_ind x) (all r)
                   end) l
            end)
     end).
End IndexItemInduction.

Section WalkerFacts.
Import Spec.
Variable symbolType : string.
Variable namePattern : option string.
Variable limit : Z.

#[local] Notation "'step'" := (Symbols.findSymbolsStep symbolType namePattern limit).
#[local] Notation "'sel'" := (Symbols.selected symbolType namePattern).
#[local] Notation "'under'" := (Spec.matchesUnder symbolType namePattern).
#[local] Notation "'room'" := (Spec.room limit).
#[local] Notation "'walks'" := (Spec.walks limit).

Lemma findSymbolsStep_eq depth item symbols :
  step depth item symbols =
    if len symbols >=? limit then (true, symbols) else
    let symbols := if sel item then symbols ++ [item] else symbols in
    match Symbols.children item with
    | Some cs =>
        if len symbols <? limit then
          if depth + 1 >? 6 then (false, symbols)
          else forOf (step (depth + 1)) cs symbols
        else (false, symbols)
    | None => (false, symbols)
    end.
Proof. destruct item; reflexivity. Qed.

Lemma matchesUnder_eq depth item :
  under depth item =
    (if sel item then [item] else [])
    ++ match Symbols.children item with
       | Some cs =>
           if depth + 1 >? 6 then [] else flat_map (under (depth + 1)) cs
       | None => []
       end.
Proof. destruct item; reflexivity. Qed.

Lemma len_app {A} (l k : list A) : len (l ++ k) = len l + len k.
Proof. unfold len. rewrite List.length_app. lia. Qed.

Lemma len_take_room (symbols found : list Symbols.IndexItem) :
  len (symbols ++ take (room symbols) found) =
    len symbols + Z.min (Z.max 0 (limit - len symbols)) (len found).
Proof.
  rewrite len_app. unfold len, Spec.room. rewrite length_take. unfold len. lia.
Qed.

Lemma forOf_walks (f : Symbols.IndexItem -> _) found items :
  Forall (walks f found) items ->
  walks (forOf f) (flat_map found) items.
Proof.
  induction 1 as [|x rest Hx _ IH]; intros symbols; simpl.
  - rewrite take_nil, app_nil_r. split; [done|discriminate].
  - destruct (Hx symbols) as [Hs Hb].
    destruct (f x symbols) as [stop s1] eqn:E; simpl in *.
    assert (Hl : len s1 = len symbols
                          + Z.min (Z.max 0 (limit - len symbols)) (len (found x))).
    { rewrite Hs. apply len_take_room. }
    rewrite take_app.
    destruct stop.
    + simpl. specialize (Hb eq_refl). split; [|done].
      rewrite Hs. f_equal.
      replace (room symbols - List.length (found x))%nat with 0%nat
        by (unfold Spec.room, len in *; lia).
      by rewrite take_0, app_nil_r.
    + destruct (IH s1) as [Hs' Hb'].
      split; [|done].
      rewrite Hs', Hs, <- app_assoc. do 2 f_equal.
      rewrite <- Hs. f_equal.
      unfold Spec.room, len in *. lia.
Qed.

Lemma findSymbolsStep_walks depth item : walks (step depth) (under depth) item.
Proof.
  revert depth. induction item as [item IH] using IndexItem_nested_ind.
  intros depth symbols.
  rewrite findSymbolsStep_eq, matchesUnder_eq.
  destruct (len symbols >=? limit) eqn:Hfull.
  { simpl. replace (room symbols) with 0%nat by (unfold Spec.room; lia).
    rewrite take_0, app_nil_r. split; [done|lia]. }
  assert (Hroom : (1 <= room symbols)%nat) by (unfold Spec.room; lia).
  set (hit := if sel item then [item] else []).
  assert (Hpush : (if sel item then symbols ++ [item] else symbols) = symbols ++ hit).
  { unfold hit. destruct (sel item); [done|by rewrite app_nil_r]. }
  assert (Hhit : (List.length hit <= 1)%nat) by (unfold hit; destruct (sel item); simpl; lia).
  cbv zeta. rewrite Hpush.
  assert (Hlen : len (symbols ++ hit) = len symbols + Z.of_nat (List.length hit))
    by (rewrite len_app; done).
  rewrite take_app, (take_ge hit) by lia.
  destruct (Symbols.children item) as [cs|] eqn:Hcs.
  2:{ simpl. rewrite take_nil, app_nil_r. split; [done|discriminate]. }
  destruct (len (symbols ++ hit) <? limit) eqn:Hmore.
  2:{ simpl. split; [|discriminate].
      replace (room symbols - List.length hit)%nat with 0%nat
        by (unfold Spec.room; lia).
      by rewrite take_0, app_nil_r. }
  destruct (depth + 1 >? 6) eqn:Hdeep.
  { simpl. rewrite take_nil, app_nil_r. split; [done|discriminate]. }
  pose proof (forOf_walks (step (depth + 1)) (under (depth + 1)) cs) as Hkids.
  destruct (Hkids (Forall_impl _ _ _ (IH cs eq_refl) (fun x H => H (depth + 1)))
                  (symbols ++ hit)) as [Hs Hb].
  split; [|done].
  rewrite Hs, <- app_assoc. do 3 f_equal.
  unfold Spec.room. rewrite Hlen. lia.
Qed.

Lemma findSymbolsRecursive_walks depth items :
  walks (fun items symbols =>
           Symbols.findSymbolsRecursive symbolType namePattern limit items symbols depth)
        (fun items => Spec.allMatches symbolType namePattern items depth) items.
Proof.
  intros symbols. unfold Symbols.findSymbolsRecursive, Spec.allMatches.
  destruct (depth >? 6).
  - simpl. rewrite take_nil, app_nil_r. split; [done|discriminate].
  - apply forOf_walks. apply Forall_forall. intros x _.
    apply findSymbolsStep_walks.
Qed.
End WalkerFacts.

(** The shape of the source function: the loop on a non-empty list. *)
Lemma findSymbolsRecursive_unfold symbolType namePattern limit item rest symbols depth :
  Symbols.findSymbolsRecursive symbolType namePattern limit (item :: rest) symbols depth =
    if depth >? 6 then (false, symbols)
    else if len symbols >=? limit then (true, symbols)
    else
      let symbols1 :=
        if Symbols.selected symbolType namePattern item
        then symbols ++ [item] else symbols in
      let continue s :=
        Symbols.findSymbolsRecursive symbolType namePattern limit rest s depth in
      match Symbols.children item with
      | Some cs =>
          if len symbols1 <? limit then
            let '(stop, symbols2) :=
              Symbols.findSymbolsRecursive symbolType namePattern limit cs
                                           symbols1 (depth + 1) in
            if stop then (true, symbols2) else continue symbols2
          else continue symbols1
      | None => continue symbols1
      end.
Proof.
  unfold Symbols.findSymbolsRecursive.
  destruct (depth >? 6) eqn:Hd; [done|].
  simpl forOf. rewrite findSymbolsStep_eq.
  destruct (len symbols >=? limit); [done|].
  cbv zeta.
  destruct (Symbols.children item) as [cs|]; [|done].
  destruct (len _ <? limit); [|done].
  destruct (depth + 1 >? 6); done.
Qed.

Lemma selected_matchesUnder symbolType namePattern item :
  forall depth,
    Forall (fun it => Symbols.selected symbolType namePattern it = true)
           (Spec.matchesUnder symbolType namePattern depth item).
Proof.
  induction item as [item IH] using IndexItem_nested_ind. intros depth.
  rewrite matchesUnder_eq. apply Forall_app. split.
  - destruct (Symbols.selected symbolType namePattern item) eqn:E; auto.
  - destruct (Symbols.children item) as [cs|]; [|done].
    destruct (depth + 1 >? 6); [done|].
    specialize (IH cs eq_refl). induction IH as [|x r Hx _ IHr]; simpl; [done|].
    apply Forall_app. split; [apply Hx|apply IHr].
Qed.

Lemma selected_allMatches symbolType namePattern items depth :
  Forall (fun it => Symbols.selected symbolType namePattern it = true)
         (Spec.allMatches symbolType namePattern items depth).
Proof.
  unfold Spec.allMatches. destruct (depth >? 6); [done|].
  induction items as [|x r IH]; simpl; [done|].
  apply Forall_app. split; [apply selected_matchesUnder|apply IH].
Qed.

(** C6: the short-circuiting walk collects exactly the first [limit]
    matches, in depth-first pre-order document order, of the exhaustive
    walk; and the exhaustive walk is what the same function collects when
    the limit is the number of all matches, so that it never cuts. *)
Theorem findSymbolsRecursive_limit_is_truncation
    symbolType namePattern limit items :
  snd (Symbols.findSymbolsRecursive symbolType namePattern limit items [] 0)
    = take (Z.to_nat limit) (Spec.allMatches symbolType namePattern items 0)
  /\ snd (Symbols.findSymbolsRecursive symbolType namePattern
            (len (Spec.allMatches symbolType namePattern items 0)) items [] 0)
     = Spec.allMatches symbolType namePattern items 0.
Proof.
  split.
  - destruct (findSymbolsRecursive_walks symbolType namePattern limit 0 items [])
      as [H _].
    rewrite H. simpl. unfold Spec.room, len. simpl. by rewrite Z.sub_0_r.
  - set (all := Spec.allMatches symbolType namePattern items 0).
    destruct (findSymbolsRecursive_walks symbolType namePattern (len all) 0 items [])
      as [H _].
    fold all in H. rewrite H. simpl. apply take_ge.
    unfold Spec.room, len. simpl. lia.
Qed.

(** The walker on small trees: the filter, the limit and the depth bound. *)
Example findSymbolsRecursive_examples :
  map Symbols.title
      (snd (Symbols.findSymbolsRecursive "class" None 50 threeClasses [] 0))
  = ["View"; "NavigationView"; "Button"]
  /\ map Symbols.title
       (snd (Symbols.findSymbolsRecursive "class" None 2 threeClasses [] 0))
     = ["View"; "NavigationView"]
  /\ map Symbols.title
       (snd (Symbols.findSymbolsRecursive "class" (Some "*View") 50 threeClasses [] 0))
     = ["View"; "NavigationView"]
  /\ map Symbols.title
       (snd (Symbols.findSymbolsRecursive "all" None 3 threeClasses [] 0))
     = ["Views"; "View"; "Text"]
  /\ snd (Symbols.findSymbolsRecursive "class" None 50
            [chain 8 (leaf "Deep" "class")] [] 0) = []
  /\ map Symbols.title
       (snd (Symbols.findSymbolsRecursive "class" None 50
               [chain 6 (leaf "Deep" "class")] [] 0))
     = ["Deep"].
Proof. by vm_compute. Qed.

(** ** The sample-code walker *)

Section NodeInduction.
Variable Q : Samples.SampleCodeIndexNode -> Prop.
Hypothesis step :
  forall node,
    (forall cs, Samples.children node = Some cs -> Forall Q cs) -> Q node.

Lemma node_children_all (kids : option (list Samples.SampleCodeIndexNode)) :
  match kids with Some l => Forall Q l | None => True end ->
  forall cs, kids = Some cs -> Forall Q cs.
Proof. intros H cs E. subst kids. exact H. Qed.

Fixpoint Node_nested_ind (node : Samples.SampleCodeIndexNode) : Q node :=
  step node
    (match node as n
           return forall cs, Samples.children n = Some cs -> Forall Q cs with
     | Samples.mkNode _ _ _ kids _ _ =>
         node_children_all kids
           (match kids as k
                  return match k with Some l => Forall Q l | None => True end with
            | None => I
            | Some l =>
                (fix all (l : list Samples.SampleCodeIndexNode) : Forall Q l :=
                   match l with
                   | [] => @List.Forall_nil _ Q
                   | x :: r =>
                       @List.Forall_cons _ Q x r (Node_nested_ind x) (all r)
                   end) l
            end)
     end).
End NodeInduction.

Section SampleWalkerFacts.
Variable normalizeFramework : string -> string.
Variable frameworkMap : gmap string string.
Variable featuredIds : gset string.

#[local] Notation "'visit'" :=
  (Samples.processSampleCodeNode normalizeFramework frameworkMap featuredIds).

Lemma processSampleCodeNode_eq currentFramework depth sampleCodes node :
  visit currentFramework depth sampleCodes node =
    if String.eqb (Samples.type node) "groupMarker" then
      match Samples.children node with
      | Some cs =>
          fold_left (visit (normalizeFramework (Samples.title node)) (depth + 1))
                    cs sampleCodes
      | None => sampleCodes
      end
    else
      match (if String.eqb (Samples.type node) "sampleCode"
             then Samples.path node else None) with
      | Some (String c p as nodePath) =>
          let docUrl := "doc://com.apple.documentation" +:+ nodePath in
          sampleCodes ++
            [ Samples.mkSample (Samples.title node)
                (orElse
                   (Some (normalizeFramework
                      (from_option id ""
                         (orElse
                            (orElse
                               (Samples.extractFrameworkFromPath
                                  normalizeFramework nodePath)
                               (frameworkMap !! docUrl))
                            (Some currentFramework)))))
                   None)
                None
                (from_option id false (Samples.beta node))
                (bool_decide (docUrl ∈ featuredIds))
                ("https://developer.apple.com" +:+ nodePath)
                nodePath depth ]
      | _ =>
          match Samples.children node with
          | Some cs => fold_left (visit currentFramework (depth + 1)) cs sampleCodes
          | None => sampleCodes
          end
      end.
Proof. destruct node; reflexivity. Qed.

Lemma inTree_weaken n l l' :
  (forall x, In x l -> In x l') -> Spec.inTree n l -> Spec.inTree n l'.
Proof.
  intros Hsub H. destruct H as [n l H | n m cs l Hm Hcs H].
  - apply Spec.inTree_here. auto.
  - eapply Spec.inTree_below; eauto.
Qed.

Lemma fold_pushesOnlySamples
    (f : list Samples.ParsedSampleCode -> Samples.SampleCodeIndexNode -> _) nodes :
  Forall (Spec.pushesOnlySamples (fun n acc => f acc n) (fun n => [n])) nodes ->
  Spec.pushesOnlySamples (fold_left f) (fun l => l) nodes.
Proof.
  induction 1 as [|x rest Hx _ IH]; intros sampleCodes; simpl.
  - exists [], []. rewrite app_nil_r. repeat split; constructor.
  - destruct (Hx sampleCodes) as (o1 & p1 & E1 & R1 & T1).
    destruct (IH (f sampleCodes x)) as (o2 & p2 & E2 & R2 & T2).
    exists (o1 ++ o2), (p1 ++ p2). split; [|split].
    + rewrite E2, E1. by rewrite app_assoc.
    + by apply Forall2_app.
    + apply Forall_app. split.
      * eapply Forall_impl; [exact T1|]. intros n Hn.
        eapply inTree_weaken; [|exact Hn]. simpl. intros y [->|[]]. by left.
      * eapply Forall_impl; [exact T2|]. intros n Hn.
        eapply inTree_weaken; [|exact Hn]. simpl. auto.
Qed.

Lemma children_pushesOnlySamples fw depth node cs :
  Samples.children node = Some cs ->
  Spec.pushesOnlySamples (fold_left (visit fw depth)) (fun l => l) cs ->
  forall sampleCodes,
    exists origins pushed,
      fold_left (visit fw depth) cs sampleCodes = sampleCodes ++ pushed
      /\ Forall2 Spec.builtFrom origins pushed
      /\ Forall (fun n => Spec.inTree n [node]) origins.
Proof.
  intros Hcs H sampleCodes.
  destruct (H sampleCodes) as (o & p & E & R & T).
  exists o, p. repeat split; try done.
  eapply Forall_impl; [exact T|]. intros n Hn.
  eapply Spec.inTree_below; [by left|exact Hcs|exact Hn].
Qed.

Lemma processSampleCodeNode_pushesOnlySamples node :
  forall fw depth,
    Spec.pushesOnlySamples (fun n acc => visit fw depth acc n) (fun n => [n]) node.
Proof.
  induction node as [node IH] using Node_nested_ind.
  intros fw depth sampleCodes. cbv beta. rewrite processSampleCodeNode_eq.
  assert (Hnone : exists origins pushed,
             sampleCodes = sampleCodes ++ pushed
             /\ Forall2 Spec.builtFrom origins pushed
             /\ Forall (fun n => Spec.inTree n [node]) origins).
  { exists [], []. rewrite app_nil_r. repeat split; constructor. }
  assert (Hkids : forall fw' cs, Samples.children node = Some cs ->
             exists origins pushed,
               fold_left (visit fw' (depth + 1)) cs sampleCodes = sampleCodes ++ pushed
               /\ Forall2 Spec.builtFrom origins pushed
               /\ Forall (fun n => Spec.inTree n [node]) origins).
  { intros fw' cs Hcs. eapply children_pushesOnlySamples; [exact Hcs|].
    apply fold_pushesOnlySamples.
    eapply Forall_impl; [exact (IH cs Hcs)|]. intros x Hx. apply Hx. }
  destruct (String.eqb (Samples.type node) "groupMarker").
  { destruct (Samples.children node) as [cs|]; [by apply Hkids|exact Hnone]. }
  destruct (String.eqb (Samples.type node) "sampleCode") eqn:Hty.
  2:{ destruct (Samples.children node) as [cs|]; [by apply Hkids|exact Hnone]. }
  destruct (Samples.path node) as [[|c p]|] eqn:Hpath.
  1,3: destruct (Samples.children node) as [cs|]; [by apply Hkids|exact Hnone].
  eexists [node], [_]. split; [reflexivity|]. split.
  - constructor; [|constructor]. unfold Spec.builtFrom. simpl.
    apply String.eqb_eq in Hty. auto.
  - constructor; [|constructor]. apply Spec.inTree_here. by left.
Qed.

Lemma processSampleCodeNodes_pushesOnlySamples nodes fw depth sampleCodes :
  exists origins pushed,
    Samples.processSampleCodeNodes normalizeFramework frameworkMap featuredIds
      nodes sampleCodes fw depth = sampleCodes ++ pushed
    /\ Forall2 Spec.builtFrom origins pushed
    /\ Forall (fun n => Spec.inTree n nodes) origins.
Proof.
  unfold Samples.processSampleCodeNodes.
  apply (fold_pushesOnlySamples (visit fw depth) nodes).
  apply Forall_forall. intros x _. apply processSampleCodeNode_pushesOnlySamples.
Qed.
End SampleWalkerFacts.

(** The sample walker: the grouping node gives the framework, only the
    sample is pushed. *)
Example processSampleCodeNodes_example :
  Samples.processSampleCodeNodes (fun s => s) ∅ ∅ sampleIndex [] "" 0
  = [ Samples.mkSample "Landmarks" (Some "swiftui") None true false
        "https://developer.apple.com/documentation/swiftui/landmarks"
        "/documentation/swiftui/landmarks" 1 ].
Proof. by vm_compute. Qed.

(** C1, as stated, fails on [findSymbolsRecursive]: with the filter ['all']
    the grouping node itself is collected. *)
Lemma findSymbolsRecursive_collects_groupMarker :
  ~ (forall symbolType namePattern limit items,
       Forall (fun it => Symbols.type it <> "groupMarker")
         (snd (Symbols.findSymbolsRecursive symbolType namePattern limit items [] 0))).
Proof.
  intros H. specialize (H "all" None 50 Examples.sampleTree).
  vm_compute in H. inversion H as [|x l Hx Hl]. by apply Hx.
Qed.

(** C1, amended: [findSymbolsRecursive] collects no grouping node when the
    type filter is neither ['all'] nor ['groupMarker']; every record that
    [processSampleCodeNodes] pushes is built from a node of the tree whose
    type is ["sampleCode"], so never from a grouping node; and on a grouping
    node the walker only recurses into the children, with the normalised
    title as the current framework. *)
Theorem groupMarker_nodes_are_not_results
    symbolType namePattern limit items
    normalizeFramework frameworkMap featuredIds nodes sampleCodes fw depth :
  symbolType <> "all" ->
  symbolType <> "groupMarker" ->
  Forall (fun it => Symbols.type it <> "groupMarker")
    (snd (Symbols.findSymbolsRecursive symbolType namePattern limit items [] 0))
  /\ (exists origins pushed,
        Samples.processSampleCodeNodes normalizeFramework frameworkMap featuredIds
          nodes sampleCodes fw depth = sampleCodes ++ pushed
        /\ Forall2 Spec.builtFrom origins pushed
        /\ Forall (fun n => Spec.inTree n nodes) origins)
  /\ (forall node,
        Samples.type node = "groupMarker" ->
        Samples.processSampleCodeNode normalizeFramework frameworkMap featuredIds
          fw depth sampleCodes node
        = Samples.processSampleCodeNodes normalizeFramework frameworkMap featuredIds
            (from_option id [] (Samples.children node)) sampleCodes
            (normalizeFramework (Samples.title node)) (depth + 1)).
Proof.
  intros Hall Hgroup. split; [|split].
  - destruct (findSymbolsRecursive_walks symbolType namePattern limit 0 items [])
      as [H _].
    rewrite H. simpl.
    apply Forall_take.
    eapply Forall_impl; [apply selected_allMatches|].
    intros it Hsel Hty. unfold Symbols.selected in Hsel.
    apply andb_prop in Hsel as [Hsel _]. apply orb_prop in Hsel as [Hsel|Hsel].
    + apply String.eqb_eq in Hsel. contradiction.
    + apply String.eqb_eq in Hsel. congruence.
  - apply processSampleCodeNodes_pushesOnlySamples.
  - intros node Hty. rewrite processSampleCodeNode_eq, Hty. simpl.
    unfold Samples.processSampleCodeNodes.
    by destruct (Samples.children node).
Qed.

Lemma groupMarker_nodes_are_not_results_witness :
  Forall (fun it => Symbols.type it <> "groupMarker")
    (snd (Symbols.findSymbolsRecursive "class" None 50 Examples.sampleTree [] 0)).
Proof.
  apply (groupMarker_nodes_are_not_results "class" None 50 Examples.sampleTree
           (fun s => s) ∅ ∅ [] [] "" 0).
  - discriminate.
  - discriminate.
Defined.

(** ** Wildcard patterns *)















Lemma list_ascii_of_string_app a b :
  list_ascii_of_string (a +:+ b) = list_ascii_of_string a ++ list_ascii_of_string b.
Proof. induction a as [|c a IH]; simpl; [done|by rewrite IH]. Qed.








(** ** Cache keys *)

Section KeyFacts.
Variable P : Platform.
Hypothesis order : WeakOrder (localeCompare P).

#[local] Notation "'lt'" := (before (localeCompare P)).

Lemma insertEntry_perm e l : Cache.insertEntry P e l ≡ₚ e :: l.
Proof.
  induction l as [|x r IH]; simpl; [done|].
  destruct (localeCompare P e.1 x.1); try done.
  rewrite IH. apply perm_swap.
Qed.

Lemma sortEntries_perm l : Cache.sortEntries P l ≡ₚ l.
Proof.
  induction l as [|x r IH]; simpl; [done|].
  rewrite insertEntry_perm. by rewrite IH.
Qed.

Lemma insertEntry_sorted e l :
  StronglySorted lt l ->
  Forall (fun x => localeCompare P (fst e) (fst x) <> Eq) l ->
  StronglySorted lt (Cache.insertEntry P e l).
Proof.
  induction 1 as [|x r Hr IH Hx]; intros Hne; simpl.
  - repeat constructor.
  - apply Forall_cons in Hne as [Hxe Hne].
    destruct (localeCompare P e.1 x.1) eqn:E.
    + done.
    + constructor; [by constructor|]. constructor; [exact E|].
      eapply Forall_impl; [exact Hx|]. intros y Hy.
      eapply order_trans; eauto.
    + constructor; [by apply IH|].
      rewrite insertEntry_perm. constructor; [|done].
      unfold before. rewrite (order_antisym _ order), E. done.
Qed.

Lemma sortEntries_sorted l :
  NoDup (map fst l) -> tieFree (localeCompare P) (map fst l) ->
  StronglySorted lt (Cache.sortEntries P l).
Proof.
  induction l as [|x r IH]; simpl; intros Hnd Htie; [constructor|].
  apply NoDup_cons in Hnd as [Hx Hnd].
  apply insertEntry_sorted.
  - apply IH; [done|]. intros a b Ha Hb. apply Htie; by right.
  - rewrite sortEntries_perm. apply Forall_forall. intros y Hy E.
    apply Hx. rewrite (Htie x.1 y.1); [|by left| |done].
    + apply list_elem_of_fmap. eauto.
    + right. apply list_elem_of_fmap. eauto.
Qed.

Lemma tieFree_perm (names names' : list string) :
  names ≡ₚ names' -> tieFree (localeCompare P) names ->
  tieFree (localeCompare P) names'.
Proof. intros Hp H a b Ha Hb. apply H; by rewrite Hp. Qed.

Lemma sortEntries_unique l1 l2 :
  NoDup (map fst l1) -> tieFree (localeCompare P) (map fst l1) -> l1 ≡ₚ l2 ->
  Cache.sortEntries P l1 = Cache.sortEntries P l2.
Proof.
  intros Hnd Htie Hperm.
  apply (StronglySorted_unique_strong lt).
  - intros x y _ _ H1 H2. unfold before in *.
    rewrite (order_antisym _ order), H2 in H1. discriminate.
  - by apply sortEntries_sorted.
  - apply sortEntries_sorted; [by rewrite <- Hperm|].
    eapply tieFree_perm; [|exact Htie]. by rewrite Hperm.
  - by rewrite !sortEntries_perm.
Qed.

Lemma makeCacheKey_eq prefix params :
  Cache.makeCacheKey P prefix params =
    prefix +:+ ":" +:+
    Cache.joinStrings "," (map part (Cache.sortEntries P (filter defined params))).
Proof.
  unfold Cache.makeCacheKey. do 3 f_equal.
  apply map_ext. by intros [k v].
Qed.

Lemma NoDup_keys_filter (params : list (string * Value)) :
  NoDup (map fst params) -> NoDup (map fst (filter defined params)).
Proof.
  induction params as [|x r IH]; simpl; intros Hnd; [constructor|].
  apply NoDup_cons in Hnd as [Hx Hnd].
  rewrite filter_cons. destruct (decide (defined x)); [|by apply IH].
  simpl. apply NoDup_cons. split; [|by apply IH].
  intros Hin. apply Hx. apply list_elem_of_fmap in Hin as (y & -> & Hy).
  apply list_elem_of_fmap. exists y. split; [done|].
  by apply list_elem_of_filter in Hy as [_ Hy].
Qed.

Lemma makeCacheKey_perm prefix params1 params2 :
  NoDup (map fst params1) ->
  tieFree (localeCompare P) (map fst (filter defined params1)) ->
  filter defined params1 ≡ₚ filter defined params2 ->
  Cache.makeCacheKey P prefix params1 = Cache.makeCacheKey P prefix params2.
Proof.
  intros Hnd Htie Hperm. rewrite !makeCacheKey_eq. do 4 f_equal.
  apply sortEntries_unique; [by apply NoDup_keys_filter|done..].
Qed.
End KeyFacts.

Lemma Collation_WeakOrder cmp : Collation cmp -> WeakOrder cmp.
Proof. intros [H1 _ H3]. by split. Qed.

Lemma Collation_tieFree cmp names : Collation cmp -> tieFree cmp names.
Proof. intros [_ H2 _] a b _ _. apply H2. Qed.


Lemma compare_Collation : Collation String.compare.
Proof.
  split.
  - apply String.compare_antisym.
  - intros a b. apply String.compare_eq_iff.
  - intros a b c H1 H2.
    apply String_as_OT.cmp_lt. apply String_as_OT.cmp_lt in H1, H2.
    eapply String_as_OT.lt_trans; eauto.
Qed.

Lemma withoutIgnorable_WeakOrder : WeakOrder (localeCompare tying).
Proof.
  split; simpl.
  - intros a b. apply String.compare_antisym.
  - intros a b c. apply (collation_trans _ compare_Collation).
Qed.

(** The cases of the repository's tests of [makeCacheKey]. *)
Example makeCacheKey_tests :
  Cache.makeCacheKey offline "test" [("b", VStr "2"); ("a", VStr "1")]
  = Cache.makeCacheKey offline "test" [("a", VStr "1"); ("b", VStr "2")]
  /\ Cache.makeCacheKey offline "test"
       [("a", VStr "1"); ("b", VUndefined); ("c", VStr "3")] = "test:a=1,c=3"
  /\ Cache.makeCacheKey offline "search" [("query", VStr "swift"); ("type", VStr "doc")]
     = "search:query=swift,type=doc"
  /\ Cache.makeCacheKey offline "symbols"
       [("framework", VStr "swiftui"); ("namePattern", VUndefined);
        ("limit", VNum 50); ("beta", VBool true)]
     = "symbols:beta=true,framework=swiftui,limit=50".
Proof. by vm_compute. Qed.

(** C5 as stated fails: the names are sorted with [localeCompare], under
    which two different names can tie, and the stable sort then leaves
    tied names in the order of enumeration.  Here the collation ignores
    the control character U+0001; the two enumerations of the same two
    parameters give two keys. *)
Lemma makeCacheKey_depends_on_order_of_tied_names :
  WeakOrder (localeCompare tying)
  /\ NoDup (map fst [("a", VStr "1"); (String "a" (String "001" ""), VStr "2")])
  /\ [("a", VStr "1"); (String "a" (String "001" ""), VStr "2")]
     ≡ₚ [(String "a" (String "001" ""), VStr "2"); ("a", VStr "1")]
  /\ Cache.makeCacheKey tying "p"
       [("a", VStr "1"); (String "a" (String "001" ""), VStr "2")]
     = "p:a=1,a" +:+ String "001" "=2"
  /\ Cache.makeCacheKey tying "p"
       [(String "a" (String "001" ""), VStr "2"); ("a", VStr "1")]
     = "p:a" +:+ String "001" "=2,a=1"
  /\ Cache.makeCacheKey tying "p"
       [("a", VStr "1"); (String "a" (String "001" ""), VStr "2")]
     <> Cache.makeCacheKey tying "p"
          [(String "a" (String "001" ""), VStr "2"); ("a", VStr "1")].
Proof.
  split; [apply withoutIgnorable_WeakOrder|].
  split. { apply NoDup_ListNoDup. repeat constructor; simpl; intuition discriminate. }
  split; [apply perm_swap|].
  split; [by vm_compute|]. split; [by vm_compute|].
  by vm_compute.
Qed.

(** C5, amended: when no two defined parameter names tie under
    [localeCompare], the key does not depend on the order in which the
    parameters are enumerated, its parts are the defined parameters
    sorted by name, and a parameter whose value is [undefined] leaves no
    trace in it. *)
Theorem makeCacheKey_deterministic P prefix (params : list (string * Value)) :
  WeakOrder (localeCompare P) ->
  NoDup (map fst params) ->
  tieFree (localeCompare P) (map fst (filter defined params)) ->
  (forall params', params ≡ₚ params' ->
     Cache.makeCacheKey P prefix params = Cache.makeCacheKey P prefix params')
  /\ (exists entries,
        entries ≡ₚ filter defined params
        /\ StronglySorted (before (localeCompare P)) entries
        /\ Cache.makeCacheKey P prefix params
           = prefix +:+ ":" +:+ Cache.joinStrings "," (map part entries))
  /\ (forall l1 k l2,
        params = l1 ++ (k, VUndefined) :: l2 ->
        Cache.makeCacheKey P prefix params = Cache.makeCacheKey P prefix (l1 ++ l2)).
Proof.
  intros Hc Hnd Htie. split; [|split].
  - intros params' Hperm. apply makeCacheKey_perm; [done..|].
    by rewrite Hperm.
  - exists (Cache.sortEntries P (filter defined params)). split; [|split].
    + apply sortEntries_perm.
    + apply sortEntries_sorted; [done| |done]. by apply NoDup_keys_filter.
    + apply makeCacheKey_eq.
  - intros l1 k l2 ->. rewrite !makeCacheKey_eq.
    rewrite !filter_app, filter_cons. simpl.
    destruct (decide (defined (k, VUndefined))) as [Hd|_]; [discriminate Hd|done].
Qed.

Lemma makeCacheKey_deterministic_witness :
  Cache.makeCacheKey offline "search" [("query", VStr "swift"); ("type", VStr "doc")]
  = Cache.makeCacheKey offline "search" [("type", VStr "doc"); ("query", VStr "swift")].
Proof.
  apply (makeCacheKey_deterministic offline "search"
           [("query", VStr "swift"); ("type", VStr "doc")]).
  - exact (Collation_WeakOrder _ compare_Collation).
  - apply NoDup_ListNoDup. vm_compute. repeat constructor; simpl; intuition discriminate.
  - exact (Collation_tieFree _ _ compare_Collation).
  - apply perm_swap.
Defined.

(** C10: the key is not injective on defined parameter values.  Where
    ["a"] sorts before ["b"], the one-parameter map [{a: "1,b=2"}] and the
    two-parameter map [{a: "1", b: "2"}] get the same key; and under any
    collation the maps [{a: "b=c"}] and [{"a=b": "c"}] do. *)
Theorem makeCacheKey_collision P prefix :
  (localeCompare P "a" "b" = Lt ->
   Cache.makeCacheKey P prefix [("a", VStr "1,b=2")]
   = Cache.makeCacheKey P prefix [("a", VStr "1"); ("b", VStr "2")])
  /\ Cache.makeCacheKey P prefix [("a", VStr "1,b=2")] = prefix +:+ ":a=1,b=2"
  /\ [("a", VStr "1,b=2")] <> [("a", VStr "1"); ("b", VStr "2")]
  /\ Cache.makeCacheKey P prefix [("a", VStr "b=c")]
     = Cache.makeCacheKey P prefix [("a=b", VStr "c")]
  /\ [("a", VStr "b=c")] <> [("a=b", VStr "c")].
Proof.
  split; [|repeat split; try discriminate].
  intros Hab. unfold Cache.makeCacheKey. simpl. by rewrite Hab.
Qed.

Lemma makeCacheKey_collision_witness :
  Cache.makeCacheKey offline "symbols" [("a", VStr "1,b=2")]
  = Cache.makeCacheKey offline "symbols" [("a", VStr "1"); ("b", VStr "2")].
Proof.
  apply (proj1 (makeCacheKey_collision offline "symbols")). reflexivity.
Defined.

(** ** The cache *)

Lemma cacheGet_hit key w e :
  store w !! key = Some e -> now w <= expiresAt e ->
  Cache.cacheGet key w = (value e, w).
Proof.
  intros Hk Hfresh. unfold Cache.cacheGet. rewrite Hk.
  destruct (now w >? expiresAt e) eqn:E; [lia|done].
Qed.

Lemma cacheGet_miss key w :
  (store w !! key = None
   \/ exists e, store w !! key = Some e
                /\ (expiresAt e < now w \/ value e = VUndefined)) ->
  fst (Cache.cacheGet key w) = VUndefined
  /\ producerCalls (snd (Cache.cacheGet key w)) = producerCalls w.
Proof.
  unfold Cache.cacheGet. intros [Hk|(e & Hk & He)]; rewrite Hk; [done|].
  destruct (now w >? expiresAt e) eqn:E; [done|].
  destruct He as [He|He]; [lia|done].
Qed.

(** The cases of the repository's tests of the cache: a stored value is
    read back, a missing key reads as [undefined], and a value stored with
    a TTL of 1 ms is gone 10 ms later. *)
Example cache_tests :
  fst (Cache.cacheGet "test-get" (Cache.cacheSet "test-get" (VStr "hello") 60000 emptyWorld))
  = VStr "hello"
  /\ fst (Cache.cacheGet "nonexistent-key" emptyWorld) = VUndefined
  /\ fst (Cache.cacheGet "test-ttl"
            (Http.sleep 10 (Cache.cacheSet "test-ttl" (VStr "value") 1 emptyWorld)))
     = VUndefined
  /\ fst (Cache.cacheGetOrSet "test-miss" (ret (VNum 42)) 60000 emptyWorld)
     = Normal (VNum 42)
  /\ Cache.cacheGetOrSet "test-hit" (ret (VStr "fresh")) 60000
       (Cache.cacheSet "test-hit" (VStr "cached") 60000 emptyWorld)
     = (Normal (VStr "cached"),
        Cache.cacheSet "test-hit" (VStr "cached") 60000 emptyWorld).
Proof. by vm_compute. Qed.

(** C4, as stated, fails: an unexpired entry that holds [undefined] cannot
    be told from a missing one, so the producer runs and its result is
    returned instead of the entry's value. *)
Lemma cacheGetOrSet_undefined_entry_invokes_producer :
  ~ (forall key fn ttlMs w e,
       store w !! key = Some e -> now w <= expiresAt e ->
       fst (Cache.cacheGetOrSet key fn ttlMs w) = Normal (value e)
       /\ producerCalls (snd (Cache.cacheGetOrSet key fn ttlMs w)) = producerCalls w).
Proof.
  intros H.
  destruct (H "k" (ret (VStr "fresh")) 60000 undefinedCached
              (mkCacheEntry VUndefined 100)) as [_ Hcalls].
  - reflexivity.
  - simpl. lia.
  - vm_compute in Hcalls. discriminate.
Qed.

(** C4, amended: on an unexpired entry whose value is not [undefined],
    [cacheGetOrSet] returns that value and leaves the world as it is, so
    the producer is not invoked; otherwise (no entry, an expired entry, or
    an entry holding [undefined]) the producer is invoked exactly once,
    and when it returns a value, that value is stored under the key with
    expiry [now + ttl] and returned.  The producer is assumed not to call
    [cacheGetOrSet] itself. *)
Theorem cacheGetOrSet_hit_or_one_invocation key (fn : M Value) ttlMs w :
  (forall w0, producerCalls (snd (fn w0)) = producerCalls w0) ->
  (forall e,
     store w !! key = Some e -> now w <= expiresAt e -> value e <> VUndefined ->
     Cache.cacheGetOrSet key fn ttlMs w = (Normal (value e), w))
  /\ ((store w !! key = None
       \/ exists e, store w !! key = Some e
                    /\ (expiresAt e < now w \/ value e = VUndefined)) ->
      producerCalls (snd (Cache.cacheGetOrSet key fn ttlMs w)) = S (producerCalls w)
      /\ forall v w1,
           Cache.invoke fn (snd (Cache.cacheGet key w)) = (Normal v, w1) ->
           Cache.cacheGetOrSet key fn ttlMs w
             = (Normal v, Cache.cacheSet key v ttlMs w1)
           /\ store (Cache.cacheSet key v ttlMs w1) !! key
              = Some (mkCacheEntry v (now w1 + ttlMs))).
Proof.
  intros Hghost. split.
  - intros e Hk Hfresh Hdef. unfold Cache.cacheGetOrSet.
    rewrite (cacheGet_hit key w e Hk Hfresh).
    destruct (value e); done.
  - intros Hmiss. destruct (cacheGet_miss key w Hmiss) as [Hv Hc].
    unfold Cache.cacheGetOrSet.
    destruct (Cache.cacheGet key w) as [cached w0]. simpl in Hv, Hc. subst cached.
    simpl. split.
    + unfold Cache.invoke.
      pose proof (Hghost (mkWorld (store w0) (now w0) (requests w0)
                                  (S (producerCalls w0)))) as Hfn.
      destruct (fn _) as [[v|e] w1]; simpl in *; congruence.
    + intros v w1 Hrun. rewrite Hrun. split; [done|].
      unfold Cache.cacheSet. simpl. apply lookup_insert_eq.
Qed.

Lemma cacheGetOrSet_hit_or_one_invocation_witness :
  producerCalls (snd (Cache.cacheGetOrSet "k" (ret (VStr "fresh")) 60000 emptyWorld))
  = 1%nat.
Proof.
  apply (cacheGetOrSet_hit_or_one_invocation "k" (ret (VStr "fresh")) 60000 emptyWorld).
  - reflexivity.
  - left. reflexivity.
Defined.

(** ** De-duplication of samples *)

Lemma mapGet_mapSet k v m k' :
  Samples.mapGet k' (Samples.mapSet k v m) =
    if String.eqb k k' then Some v else Samples.mapGet k' m.
Proof.
  induction m as [|[k0 x] r IH]; simpl.
  - done.
  - destruct (String.eqb k0 k) eqn:E0; simpl.
    + apply String.eqb_eq in E0. subst k0. by destruct (String.eqb k k').
    + rewrite IH. destruct (String.eqb k0 k') eqn:E1; [|done].
      apply String.eqb_eq in E1. subst k0. by rewrite String.eqb_sym, E0.
Qed.

Lemma mapGet_elem k v m : Samples.mapGet k m = Some v -> (k, v) ∈ m.
Proof.
  induction m as [|[k0 x] r IH]; simpl; [done|].
  destruct (String.eqb k0 k) eqn:E.
  - apply String.eqb_eq in E. intros [= ->]. subst. by left.
  - intros H. right. by apply IH.
Qed.

Lemma mapGet_None k m : Samples.mapGet k m = None -> k ∉ map fst m.
Proof.
  induction m as [|[k0 x] r IH]; simpl; [intros _; apply not_elem_of_nil|].
  destruct (String.eqb k0 k) eqn:E; [done|].
  intros H. apply not_elem_of_cons. split; [|by apply IH].
  apply String.eqb_neq in E. congruence.
Qed.

Lemma elem_mapGet k v m : NoDup (map fst m) -> (k, v) ∈ m -> Samples.mapGet k m = Some v.
Proof.
  induction m as [|[k0 x] r IH]; simpl; intros Hnd Hin.
  - by apply elem_of_nil in Hin.
  - apply NoDup_cons in Hnd as [Hk0 Hnd].
    apply elem_of_cons in Hin as [[= -> ->]|Hin].
    + by rewrite String.eqb_refl.
    + destruct (String.eqb k0 k) eqn:E; [|by apply IH].
      apply String.eqb_eq in E. subst k0. exfalso. apply Hk0.
      apply list_elem_of_fmap. by exists (k, v).
Qed.

Lemma keys_mapSet k v m :
  map fst (Samples.mapSet k v m) =
    if bool_decide (k ∈ map fst m) then map fst m else map fst m ++ [k].
Proof.
  induction m as [|[k0 x] r IH]; simpl; [done|].
  destruct (String.eqb k0 k) eqn:E; simpl.
  - apply String.eqb_eq in E. subst k0.
    rewrite bool_decide_eq_true_2; [done|by left].
  - rewrite IH. apply String.eqb_neq in E.
    destruct (bool_decide (k ∈ map fst r)) eqn:Hin.
    + apply bool_decide_eq_true_1 in Hin.
      rewrite bool_decide_eq_true_2; [done|by right].
    + apply bool_decide_eq_false_1 in Hin.
      rewrite bool_decide_eq_false_2; [done|].
      intros H. apply elem_of_cons in H as [H|H]; congruence.
Qed.

Lemma NoDup_mapSet k v m : NoDup (map fst m) -> NoDup (map fst (Samples.mapSet k v m)).
Proof.
  intros Hnd. rewrite keys_mapSet.
  destruct (bool_decide (k ∈ map fst m)) eqn:Hin; [done|].
  apply bool_decide_eq_false_1 in Hin.
  apply NoDup_app. repeat split; [done| |apply NoDup_singleton].
  intros x Hx Hx'. apply list_elem_of_singleton in Hx'. by subst.
Qed.

Lemma mergeOf_other k v l c :
  Samples.s_path c <> k -> mergeOf k v l -> mergeOf k v (l ++ [c]).
Proof.
  intros Hne (Hp & Hfw & Hft & Hb & Hle & Hmin).
  assert (Hdup : forall d, (d ∈ l ++ [c] /\ Samples.s_path d = k)
                           <-> (d ∈ l /\ Samples.s_path d = k)).
  { intros d. rewrite elem_of_app, list_elem_of_singleton.
    intuition (subst; try congruence; auto; exfalso; eauto). }
  unfold mergeOf. split; [done|].
  split; [rewrite Hfw; by setoid_rewrite Hdup|].
  split; [rewrite Hft; by setoid_rewrite Hdup|].
  split; [rewrite Hb; by setoid_rewrite Hdup|].
  split; [intros d Hd; apply Hle; by apply Hdup|].
  destruct Hmin as (d & Hd & E). exists d. split; [by apply Hdup|done].
Qed.

Lemma mergeOf_first c l :
  (forall d, d ∈ l -> Samples.s_path d <> Samples.s_path c) ->
  mergeOf (Samples.s_path c) c (l ++ [c]).
Proof.
  intros Hfresh.
  assert (Hdup : forall d, (d ∈ l ++ [c] /\ Samples.s_path d = Samples.s_path c)
                           <-> d = c).
  { intros d. rewrite elem_of_app, list_elem_of_singleton.
    intuition (subst; try congruence; auto; exfalso; eauto). }
  unfold mergeOf. split; [done|]. repeat split.
  - intros H. exists c. split; [by apply Hdup|done].
  - intros (d & Hd & H). apply Hdup in Hd. by subst.
  - intros H. exists c. split; [by apply Hdup|done].
  - intros (d & Hd & H). apply Hdup in Hd. by subst.
  - intros H. exists c. split; [by apply Hdup|done].
  - intros (d & Hd & H). apply Hdup in Hd. by subst.
  - intros d Hd. apply Hdup in Hd. subst. lia.
  - exists c. split; [by apply Hdup|done].
Qed.

Lemma hasFramework_orElse a b t d1 b1 f1 u p z :
  hasFramework (Samples.mkSample t (orElse (Samples.s_framework a) (Samples.s_framework b))
                                 d1 b1 f1 u p z)
  = hasFramework a || hasFramework b.
Proof.
  unfold hasFramework, orElse. simpl.
  destruct (Samples.s_framework a) as [[|? ?]|]; simpl; done.
Qed.

Lemma mergeOf_again c existing l :
  mergeOf (Samples.s_path c) existing l ->
  mergeOf (Samples.s_path c)
    (Samples.mkSample (Samples.s_title existing)
       (orElse (Samples.s_framework c) (Samples.s_framework existing))
       (Samples.s_description existing)
       (Samples.s_beta c || Samples.s_beta existing)
       (Samples.s_featured c || Samples.s_featured existing)
       (Samples.s_url existing)
       (Samples.s_path existing)
       (Z.min (Samples.s_depth c) (Samples.s_depth existing)))
    (l ++ [c]).
Proof.
  intros (Hp & Hfw & Hft & Hb & Hle & Hmin).
  assert (Hdup : forall d, (d ∈ l ++ [c] /\ Samples.s_path d = Samples.s_path c)
                           <-> (d = c \/ (d ∈ l /\ Samples.s_path d = Samples.s_path c))).
  { intros d. rewrite elem_of_app, list_elem_of_singleton.
    intuition (subst; try congruence; auto; exfalso; eauto). }
  unfold mergeOf. split; [done|].
  rewrite hasFramework_orElse. simpl.
  rewrite !orb_true_iff, Hfw, Hft, Hb.
  repeat split.
  - intros [H|(d & Hd & H)]; [exists c|exists d]; (split; [apply Hdup|done]); auto.
  - intros (d & Hd & H). apply Hdup in Hd as [->|Hd]; eauto.
  - intros [H|(d & Hd & H)]; [exists c|exists d]; (split; [apply Hdup|done]); auto.
  - intros (d & Hd & H). apply Hdup in Hd as [->|Hd]; eauto.
  - intros [H|(d & Hd & H)]; [exists c|exists d]; (split; [apply Hdup|done]); auto.
  - intros (d & Hd & H). apply Hdup in Hd as [->|Hd]; eauto.
  - intros d Hd. apply Hdup in Hd as [->|Hd]; [lia|]. specialize (Hle d Hd). lia.
  - destruct Hmin as (d & Hd & E).
    destruct (Z.le_ge_cases (Samples.s_depth c) (Samples.s_depth existing)).
    + exists c. split; [apply Hdup; auto|lia].
    + exists d. split; [apply Hdup; auto|lia].
Qed.

Lemma mergeInto_merged m l c :
  merged m l -> merged (Samples.mergeInto m c) (l ++ [c]).
Proof.
  intros (Hnd & Hgood & Hall). unfold Samples.mergeInto.
  destruct (Samples.mapGet (Samples.s_path c) m) as [existing|] eqn:Hget.
  - split; [by apply NoDup_mapSet|]. split.
    + intros k v. rewrite mapGet_mapSet.
      destruct (String.eqb (Samples.s_path c) k) eqn:E.
      * apply String.eqb_eq in E. subst k. intros [= <-].
        apply mergeOf_again. by apply Hgood.
      * apply String.eqb_neq in E. intros H. apply mergeOf_other; auto.
    + intros d Hd. rewrite mapGet_mapSet.
      destruct (String.eqb (Samples.s_path c) (Samples.s_path d)); [done|].
      apply elem_of_app in Hd as [Hd|Hd]; [by apply Hall|].
      apply list_elem_of_singleton in Hd. subst d. by rewrite Hget.
  - split; [by apply NoDup_mapSet|]. split.
    + intros k v. rewrite mapGet_mapSet.
      destruct (String.eqb (Samples.s_path c) k) eqn:E.
      * apply String.eqb_eq in E. subst k. intros [= <-].
        apply mergeOf_first. intros d Hd E. apply (Hall d Hd). by rewrite E.
      * apply String.eqb_neq in E. intros H. apply mergeOf_other; auto.
    + intros d Hd. rewrite mapGet_mapSet.
      destruct (String.eqb (Samples.s_path c) (Samples.s_path d)) eqn:E; [done|].
      apply elem_of_app in Hd as [Hd|Hd]; [by apply Hall|].
      apply list_elem_of_singleton in Hd. subst d. by rewrite String.eqb_refl in E.
Qed.

Lemma fold_mergeInto_merged l m l0 :
  merged m l0 -> merged (fold_left Samples.mergeInto l m) (l0 ++ l).
Proof.
  revert m l0. induction l as [|c l IH]; intros m l0 H; simpl.
  - by rewrite app_nil_r.
  - replace (l0 ++ c :: l) with ((l0 ++ [c]) ++ l) by (by rewrite <- app_assoc).
    apply IH. by apply mergeInto_merged.
Qed.

(** C8: after the de-duplication every path occurs once; the record kept
    for a path has a non-empty framework, [featured] and [beta] exactly
    when some duplicate has, and the minimum of the duplicates' depths.  In
    particular [{featured:false, beta:false}] merged with
    [{featured:true, beta:true}] is [{featured:true, beta:true}]. *)
Theorem deduplicate_merges_by_path (sampleCodes : list Samples.ParsedSampleCode) :
  NoDup (map Samples.s_path (Samples.deduplicate sampleCodes))
  /\ (forall d, d ∈ sampleCodes ->
        exists r, r ∈ Samples.deduplicate sampleCodes
                  /\ Samples.s_path r = Samples.s_path d)
  /\ (forall r, r ∈ Samples.deduplicate sampleCodes ->
        mergeOf (Samples.s_path r) r sampleCodes)
  /\ (exists r, Samples.deduplicate [plainSample; featuredBetaSample] = [r]
                /\ Samples.s_featured r = true /\ Samples.s_beta r = true
                /\ Samples.s_framework r = Some "SwiftUI"
                /\ Samples.s_depth r = 1).
Proof.
  assert (H : merged (fold_left Samples.mergeInto sampleCodes []) sampleCodes).
  { apply (fold_mergeInto_merged sampleCodes [] []).
    split; [constructor|]. split; [done|]. intros d Hd. by apply elem_of_nil in Hd. }
  destruct H as (Hnd & Hgood & Hall).
  unfold Samples.deduplicate.
  set (m := fold_left Samples.mergeInto sampleCodes []) in *.
  assert (Hkeys : forall k v, (k, v) ∈ m -> Samples.s_path v = k).
  { intros k v Hin. apply (elem_mapGet k v m Hnd) in Hin.
    by destruct (Hgood k v Hin). }
  assert (Hpaths : map Samples.s_path (map snd m) = map fst m).
  { rewrite map_map. apply map_ext_in. intros [k v] Hin. simpl.
    apply Hkeys. by apply list_elem_of_In. }
  split; [by rewrite Hpaths|]. split; [|split].
  - intros d Hd. specialize (Hall d Hd).
    destruct (Samples.mapGet (Samples.s_path d) m) as [v|] eqn:E; [|done].
    exists v. split.
    + apply list_elem_of_fmap. exists (Samples.s_path d, v).
      split; [done|by apply mapGet_elem].
    + by destruct (Hgood _ _ E).
  - intros r Hr. apply list_elem_of_fmap in Hr as ([k v] & -> & Hin). simpl.
    rewrite (Hkeys k v Hin). apply Hgood. by apply elem_mapGet.
  - eexists. split; [by vm_compute|]. done.
Qed.

(** ** The fetcher *)

Lemma prefix_cons a s1 b s2 :
  String.prefix (String a s1) (String b s2)
  = if ascii_dec a b then String.prefix s1 s2 else false.
Proof. reflexivity. Qed.

Lemma prefix_empty s : String.prefix "" s = true.
Proof. by destruct s. Qed.

Lemma append_cons x (y z : string) : String x y +:+ z = String x (y +:+ z).
Proof. reflexivity. Qed.

Lemma append_empty (z : string) : "" +:+ z = z.
Proof. reflexivity. Qed.

Lemma prefix_404_space a b :
  String.prefix "404" (a +:+ String " " b) = String.prefix "404" a.
Proof.
  destruct a as [|c1 [|c2 [|c3 a]]];
    rewrite ?append_cons, ?append_empty, ?prefix_cons;
    repeat (destruct (ascii_dec _ _); rewrite ?prefix_cons, ?prefix_empty;
            try reflexivity; try discriminate).
Qed.

Lemma includes_404_space a b :
  includes (a +:+ String " " b) "404" = includes a "404" || includes b "404".
Proof.
  induction a as [|c a IH].
  - reflexivity.
  - change (String c a +:+ String " " b) with (String c (a +:+ String " " b)).
    cbn [includes]. rewrite IH.
    change (String c (a +:+ String " " b)) with (String c a +:+ String " " b).
    rewrite prefix_404_space. by rewrite orb_assoc.
Qed.

Lemma append_assoc (a b c : string) : (a +:+ b) +:+ c = a +:+ (b +:+ c).
Proof. induction a as [|x a IH]; [done|]. rewrite !append_cons. by f_equal. Qed.

Lemma status_text_has_no_404 (s : Z) :
  100 <= s <= 599 -> s <> 404 ->
  includes ("Server error (" +:+ pretty s +:+ "):") "404" = false
  /\ includes ("HTTP " +:+ pretty s +:+ ":") "404" = false.
Proof.
  intros Hr Hne.
  assert (Hall : forallb (fun s =>
             (s =? 404)
             || (negb (includes ("Server error (" +:+ pretty s +:+ "):") "404")
                 && negb (includes ("HTTP " +:+ pretty s +:+ ":") "404")))
             (seqZ 100 500) = true) by (by vm_compute).
  rewrite forallb_forall in Hall.
  specialize (Hall s). 
  assert (Hin : In s (seqZ 100 500)).
  { apply list_elem_of_In, elem_of_seqZ. lia. }
  specialize (Hall Hin). apply orb_prop in Hall as [H|H]; [lia|].
  apply andb_prop in H as [H1 H2].
  by rewrite negb_true_iff in H1, H2.
Qed.

Lemma retriable_text url outcome :
  includes url "404" = false -> retriable outcome ->
  exists e, attemptResult url outcome = Throw e
            /\ includes (errorText (asError e)) "404" = false
            /\ (forall r, outcome = Responded r ->
                  exists pre, errorText e = pre +:+ url).
Proof.
  intros Hurl Hr. destruct outcome as [r|e]; simpl in *.
  - destruct Hr as (Hrange & Hok & Hne).
    destruct (status_text_has_no_404 (status r) Hrange Hne) as [H5 H4].
    destruct (status r =? 404) eqn:E; [lia|].
    destruct (status r >=? 500) eqn:E5.
    + eexists. split; [reflexivity|]. split.
      * unfold asError. cbn [errorText].
        replace ("Server error (" +:+ pretty (status r) +:+ "): " +:+ url)
          with (("Server error (" +:+ pretty (status r) +:+ "):") +:+ String " " url)
          by (by rewrite !append_assoc).
        by rewrite includes_404_space, H5, Hurl.
      * intros _ _. by exists ("Server error (" +:+ pretty (status r) +:+ "): ");
          rewrite !append_assoc.
    + rewrite Hok. simpl. eexists. split; [reflexivity|]. split.
      * unfold asError. cbn [errorText].
        replace ("HTTP " +:+ pretty (status r) +:+ ": " +:+ url)
          with (("HTTP " +:+ pretty (status r) +:+ ":") +:+ String " " url)
          by (by rewrite !append_assoc).
        by rewrite includes_404_space, H4, Hurl.
      * intros _ _. by exists ("HTTP " +:+ pretty (status r) +:+ ": ");
          rewrite !append_assoc.
  - exists e. repeat split; [done|]. intros r [=].
Qed.

Lemma attemptOnce_eq P url w :
  Http.attemptOnce P url w
  = (attemptResult url (fst (network P (requests w) url)), logged P url w).
Proof.
  unfold Http.attemptOnce, bind, Http.fetch, logged, attemptResult.
  destruct (network P (requests w) url) as [[r|e] elapsed]; simpl; [|done].
  destruct (status r =? 404); [done|].
  destruct (status r >=? 500); [done|].
  by destruct (ok r).
Qed.

Section RetryLoop.
Variable P : Platform.
Variable url : string.
Variable maxRetries : Z.

Lemma retryLoop_settles n attempt last w r :
  attemptResult url (fst (network P (requests w) url)) = Normal r ->
  Http.retryLoop P url maxRetries (S n) attempt last w = (Normal r, logged P url w).
Proof. intros H. cbn [Http.retryLoop]. by rewrite attemptOnce_eq, H. Qed.

Lemma retryLoop_gives_up n attempt last w e :
  attemptResult url (fst (network P (requests w) url)) = Throw e ->
  includes (errorText (asError e)) "404" = true ->
  Http.retryLoop P url maxRetries (S n) attempt last w
  = (Throw (asError e), logged P url w).
Proof. intros H H4. cbn [Http.retryLoop]. by rewrite attemptOnce_eq, H, H4. Qed.

Lemma retryLoop_retries n attempt last w e :
  attemptResult url (fst (network P (requests w) url)) = Throw e ->
  includes (errorText (asError e)) "404" = false ->
  Http.retryLoop P url maxRetries (S n) attempt last w
  = Http.retryLoop P url maxRetries n (attempt + 1) (Some (asError e))
      (if attempt <? maxRetries - 1
       then Http.sleep (2 ^ attempt * 1000) (logged P url w)
       else logged P url w).
Proof. intros H H4. cbn [Http.retryLoop]. by rewrite attemptOnce_eq, H, H4. Qed.
End RetryLoop.

Lemma success_settles url o r :
  success o r -> attemptResult url o = Normal r.
Proof.
  intros [-> Hok]. unfold attemptResult. unfold ok in Hok.
  apply andb_prop in Hok as [H1 H2].
  destruct (status r =? 404) eqn:E; [lia|].
  destruct (status r >=? 500) eqn:E5; [lia|].
  unfold ok. by rewrite H1, H2.
Qed.

(** The slip in the classification, for the record: the test is on the
    text of the error, which carries the URL, so a 500 response for a URL
    that contains "404" is not retried. *)
Example fetchWithRetry_url_mentioning_404 :
  let P := platformWith (fun _ _ =>
             (Responded (mkResponse 500 (Normal JNull) (Normal "")), 10)) in
  let url := "https://developer.apple.com/tutorials/data/documentation/error404.json" in
  Http.fetchWithRetry P url 3 emptyWorld
  = (Throw (ErrorObject ("Server error (500): " +:+ url)),
     mkWorld ∅ 10 [url] 0).
Proof. by vm_compute. Qed.

(** C3, as stated, fails: after three transport-level failures the error
    surfaced is the platform's own, which does not carry the URL. *)
Lemma fetchWithRetry_transport_error_is_not_tagged :
  ~ (forall P url w e,
       requests (snd (Http.fetchWithRetry P url 3 w)) = requests w ++ [url; url; url] ->
       fst (Http.fetchWithRetry P url 3 w) = Throw e ->
       includes (errorText e) url = true).
Proof.
  intros H.
  specialize (H offline "https://developer.apple.com/tutorials/data/index/swiftui"
                emptyWorld (ErrorObject "The operation timed out.")).
  assert (includes "The operation timed out."
            "https://developer.apple.com/tutorials/data/index/swiftui" = true) as Habs.
  { apply H; by vm_compute. }
  vm_compute in Habs. discriminate.
Qed.

(** C3, amended.  A 404 response fails at once, after one request.  For a
    URL without the text 404: a fetch whose first two outcomes are
    retriable failures (a non-2xx status other than 404, or a rejection
    whose text does not mention 404) is tried a third time; if the third
    outcome is a 2xx response it is returned, and if it is a retriable
    failure too, its error is thrown after exactly three requests, the
    message ending with the URL when the failure is an HTTP status. *)
Theorem fetchWithRetry_retry_policy P url w :
  (forall r,
     outcomeAt P url w 0 = Responded r -> status r = 404 ->
     Http.fetchWithRetry P url 3 w
     = (Throw (ErrorObject ("Not found (404): " +:+ url)), logged P url w))
  /\ (includes url "404" = false ->
      retriable (outcomeAt P url w 0) ->
      retriable (outcomeAt P url w 1) ->
      (forall r,
         success (outcomeAt P url w 2) r ->
         fst (Http.fetchWithRetry P url 3 w) = Normal r
         /\ requests (snd (Http.fetchWithRetry P url 3 w))
            = requests w ++ [url; url; url])
      /\ (retriable (outcomeAt P url w 2) ->
          exists e,
            attemptResult url (outcomeAt P url w 2) = Throw e
            /\ fst (Http.fetchWithRetry P url 3 w) = Throw (asError e)
            /\ requests (snd (Http.fetchWithRetry P url 3 w))
               = requests w ++ [url; url; url]
            /\ (forall r, outcomeAt P url w 2 = Responded r ->
                  exists pre, errorText (asError e) = pre +:+ url))).
Proof.
  unfold outcomeAt. simpl replicate. rewrite app_nil_r.
  unfold Http.fetchWithRetry. change (Z.to_nat 3) with 3%nat.
  split.
  - intros r Ho Hs.
    apply (retryLoop_gives_up P url 3 2 0 None w
             (ErrorObject ("Not found (404): " +:+ url))).
    + rewrite Ho. simpl. by rewrite Hs.
    + reflexivity.
  - intros Hurl H0 H1.
    destruct (retriable_text url _ Hurl H0) as (e0 & R0 & T0 & _).
    destruct (retriable_text url _ Hurl H1) as (e1 & R1 & T1 & _).
    rewrite (retryLoop_retries P url 3 2 0 None w e0 R0 T0).
    change (0 <? 3 - 1) with true. cbv iota.
    set (w1 := Http.sleep _ (logged P url w)).
    assert (Hw1 : requests w1 = requests w ++ [url]) by reflexivity.
    assert (R1' : attemptResult url (fst (network P (requests w1) url)) = Throw e1)
      by exact R1.
    rewrite (retryLoop_retries P url 3 1 (0 + 1) _ w1 e1 R1' T1).
    change (0 + 1 <? 3 - 1) with true. cbv iota.
    set (w2 := Http.sleep _ (logged P url w1)).
    assert (Hw2 : requests w2 = requests w ++ [url; url]).
    { change (requests w2) with ((requests w ++ [url]) ++ [url]).
      by rewrite <- app_assoc. }
    split.
    + intros r Hr. apply (success_settles url) in Hr. rewrite <- Hw2 in Hr.
      rewrite (retryLoop_settles P url 3 0 _ _ w2 r Hr). cbn [fst snd].
      split; [done|].
      change (requests (logged P url w2)) with (requests w2 ++ [url]).
      rewrite Hw2. by rewrite <- app_assoc.
    + intros H2.
      destruct (retriable_text url _ Hurl H2) as (e2 & R2 & T2 & Tag).
      exists e2. split; [done|].
      rewrite <- Hw2 in R2.
      rewrite (retryLoop_retries P url 3 0 _ _ w2 e2 R2 T2).
      change (0 + 1 + 1 <? 3 - 1) with false. cbv iota.
      cbn [Http.retryLoop from_option]. unfold throw, id. cbn [fst snd].
      split; [done|]. split.
      { change (requests (logged P url w2)) with (requests w2 ++ [url]).
        rewrite Hw2. by rewrite <- app_assoc. }
      intros r Hr. destruct (Tag r Hr) as [pre Hpre]. by exists pre.
Qed.


Lemma fetchWithRetry_retry_policy_witness :
  fst (Http.fetchWithRetry flaky indexUrl 3 emptyWorld) = Normal okResponse
  /\ requests (snd (Http.fetchWithRetry flaky indexUrl 3 emptyWorld))
     = [indexUrl; indexUrl; indexUrl].
Proof.
  destruct (fetchWithRetry_retry_policy flaky indexUrl emptyWorld) as [_ H].
  destruct H as [Hok _].
  - reflexivity.
  - vm_compute. repeat split; try discriminate.
  - vm_compute. repeat split; try discriminate.
  - apply Hok. split; reflexivity.
Defined.

(** ** The command modules as catch boundaries *)

Lemma keeps_ret {A} (a : A) : keeps (ret a).
Proof. by intros w H. Qed.


Lemma keeps_bind {A B} (m : M A) (k : A -> M B) :
  keeps m -> (forall a, keeps (k a)) -> keeps (bind m k).
Proof.
  intros Hm Hk w H. unfold bind. specialize (Hm w H).
  destruct (m w) as [[a|e] w1]; simpl in *; [by apply Hk|done].
Qed.





Section HttpKeeps.
Variable P : Platform.

Lemma store_attemptOnce url w : store (snd (Http.attemptOnce P url w)) = store w.
Proof. by rewrite attemptOnce_eq. Qed.

Lemma store_retryLoop url m n attempt last w :
  store (snd (Http.retryLoop P url m n attempt last w)) = store w.
Proof.
  revert attempt last w. induction n as [|n IH]; intros attempt last w; [done|].
  cbn [Http.retryLoop]. pose proof (store_attemptOnce url w) as Hs.
  destruct (Http.attemptOnce P url w) as [[r|e] w1]; simpl in *; [done|].
  destruct (includes _ _); [done|]. rewrite IH.
  by destruct (attempt <? m - 1).
Qed.



End HttpKeeps.






Section SearchFacts.
Variable P : Platform.
Variable renderSearch : string -> string -> string -> Z -> string -> Completion string.


End SearchFacts.

Section TechnologiesFacts.
Variable P : Platform.
Variable renderTechnologies :
  Json -> option string -> option string -> bool -> Z -> Completion string.

End TechnologiesFacts.

Section UpdatesFacts.
Variable P : Platform.
Variable renderUpdates :
  Json -> Json -> string -> option string -> option string -> option string ->
  bool -> Z -> Completion string.

End UpdatesFacts.

Section SymbolsFacts.
Variable P : Platform.
Variable indexItemsOf : Json -> string -> Completion (list Symbols.IndexItem).
Variable languageUnavailable : Json -> string -> string -> Completion string.
Variable formatSymbols :
  string -> string -> option string ->
  list Symbols.IndexItem -> list Symbols.IndexItem -> Completion string.

End SymbolsFacts.

Section SamplesFacts.
Variable P : Platform.
Variable normalizeFramework : string -> string.
Variable featuredIdsOf : Json -> Completion (gset string).
Variable frameworkMapOf : Json -> Completion (gmap string string).
Variable interfaceLanguagesOf :
  Json -> Completion (list (list Samples.SampleCodeIndexNode)).
Variable filterSortFormat :
  list Samples.ParsedSampleCode -> option string -> string -> option string -> Z ->
  Completion string.

End SamplesFacts.

Section DocFacts.
Variable P : Platform.
Variable lacksPrimaryContent : Json -> Completion bool.
Variable firstReferenceUrl : Json -> Completion (option string).
Variable renderDoc : Json -> Doc.DocOptions -> string -> Completion string.

#[local] Notation "'doc_try'" :=
  (Doc.getAppleDocContent_try P lacksPrimaryContent firstReferenceUrl renderDoc).
#[local] Notation "'doc'" :=
  (Doc.getAppleDocContent P lacksPrimaryContent firstReferenceUrl renderDoc).





#[local] Notation "'followOf'" :=
  (Doc.followOf P lacksPrimaryContent firstReferenceUrl renderDoc).

Lemma getAppleDocContent_eq url options maxDepth :
  doc url options maxDepth =
    tryCatch (doc_try (followOf options maxDepth) url options)
             (fun error => ret (VStr (Doc.errorMessage url error))).
Proof. by destruct maxDepth. Qed.

End DocFacts.







Section FeatureModules.
Variable P : Platform.
(* search *)
Variable renderSearch : string -> string -> string -> Z -> string -> Completion string.
(* doc *)
Variable lacksPrimaryContent : Json -> Completion bool.
Variable firstReferenceUrl : Json -> Completion (option string).
Variable renderDoc : Json -> Doc.DocOptions -> string -> Completion string.
(* technologies *)
Variable renderTechnologies :
  Json -> option string -> option string -> bool -> Z -> Completion string.
(* symbols *)
Variable indexItemsOf : Json -> string -> Completion (list Symbols.IndexItem).
Variable languageUnavailable : Json -> string -> string -> Completion string.
Variable formatSymbols :
  string -> string -> option string ->
  list Symbols.IndexItem -> list Symbols.IndexItem -> Completion string.
(* updates *)
Variable renderUpdates :
  Json -> Json -> string -> option string -> option string -> option string ->
  bool -> Z -> Completion string.
(* samples *)
Variable normalizeFramework : string -> string.
Variable featuredIdsOf : Json -> Completion (gset string).
Variable frameworkMapOf : Json -> Completion (gmap string string).
Variable interfaceLanguagesOf :
  Json -> Completion (list (list Samples.SampleCodeIndexNode)).
Variable filterSortFormat :
  list Samples.ParsedSampleCode -> option string -> string -> option string -> Z ->
  Completion string.

#[local] Notation "'searchAppleDocs'" := (Search.searchAppleDocs P renderSearch).
#[local] Notation "'getAppleDocContent'" :=
  (Doc.getAppleDocContent P lacksPrimaryContent firstReferenceUrl renderDoc).
#[local] Notation "'listTechnologies'" :=
  (Technologies.listTechnologies P renderTechnologies).
#[local] Notation "'searchFrameworkSymbols'" :=
  (Symbols.searchFrameworkSymbols P indexItemsOf languageUnavailable formatSymbols).
#[local] Notation "'getDocumentationUpdates'" :=
  (Updates.getDocumentationUpdates P renderUpdates).
#[local] Notation "'getSampleCode'" :=
  (Samples.getSampleCode P normalizeFramework featuredIdsOf frameworkMapOf
                         interfaceLanguagesOf filterSortFormat).

End FeatureModules.



(** ** URL validation in the doc command *)

(** The model of [convertToJsonApiUrl] on the cases of the repository's
    own tests. *)
Example convertToJsonApiUrl_tests :
  Urls.convertToJsonApiUrl web "https://developer.apple.com/documentation/SwiftUI/View"
  = Some "https://developer.apple.com/tutorials/data/documentation/SwiftUI/View.json"
  /\ Urls.convertToJsonApiUrl web "https://developer.apple.com/tutorials/swiftui-concepts"
     = Some "https://developer.apple.com/tutorials/data/swiftui-concepts.json"
  /\ Urls.convertToJsonApiUrl web "https://developer.apple.com/documentation/SwiftUI/"
     = Some "https://developer.apple.com/tutorials/data/documentation/SwiftUI.json"
  /\ Urls.convertToJsonApiUrl web "https://example.com/documentation/Foo" = None
  /\ Urls.convertToJsonApiUrl web "not a url" = None
  /\ Urls.convertToJsonApiUrl web "https://developer.apple.com/design"
     = Some "https://developer.apple.com/design".
Proof. by vm_compute. Qed.

Lemma grows_ret {A} (a : A) : grows (ret a).
Proof. intros w. exists []. by rewrite app_nil_r. Qed.

Lemma grows_lift {A} (c : Completion A) : grows (lift c).
Proof. intros w. exists []. by rewrite app_nil_r. Qed.

Lemma grows_bind {A B} (m : M A) (k : A -> M B) :
  grows m -> (forall a, grows (k a)) -> grows (bind m k).
Proof.
  intros Hm Hk w. unfold bind. destruct (Hm w) as [r1 E1].
  destruct (m w) as [[a|e] w1]; simpl in *; [|by exists r1].
  destruct (Hk a w1) as [r2 E2]. exists (r1 ++ r2).
  by rewrite E2, E1, app_assoc.
Qed.

Lemma grows_tryCatch {A} (body : M A) h :
  grows body -> (forall e, grows (h e)) -> grows (tryCatch body h).
Proof.
  intros Hb Hh w. unfold tryCatch. destruct (Hb w) as [r1 E1].
  destruct (body w) as [[a|e] w1]; simpl in *; [by exists r1|].
  destruct (Hh e w1) as [r2 E2]. exists (r1 ++ r2).
  by rewrite E2, E1, app_assoc.
Qed.

Lemma requestsFirst_bind {A B} url (m : M A) (k : A -> M B) w :
  requestsFirst url m w -> (forall a, grows (k a)) -> requestsFirst url (bind m k) w.
Proof.
  intros [r1 E1] Hk. unfold requestsFirst, bind.
  destruct (m w) as [[a|e] w1]; simpl in *; [|by exists r1].
  destruct (Hk a w1) as [r2 E2]. exists (r1 ++ r2).
  by rewrite E2, E1, <- app_assoc.
Qed.

Lemma requestsFirst_tryCatch {A} url (body : M A) h w :
  requestsFirst url body w -> (forall e, grows (h e)) ->
  requestsFirst url (tryCatch body h) w.
Proof.
  intros [r1 E1] Hh. unfold requestsFirst, tryCatch.
  destruct (body w) as [[a|e] w1]; simpl in *; [by exists r1|].
  destruct (Hh e w1) as [r2 E2]. exists (r1 ++ r2).
  by rewrite E2, E1, <- app_assoc.
Qed.

Section DocRequests.
Variable P : Platform.
Variable lacksPrimaryContent : Json -> Completion bool.
Variable firstReferenceUrl : Json -> Completion (option string).
Variable renderDoc : Json -> Doc.DocOptions -> string -> Completion string.

#[local] Notation "'doc'" :=
  (Doc.getAppleDocContent P lacksPrimaryContent firstReferenceUrl renderDoc).

Lemma grows_retryLoop url m n attempt last :
  grows (Http.retryLoop P url m n attempt last).
Proof.
  revert attempt last. induction n as [|n IH]; intros attempt last w.
  - exists []. by rewrite app_nil_r.
  - cbn [Http.retryLoop]. rewrite attemptOnce_eq.
    destruct (attemptResult url _) as [r|e]; [by exists [url]|].
    destruct (includes _ _); [by exists [url]|].
    set (w2 := if attempt <? m - 1 then _ else _).
    assert (E2 : requests w2 = requests w ++ [url])
      by (unfold w2; by destruct (attempt <? m - 1)).
    destruct (IH (attempt + 1) (Some (asError e)) w2) as [rest E].
    exists ([url] ++ rest). by rewrite E, E2, app_assoc.
Qed.

Lemma retryLoop_requestsFirst url m n attempt last w :
  requestsFirst url (Http.retryLoop P url m (S n) attempt last) w.
Proof.
  unfold requestsFirst. cbn [Http.retryLoop]. rewrite attemptOnce_eq.
  destruct (attemptResult url _) as [r|e]; [by exists []|].
  destruct (includes _ _); [by exists []|].
  set (w2 := if attempt <? m - 1 then _ else _).
  assert (E2 : requests w2 = requests w ++ [url])
    by (unfold w2; by destruct (attempt <? m - 1)).
  destruct (grows_retryLoop url m n (attempt + 1) (Some (asError e)) w2)
    as [rest E].
  exists rest. by rewrite E, E2, <- app_assoc.
Qed.

Lemma grows_fetchJson url : grows (Http.fetchJson P url).
Proof.
  apply grows_bind; [apply grows_retryLoop|]. intros r. apply grows_lift.
Qed.

Lemma grows_finish url cacheKey options data :
  grows (Doc.finish renderDoc url cacheKey options data).
Proof.
  apply grows_bind; [apply grows_lift|]. intros content w.
  exists []. by rewrite app_nil_r.
Qed.

Lemma grows_fetchAndRender_tail follow url cacheKey options data :
  (forall u, match follow with Some f => grows (f u) | None => True end) ->
  grows (lacks <- lift (lacksPrimaryContent data) ;;
         match follow with
         | Some getAppleDocContent =>
             if lacks : bool then
               firstRef <- lift (firstReferenceUrl data) ;;
               match firstRef with
               | Some refUrl =>
                   match Urls.convertToJsonApiUrl P (Doc.fullRefUrlOf refUrl) with
                   | Some (String c r as refJsonUrl) => getAppleDocContent refJsonUrl
                   | _ => Doc.finish renderDoc url cacheKey options data
                   end
               | None => Doc.finish renderDoc url cacheKey options data
               end
             else Doc.finish renderDoc url cacheKey options data
         | None => Doc.finish renderDoc url cacheKey options data
         end).
Proof.
  intros Hf. apply grows_bind; [apply grows_lift|]. intros lacks.
  destruct follow as [f|]; [|apply grows_finish].
  destruct lacks; [|apply grows_finish].
  apply grows_bind; [apply grows_lift|]. intros [refUrl|]; [|apply grows_finish].
  destruct (Urls.convertToJsonApiUrl P _) as [[|c' r]|]; try apply grows_finish.
  apply (Hf (String c' r)).
Qed.

Lemma grows_getAppleDocContent_try follow url options :
  (forall u, match follow with Some f => grows (f u) | None => True end) ->
  grows (Doc.getAppleDocContent_try P lacksPrimaryContent firstReferenceUrl
           renderDoc follow url options).
Proof.
  intros Hf. unfold Doc.getAppleDocContent_try.
  destruct (negb _); [apply grows_ret|].
  destruct (Doc.jsonApiUrlOf P url) as [[|c j]|]; [apply grows_ret| |apply grows_ret].
  intros w.
  assert (E0 : requests (snd (Cache.cacheGet
                                (Doc.cacheKeyOf P (String c j) options) w))
               = requests w).
  { unfold Cache.cacheGet. destruct (store w !! _) as [entry|]; [|done].
    by destruct (now w >? expiresAt entry). }
  destruct (Cache.cacheGet _ w) as [cached w0]. simpl in E0.
  destruct (truthy cached).
  - exists []. simpl. by rewrite E0, app_nil_r.
  - rewrite <- E0. unfold Doc.fetchAndRender.
    apply grows_bind; [apply grows_fetchJson|]. intros data.
    by apply grows_fetchAndRender_tail.
Qed.

Lemma grows_getAppleDocContent maxDepth :
  forall url options, grows (doc url options maxDepth).
Proof.
  induction maxDepth as [|d IH]; intros url options;
    cbn [Doc.getAppleDocContent];
    (apply grows_tryCatch; [|intros e; apply grows_ret]);
    apply grows_getAppleDocContent_try; intros u; [done|apply IH].
Qed.

(** C9 fails on the code: a URL that contains both [developer.apple.com]
    and [.json] passes the two textual tests and is fetched as it is,
    whatever its host; [convertToJsonApiUrl], which checks the host, is
    not consulted.  Here the host is [evil.example]: the module's own
    validators reject the URL, and [getAppleDocContent] requests it. *)
Theorem getAppleDocContent_fetches_foreign_host options maxDepth :
  (exists rest,
     requests (snd (doc foreignJsonUrl options maxDepth emptyWorld))
     = foreignJsonUrl :: rest)
  /\ Urls.isValidAppleDeveloperUrl web foreignJsonUrl = false
  /\ Urls.convertToJsonApiUrl web foreignJsonUrl = None.
Proof.
  split; [|by vm_compute].
  rewrite getAppleDocContent_eq.
  set (follow := Doc.followOf _ _ _ _ _ _).
  assert (Hf : forall u, match follow with Some f => grows (f u) | None => True end).
  { intros u. unfold follow. destruct maxDepth; simpl; [done|].
    apply grows_getAppleDocContent. }
  set (key := Doc.cacheKeyOf P foreignJsonUrl options).
  assert (Hmiss : Cache.cacheGet key emptyWorld = (VUndefined, emptyWorld)).
  { unfold Cache.cacheGet.
    change (store emptyWorld) with (∅ : gmap string CacheEntry).
    by rewrite lookup_empty. }
  assert (Htry : Doc.getAppleDocContent_try P lacksPrimaryContent
                   firstReferenceUrl renderDoc follow foreignJsonUrl options
                   emptyWorld
                 = Doc.fetchAndRender P lacksPrimaryContent firstReferenceUrl
                     renderDoc follow foreignJsonUrl foreignJsonUrl key options
                     emptyWorld).
  { unfold Doc.getAppleDocContent_try.
    change (negb (includes foreignJsonUrl "developer.apple.com")) with false.
    cbv iota.
    change (Doc.jsonApiUrlOf P foreignJsonUrl) with (Some foreignJsonUrl).
    unfold foreignJsonUrl at 1. cbv iota. fold foreignJsonUrl. fold key.
    by rewrite Hmiss. }
  change (requestsFirst foreignJsonUrl
            (tryCatch
               (Doc.getAppleDocContent_try P lacksPrimaryContent
                  firstReferenceUrl renderDoc follow foreignJsonUrl options)
               (fun error =>
                  ret (VStr (Doc.errorMessage foreignJsonUrl error))))
            emptyWorld).
  unfold requestsFirst, tryCatch. rewrite Htry.
  apply (requestsFirst_tryCatch foreignJsonUrl
           (Doc.fetchAndRender P lacksPrimaryContent firstReferenceUrl renderDoc
              follow foreignJsonUrl foreignJsonUrl key options)
           (fun error => ret (VStr (Doc.errorMessage foreignJsonUrl error)))
           emptyWorld); [|intros e; apply grows_ret].
  unfold Doc.fetchAndRender.
  apply requestsFirst_bind; [|intros data; by apply grows_fetchAndRender_tail].
  apply requestsFirst_bind; [|intros r; apply grows_lift].
  apply (retryLoop_requestsFirst foreignJsonUrl 3 2 0 None emptyWorld).
Qed.
End DocRequests.

(** ** More on the fetcher *)

Lemma retryLoop_request_count P url m n attempt last w :
  exists k,
    (k <= n)%nat
    /\ (n = 0%nat \/ 1 <= k)%nat
    /\ requests (snd (Http.retryLoop P url m n attempt last w))
       = requests w ++ replicate k url
    /\ producerCalls (snd (Http.retryLoop P url m n attempt last w))
       = producerCalls w.
Proof.
  revert attempt last w. induction n as [|n IH]; intros attempt last w.
  - exists 0%nat. simpl. rewrite app_nil_r. auto.
  - cbn [Http.retryLoop]. rewrite attemptOnce_eq.
    destruct (attemptResult url _) as [r|e].
    { exists 1%nat. simpl. repeat split; auto; lia. }
    destruct (includes _ _).
    { exists 1%nat. simpl. repeat split; auto; lia. }
    set (w2 := if attempt <? m - 1 then _ else _).
    assert (E2 : requests w2 = requests w ++ [url]
                 /\ producerCalls w2 = producerCalls w)
      by (unfold w2; by destruct (attempt <? m - 1)).
    destruct E2 as [E2 E2'].
    destruct (IH (attempt + 1) (Some (asError e)) w2) as (k & Hk & _ & E & E').
    exists (S k). repeat split; [lia|right; lia| |congruence].
    rewrite E, E2, <- app_assoc. reflexivity.
Qed.

(** X1: whatever the platform answers, [fetchWithRetry] sends between one
    and [maxRetries] requests (none if [maxRetries] is not positive), all
    of them to the given URL, and leaves the cache as it is. *)
Theorem fetchWithRetry_request_bound P url maxRetries w :
  exists k,
    (k <= Z.to_nat maxRetries)%nat
    /\ (maxRetries <= 0 \/ (1 <= k)%nat)
    /\ requests (snd (Http.fetchWithRetry P url maxRetries w))
       = requests w ++ replicate k url
    /\ store (snd (Http.fetchWithRetry P url maxRetries w)) = store w.
Proof.
  unfold Http.fetchWithRetry.
  destruct (retryLoop_request_count P url maxRetries (Z.to_nat maxRetries) 0 None w)
    as (k & Hk & Hpos & E & _).
  exists k. repeat split; [done| |done|apply store_retryLoop].
  destruct Hpos as [H0|H1]; [left; lia|by right].
Qed.

(** X2: with no attempt allowed ([maxRetries <= 0]) nothing is requested
    and the call fails with the fallback error that names the URL. *)
Theorem fetchWithRetry_without_attempts P url maxRetries w :
  maxRetries <= 0 ->
  Http.fetchWithRetry P url maxRetries w
  = (Throw (ErrorObject ("Failed to fetch: " +:+ url)), w).
Proof.
  intros H. unfold Http.fetchWithRetry.
  replace (Z.to_nat maxRetries) with 0%nat by lia. reflexivity.
Qed.

Lemma fetchWithRetry_without_attempts_witness :
  Http.fetchWithRetry flaky indexUrl 0 emptyWorld
  = (Throw (ErrorObject ("Failed to fetch: " +:+ indexUrl)), emptyWorld).
Proof. apply fetchWithRetry_without_attempts. lia. Defined.

(** X3: the back-off.  When each of three attempts fails with an error
    whose message does not contain [404] (the test by which the loop
    decides to go on), the clock has advanced by the three latencies
    plus a wait of 1000 ms after the first failure and 2000 ms after the
    second; there is no wait after the last one. *)
Theorem fetchWithRetry_backoff P url w :
  retried url (outcomeAt P url w 0) ->
  retried url (outcomeAt P url w 1) ->
  retried url (outcomeAt P url w 2) ->
  now (snd (Http.fetchWithRetry P url 3 w))
  = now w
    + snd (network P (requests w) url) + 1000
    + snd (network P (requests w ++ [url]) url) + 2000
    + snd (network P (requests w ++ [url; url]) url).
Proof.
  unfold outcomeAt. simpl replicate. rewrite app_nil_r.
  intros (e0 & R0 & T0) (e1 & R1 & T1) (e2 & R2 & T2).
  unfold Http.fetchWithRetry. change (Z.to_nat 3) with 3%nat.
  rewrite (retryLoop_retries P url 3 2 0 None w e0 R0 T0).
  change (0 <? 3 - 1) with true. cbv iota.
  set (w1 := Http.sleep _ (logged P url w)).
  assert (R1' : attemptResult url (fst (network P (requests w1) url)) = Throw e1)
    by exact R1.
  rewrite (retryLoop_retries P url 3 1 (0 + 1) _ w1 e1 R1' T1).
  change (0 + 1 <? 3 - 1) with true. cbv iota.
  set (w2 := Http.sleep _ (logged P url w1)).
  assert (Hw2 : requests w2 = requests w ++ [url; url]).
  { change (requests w2) with ((requests w ++ [url]) ++ [url]).
    by rewrite <- app_assoc. }
  rewrite <- Hw2 in R2.
  rewrite (retryLoop_retries P url 3 0 _ _ w2 e2 R2 T2).
  change (0 + 1 + 1 <? 3 - 1) with false. cbv iota.
  cbn [Http.retryLoop from_option]. unfold throw. cbn [fst snd].
  change (now (logged P url w2))
    with (now w2 + snd (network P (requests w2) url)).
  rewrite Hw2.
  change (now w2) with (now w1 + snd (network P (requests w1) url) + 2 ^ (0 + 1) * 1000).
  change (requests w1) with (requests w ++ [url]).
  change (now w1) with (now w + snd (network P (requests w) url) + 2 ^ 0 * 1000).
  change (2 ^ 0 * 1000) with 1000. change (2 ^ (0 + 1) * 1000) with 2000. lia.
Qed.

Lemma fetchWithRetry_backoff_witness :
  now (snd (Http.fetchWithRetry offline indexUrl 3 emptyWorld)) = 93000.
Proof.
  rewrite (fetchWithRetry_backoff offline indexUrl emptyWorld);
    [reflexivity|eexists; split; reflexivity..].
Defined.

(** X4: a 2xx answer to the first request is returned after that one
    request and without any wait; and when its body is not valid JSON,
    [fetchJson] fails with the parse error at once: a parse failure is not
    retried. *)
Theorem fetchJson_first_answer P url w r :
  success (outcomeAt P url w 0) r ->
  Http.fetchWithRetry P url 3 w = (Normal r, logged P url w)
  /\ Http.fetchJson P url w = (json r, logged P url w)
  /\ Http.fetchHtml P url w = (text r, logged P url w).
Proof.
  unfold outcomeAt. simpl replicate. rewrite app_nil_r. intros Hr.
  apply (success_settles url) in Hr.
  assert (E : Http.fetchWithRetry P url 3 w = (Normal r, logged P url w)).
  { unfold Http.fetchWithRetry. change (Z.to_nat 3) with 3%nat.
    by apply retryLoop_settles. }
  split; [exact E|].
  unfold Http.fetchJson, Http.fetchHtml, bind. rewrite E. by split.
Qed.

Lemma fetchJson_first_answer_witness :
  Http.fetchJson web indexUrl emptyWorld
  = (Normal (JObj []), mkWorld ∅ 10 [indexUrl] 0).
Proof.
  apply (fetchJson_first_answer web indexUrl emptyWorld okResponse).
  split; reflexivity.
Defined.
(** ** More on the cache *)

Lemma cacheGet_after_cacheSet key v ttlMs w w' :
  store w' = store (Cache.cacheSet key v ttlMs w) ->
  now w' <= now w + ttlMs ->
  Cache.cacheGet key w' = (v, w').
Proof.
  intros Hs Hn.
  apply (cacheGet_hit key w' (mkCacheEntry v (now w + ttlMs))); [|done].
  rewrite Hs. unfold Cache.cacheSet. simpl. apply lookup_insert_eq.
Qed.

(** X5: set-then-get.  A value stored with [cacheSet] is read back by
    [cacheGet] at any later moment up to and including [now + ttl],
    whatever the key held before, the read changes nothing, and no other
    key is affected by the write. *)
Theorem cacheSet_cacheGet key v ttlMs w w' :
  store w' = store (Cache.cacheSet key v ttlMs w) ->
  now w' <= now w + ttlMs ->
  Cache.cacheGet key w' = (v, w')
  /\ forall other, other <> key ->
       store (Cache.cacheSet key v ttlMs w) !! other = store w !! other.
Proof.
  intros Hs Hn. split.
  - by apply (cacheGet_after_cacheSet key v ttlMs w).
  - intros other Hne. unfold Cache.cacheSet. simpl. by apply lookup_insert_ne.
Qed.

Lemma cacheSet_cacheGet_witness :
  Cache.cacheGet "k" (Http.sleep 60000 (Cache.cacheSet "k" (VStr "v") 60000 emptyWorld))
  = (VStr "v", Http.sleep 60000 (Cache.cacheSet "k" (VStr "v") 60000 emptyWorld)).
Proof.
  apply (cacheSet_cacheGet "k" (VStr "v") 60000 emptyWorld).
  - reflexivity.
  - simpl. lia.
Defined.

(** X6: lazy eviction.  The first read after the expiry of an entry
    returns [undefined] and deletes that entry; the entries of the other
    keys, the clock and the request log stay as they are. *)
Theorem cacheGet_evicts_expired key w e :
  store w !! key = Some e ->
  expiresAt e < now w ->
  fst (Cache.cacheGet key w) = VUndefined
  /\ store (snd (Cache.cacheGet key w)) = delete key (store w)
  /\ store (snd (Cache.cacheGet key w)) !! key = None
  /\ (forall other, other <> key ->
        store (snd (Cache.cacheGet key w)) !! other = store w !! other)
  /\ now (snd (Cache.cacheGet key w)) = now w
  /\ requests (snd (Cache.cacheGet key w)) = requests w.
Proof.
  intros Hk He. unfold Cache.cacheGet. rewrite Hk.
  destruct (now w >? expiresAt e) eqn:E; [|lia]. simpl.
  repeat split; [apply lookup_delete_eq|].
  intros other Hne. by apply lookup_delete_ne.
Qed.

Lemma cacheGet_evicts_expired_witness :
  fst (Cache.cacheGet "k"
         (Http.sleep 10 (Cache.cacheSet "k" (VStr "v") 1 emptyWorld)))
  = VUndefined.
Proof.
  apply (cacheGet_evicts_expired "k"
           (Http.sleep 10 (Cache.cacheSet "k" (VStr "v") 1 emptyWorld))
           (mkCacheEntry (VStr "v") 1)).
  - reflexivity.
  - simpl. lia.
Defined.

(** X7: the miss fills the cache for the next caller.  After a miss whose
    producer returned a value other than [undefined], any call for the
    same key made no later than [ttl] after the value was stored returns
    that value, whatever producer and ttl it is given, and changes
    nothing: its producer is not run. *)
Theorem cacheGetOrSet_second_call_hits key (fn fn' : M Value) ttlMs ttlMs' w v w1 w2 :
  fst (Cache.cacheGet key w) = VUndefined ->
  Cache.invoke fn (snd (Cache.cacheGet key w)) = (Normal v, w1) ->
  v <> VUndefined ->
  store w2 = store (snd (Cache.cacheGetOrSet key fn ttlMs w)) ->
  now w2 <= now w1 + ttlMs ->
  fst (Cache.cacheGetOrSet key fn ttlMs w) = Normal v
  /\ Cache.cacheGetOrSet key fn' ttlMs' w2 = (Normal v, w2).
Proof.
  intros Hmiss Hrun Hv Hs Hn.
  assert (E : Cache.cacheGetOrSet key fn ttlMs w
              = (Normal v, Cache.cacheSet key v ttlMs w1)).
  { unfold Cache.cacheGetOrSet.
    destruct (Cache.cacheGet key w) as [cached w0]. simpl in *. subst cached.
    simpl. by rewrite Hrun. }
  rewrite E in *. simpl in Hs. split; [done|].
  pose proof (cacheGet_after_cacheSet key v ttlMs w1 w2 Hs Hn) as Hget.
  unfold Cache.cacheGetOrSet. rewrite Hget. by destruct v.
Qed.

Lemma cacheGetOrSet_second_call_hits_witness :
  Cache.cacheGetOrSet "k" (ret (VStr "second")) 5
    (snd (Cache.cacheGetOrSet "k" (ret (VStr "first")) 60000 emptyWorld))
  = (Normal (VStr "first"),
     snd (Cache.cacheGetOrSet "k" (ret (VStr "first")) 60000 emptyWorld)).
Proof.
  apply (cacheGetOrSet_second_call_hits "k" (ret (VStr "first"))
           (ret (VStr "second")) 60000 5 emptyWorld (VStr "first")
           (mkWorld ∅ 0 [] 1)).
  - reflexivity.
  - reflexivity.
  - discriminate.
  - reflexivity.
  - by vm_compute.
Defined.

(** ** More on lib/urls.ts and commands/doc.ts *)

(** X8: [convertToJsonApiUrl] answers [null] exactly when the URL, less
    one trailing slash, is not a valid Apple developer URL; any other
    answer is either a JSON file under the data root or the very URL it
    was given (trailing slash included). *)
Theorem convertToJsonApiUrl_result P webUrl :
  (Urls.convertToJsonApiUrl P webUrl = None
   <-> Urls.isValidAppleDeveloperUrl P (trimmed webUrl) = false)
  /\ (forall r, Urls.convertToJsonApiUrl P webUrl = Some r ->
        r = webUrl
        \/ exists rest, r = Urls.TUTORIALS_DATA +:+ rest +:+ ".json").
Proof.
  unfold Urls.convertToJsonApiUrl, Urls.isValidAppleDeveloperUrl, trimmed.
  destruct (parseURL P _) as [u|]; [|split; [done|discriminate]].
  destruct (String.eqb (hostname u) "developer.apple.com"); simpl;
    [|split; [done|discriminate]].
  split.
  - split; [|discriminate].
    destruct (includes (pathname u) "/documentation/"); [discriminate|].
    destruct (includes (pathname u) "/tutorials/"); discriminate.
  - intros r.
    destruct (includes (pathname u) "/documentation/").
    { intros [= <-]. right.
      exists ("documentation/" +:+ removeFirst "/documentation/" (pathname u)).
      reflexivity. }
    destruct (includes (pathname u) "/tutorials/").
    { intros [= <-]. right. by exists (removeFirst "/tutorials/" (pathname u)). }
    intros [= <-]. by left.
Qed.

Lemma convertToJsonApiUrl_result_witness :
  exists rest,
    "https://developer.apple.com/tutorials/data/documentation/swiftui.json"
    = Urls.TUTORIALS_DATA +:+ rest +:+ ".json".
Proof.
  destruct (proj2 (convertToJsonApiUrl_result web (swiftuiUrl +:+ "/"))
              "https://developer.apple.com/tutorials/data/documentation/swiftui.json")
    as [E|E].
  - reflexivity.
  - discriminate E.
  - exact E.
Defined.

Lemma includes_nonempty hay needle :
  includes hay needle = true -> needle <> "" -> hay <> "".
Proof. intros H Hn ->. destruct needle; [done|discriminate]. Qed.

Section DocFacts2.
Variable P : Platform.
Variable lacksPrimaryContent : Json -> Completion bool.
Variable firstReferenceUrl : Json -> Completion (option string).
Variable renderDoc : Json -> Doc.DocOptions -> string -> Completion string.

#[local] Notation "'doc'" :=
  (Doc.getAppleDocContent P lacksPrimaryContent firstReferenceUrl renderDoc).
#[local] Notation "'doc_try'" :=
  (Doc.getAppleDocContent_try P lacksPrimaryContent firstReferenceUrl renderDoc).
#[local] Notation "'followOf'" :=
  (Doc.followOf P lacksPrimaryContent firstReferenceUrl renderDoc).

(** X9: the two guards.  A URL that does not mention
    [developer.apple.com], or one that mentions it, does not mention
    [.json] and is not a valid Apple developer URL once a trailing slash
    is removed, is answered with a fixed error text; the cache is not
    consulted and nothing is requested: the world is unchanged. *)
Theorem getAppleDocContent_guards url options maxDepth w :
  (includes url "developer.apple.com" = false ->
   doc url options maxDepth w
   = (Normal (VStr "Error: URL must be from developer.apple.com"), w))
  /\ (includes url "developer.apple.com" = true ->
      includes url ".json" = false ->
      Urls.isValidAppleDeveloperUrl P (trimmed url) = false ->
      doc url options maxDepth w
      = (Normal (VStr "Error: Invalid Apple Developer Documentation URL"), w)).
Proof.
  rewrite getAppleDocContent_eq.
  unfold tryCatch, Doc.getAppleDocContent_try. split.
  - by intros ->.
  - intros -> Hj Hv. cbn [negb]. unfold Doc.jsonApiUrlOf. rewrite Hj.
    revert Hv.
    unfold Urls.convertToJsonApiUrl, Urls.isValidAppleDeveloperUrl, trimmed.
    destruct (parseURL P _) as [u|]; [|done].
    by intros ->.
Qed.


Lemma atMost_ret {A} (a : A) : atMost 0 (ret a).
Proof. intros w. exists []. by rewrite app_nil_r. Qed.

Lemma atMost_lift {A} (c : Completion A) : atMost 0 (lift c).
Proof. intros w. exists []. by rewrite app_nil_r. Qed.

Lemma atMost_weaken {A} (m : M A) n n' :
  (n <= n')%nat -> atMost n m -> atMost n' m.
Proof. intros Hn Hm w. destruct (Hm w) as (r & E & Hl). exists r. split; [done|lia]. Qed.

Lemma atMost_bind {A B} (m : M A) (k : A -> M B) n1 n2 :
  atMost n1 m -> (forall a, atMost n2 (k a)) -> atMost (n1 + n2) (bind m k).
Proof.
  intros Hm Hk w. unfold bind. destruct (Hm w) as (r1 & E1 & L1).
  destruct (m w) as [[a|e] w1]; simpl in *; [|exists r1; split; [done|lia]].
  destruct (Hk a w1) as (r2 & E2 & L2). exists (r1 ++ r2).
  rewrite E2, E1, app_assoc, length_app. split; [done|lia].
Qed.

Lemma atMost_tryCatch {A} (body : M A) h n :
  atMost n body -> (forall e, atMost 0 (h e)) -> atMost n (tryCatch body h).
Proof.
  intros Hb Hh w. unfold tryCatch. destruct (Hb w) as (r1 & E1 & L1).
  destruct (body w) as [[a|e] w1]; simpl in *; [by exists r1|].
  destruct (Hh e w1) as (r2 & E2 & L2). exists (r1 ++ r2).
  rewrite E2, E1, app_assoc, length_app. split; [done|lia].
Qed.

Lemma atMost_fetchJson url : atMost 3 (Http.fetchJson P url).
Proof.
  apply (atMost_bind _ _ 3 0); [|intros r; apply atMost_lift].
  intros w. unfold Http.fetchWithRetry.
  destruct (retryLoop_request_count P url 3 (Z.to_nat 3) 0 None w)
    as (k & Hk & _ & E & _).
  exists (replicate k url). split; [done|].
  rewrite length_replicate. exact Hk.
Qed.

Lemma atMost_finish url cacheKey options data :
  atMost 0 (Doc.finish renderDoc url cacheKey options data).
Proof.
  apply (atMost_bind _ _ 0 0); [apply atMost_lift|]. intros content w.
  exists []. by rewrite app_nil_r.
Qed.

Lemma atMost_getAppleDocContent_try follow url options n :
  (forall u, match follow with Some f => atMost n (f u) | None => True end) ->
  atMost (3 + n) (doc_try follow url options).
Proof.
  intros Hf. unfold Doc.getAppleDocContent_try.
  assert (H0 : forall s : string, atMost (3 + n) (ret (VStr s) : M Value)).
  { intros s. apply (atMost_weaken _ 0); [lia|apply atMost_ret]. }
  destruct (negb _); [apply H0|].
  destruct (Doc.jsonApiUrlOf P url) as [[|c j]|]; [apply H0| |apply H0].
  intros w.
  assert (E0 : requests (snd (Cache.cacheGet
                                (Doc.cacheKeyOf P (String c j) options) w))
               = requests w).
  { unfold Cache.cacheGet. destruct (store w !! _) as [entry|]; [|done].
    by destruct (now w >? expiresAt entry). }
  destruct (Cache.cacheGet _ w) as [cached w0]. simpl in E0.
  destruct (truthy cached).
  - exists []. simpl. rewrite E0, app_nil_r. split; [done|lia].
  - rewrite <- E0. unfold Doc.fetchAndRender.
    apply atMost_bind; [apply atMost_fetchJson|]. intros data.
    assert (Hfin : atMost n (Doc.finish renderDoc url
                               (Doc.cacheKeyOf P (String c j) options) options data)).
    { apply (atMost_weaken _ 0); [lia|apply atMost_finish]. }
    apply (atMost_bind _ _ 0 n); [apply atMost_lift|]. intros lacks.
    destruct follow as [f|]; [|exact Hfin].
    destruct lacks; [|exact Hfin].
    apply (atMost_bind _ _ 0 n); [apply atMost_lift|]. intros [refUrl|]; [|exact Hfin].
    destruct (Urls.convertToJsonApiUrl P _) as [[|c' r]|]; try exact Hfin.
    apply (Hf (String c' r)).
Qed.

Lemma atMost_getAppleDocContent maxDepth :
  forall url options, atMost (3 * S maxDepth) (doc url options maxDepth).
Proof.
  induction maxDepth as [|d IH]; intros url options;
    cbn [Doc.getAppleDocContent];
    (apply atMost_tryCatch; [|intros e; apply atMost_ret]).
  - apply (atMost_getAppleDocContent_try None url options 0). done.
  - replace (3 * S (S d))%nat with (3 + 3 * S d)%nat by lia.
    apply atMost_getAppleDocContent_try. intros u. apply IH.
Qed.

(** X11: a lookup only appends to the request log, and appends at most
    three requests for each page it visits, of which there are at most
    [maxDepth + 1]: the page asked for and one per redirect followed. *)
Theorem getAppleDocContent_request_bound url options maxDepth w :
  exists sent,
    requests (snd (Doc.getAppleDocContent P lacksPrimaryContent firstReferenceUrl
                     renderDoc url options maxDepth w))
    = requests w ++ sent
    /\ (List.length sent <= 3 * (maxDepth + 1))%nat.
Proof.
  destruct (atMost_getAppleDocContent maxDepth url options w) as (r & E & L).
  exists r. split; [done|lia].
Qed.

End DocFacts2.


Lemma getAppleDocContent_guards_witness :
  Doc.getAppleDocContent web (fun _ => Normal false) (fun _ => Normal None)
    (fun _ _ _ => Normal "page") "https://example.com/documentation/swiftui"
    (Doc.mkDocOptions None None None None) 2 emptyWorld
  = (Normal (VStr "Error: URL must be from developer.apple.com"), emptyWorld)
  /\ Doc.getAppleDocContent web (fun _ => Normal false) (fun _ => Normal None)
       (fun _ _ _ => Normal "page") "https://developer.apple.com.example.org/x/"
       (Doc.mkDocOptions None None None None) 2 emptyWorld
     = (Normal (VStr "Error: Invalid Apple Developer Documentation URL"), emptyWorld).
Proof.
  split.
  - apply (proj1 (getAppleDocContent_guards web (fun _ => Normal false)
                    (fun _ => Normal None) (fun _ _ _ => Normal "page")
                    "https://example.com/documentation/swiftui"
                    (Doc.mkDocOptions None None None None) 2 emptyWorld)).
    reflexivity.
  - apply (proj2 (getAppleDocContent_guards web (fun _ => Normal false)
                    (fun _ => Normal None) (fun _ _ _ => Normal "page")
                    "https://developer.apple.com.example.org/x/"
                    (Doc.mkDocOptions None None None None) 2 emptyWorld));
      reflexivity.
Defined.







(** ** The fallback suggestions of the symbol search *)

Lemma searchStep_eq item collections :
  Symbols.searchStep item collections =
    let collections :=
      if isCollection item then collections ++ [item] else collections in
    match Symbols.children item with
    | Some cs => Symbols.search cs collections
    | None => collections
    end.
Proof. destruct item; reflexivity. Qed.

Lemma nodesOf_eq item :
  nodesOf item =
    item :: match Symbols.children item with
            | Some cs => flat_map nodesOf cs
            | None => []
            end.
Proof. destruct item; reflexivity. Qed.

Lemma search_appends items :
  Forall (fun item => forall acc,
            Symbols.searchStep item acc
            = acc ++ List.filter isCollection (nodesOf item)) items ->
  forall acc,
    Symbols.search items acc
    = acc ++ List.filter isCollection (flat_map nodesOf items).
Proof.
  unfold Symbols.search.
  induction 1 as [|x r Hx _ IH]; intros acc; simpl.
  - by rewrite app_nil_r.
  - rewrite IH, Hx, List.filter_app, app_assoc. reflexivity.
Qed.

Lemma searchStep_appends item :
  forall acc,
    Symbols.searchStep item acc = acc ++ List.filter isCollection (nodesOf item).
Proof.
  induction item as [item IH] using IndexItem_nested_ind. intros acc.
  rewrite searchStep_eq, nodesOf_eq. cbv zeta. simpl List.filter.
  destruct (Symbols.children item) as [cs|] eqn:Hcs.
  - rewrite (search_appends cs (IH cs eq_refl)).
    destruct (isCollection item); [by rewrite <- app_assoc|done].
  - simpl. destruct (isCollection item); [done|by rewrite app_nil_r].
Qed.

(** X12: [findCollections] returns the nodes of type [collection] of the
    whole tree, at any depth, each once per occurrence and in document
    order (a node before its descendants, siblings left to right). *)
Theorem findCollections_is_preorder_filter items :
  Symbols.findCollections items
  = List.filter isCollection (flat_map nodesOf items).
Proof.
  unfold Symbols.findCollections.
  rewrite (search_appends items); [done|].
  apply Forall_forall. intros x _. apply searchStep_appends.
Qed.

Lemma sublist_flat_map {A B} (f g : A -> list B) l :
  Forall (fun x => sublist (f x) (g x)) l ->
  sublist (flat_map f l) (flat_map g l).
Proof.
  induction 1 as [|x r Hx _ IH]; simpl; [done|]. by apply sublist_app.
Qed.

Lemma matchesUnder_sublist symbolType namePattern item :
  forall depth,
    sublist (matchesUnder symbolType namePattern depth item)
            (List.filter (Symbols.selected symbolType namePattern) (nodesOf item)).
Proof.
  induction item as [item IH] using IndexItem_nested_ind. intros depth.
  rewrite matchesUnder_eq, nodesOf_eq. simpl List.filter.
  set (sel := Symbols.selected symbolType namePattern).
  assert (Hrest : sublist
            match Symbols.children item with
            | Some cs => if depth + 1 >? 6 then []
                         else flat_map (matchesUnder symbolType namePattern (depth + 1)) cs
            | None => []
            end
            (List.filter sel match Symbols.children item with
                             | Some cs => flat_map nodesOf cs
                             | None => []
                             end)).
  { destruct (Symbols.children item) as [cs|] eqn:Hcs; [|done].
    destruct (depth + 1 >? 6); [apply sublist_nil_l|].
    specialize (IH cs eq_refl).
    clear Hcs. induction IH as [|x r Hx _ IHr]; simpl; [done|].
    rewrite List.filter_app. apply sublist_app; [apply Hx|apply IHr]. }
  destruct (sel item); simpl; [by apply sublist_skip|done].
Qed.

Lemma matchesUnder_shallow symbolType namePattern item :
  forall levels depth,
    shallow levels item = true -> depth + Z.of_nat levels <= 7 ->
    matchesUnder symbolType namePattern depth item
    = List.filter (Symbols.selected symbolType namePattern) (nodesOf item).
Proof.
  induction item as [item IH] using IndexItem_nested_ind.
  intros levels depth Hs Hd.
  rewrite matchesUnder_eq, nodesOf_eq. simpl List.filter.
  destruct levels as [|n]; [discriminate|]. simpl in Hs.
  set (sel := Symbols.selected symbolType namePattern).
  assert (Hrest :
            match Symbols.children item with
            | Some cs => if depth + 1 >? 6 then []
                         else flat_map (matchesUnder symbolType namePattern (depth + 1)) cs
            | None => []
            end
            = List.filter sel match Symbols.children item with
                              | Some cs => flat_map nodesOf cs
                              | None => []
                              end).
  { destruct (Symbols.children item) as [cs|] eqn:Hcs; [|done].
    specialize (IH cs eq_refl).
    destruct (depth + 1 >? 6) eqn:Hdeep.
    - assert (n = 0%nat) as -> by lia.
      destruct cs as [|c cs']; [done|]. simpl in Hs. discriminate.
    - clear Hcs. induction IH as [|x r Hx _ IHr]; simpl; [done|].
      simpl in Hs. apply andb_true_iff in Hs as [Hx' Hr'].
      rewrite List.filter_app, (Hx n (depth + 1) Hx') by lia.
      f_equal. by apply IHr. }
  rewrite Hrest. by destruct (sel item).
Qed.

Lemma selected_collection item :
  Symbols.selected "collection" None item = isCollection item.
Proof. unfold Symbols.selected, isCollection. simpl. apply andb_true_r. Qed.

Lemma filter_selected_collection l :
  List.filter (Symbols.selected "collection" None) l = List.filter isCollection l.
Proof. apply List.filter_ext. intros a. apply selected_collection. Qed.

(** X13: the symbol search for type [collection] and the fallback
    suggestions.  What [findSymbolsRecursive] collects for the type
    [collection] without a name pattern is a subsequence of what
    [findCollections] returns, which has no depth bound and no limit;
    the two agree on a tree of at most seven levels when the limit does
    not cut. *)
Theorem findSymbolsRecursive_collections limit items :
  sublist (snd (Symbols.findSymbolsRecursive "collection" None limit items [] 0))
          (Symbols.findCollections items)
  /\ (Forall (fun item => shallow 7 item = true) items ->
      len (Symbols.findCollections items) <= limit ->
      snd (Symbols.findSymbolsRecursive "collection" None limit items [] 0)
      = Symbols.findCollections items).
Proof.
  destruct (findSymbolsRecursive_walks "collection" None limit 0 items []) as [H _].
  cbn beta in H. rewrite H. clear H. simpl app.
  unfold Symbols.findCollections.
  rewrite (search_appends items)
    by (apply Forall_forall; intros x _; apply searchStep_appends).
  simpl app. rewrite <- filter_selected_collection.
  unfold allMatches. change (0 >? 6) with false. cbv iota.
  split.
  - etrans; [apply sublist_take|].
    induction items as [|x r IH]; simpl; [done|].
    rewrite List.filter_app. apply sublist_app; [apply matchesUnder_sublist|apply IH].
  - intros Hs Hl.
    assert (E : flat_map (matchesUnder "collection" None 0) items
                = List.filter (Symbols.selected "collection" None)
                    (flat_map nodesOf items)).
    { clear Hl. induction Hs as [|x r Hx _ IHr]; simpl; [done|].
      rewrite List.filter_app, (matchesUnder_shallow _ _ x 7 0 Hx) by lia.
      by f_equal. }
    rewrite E in *. apply take_ge. unfold room, len in *. simpl. lia.
Qed.

Lemma findSymbolsRecursive_collections_witness :
  snd (Symbols.findSymbolsRecursive "collection" None 50 (firstn 1 collections) [] 0)
  = Symbols.findCollections (firstn 1 collections).
Proof.
  apply (proj2 (findSymbolsRecursive_collections 50 (firstn 1 collections))).
  - repeat constructor.
  - by vm_compute.
Defined.

(** The fallback on a tree with a deep chain: the walker stops at the
    seventh level, [findCollections] does not. *)
Example findCollections_example :
  List.length (Symbols.findCollections collections) = 9%nat
  /\ List.length (snd (Symbols.findSymbolsRecursive "collection" None 50
                         collections [] 0)) = 8%nat
  /\ map Symbols.title (Symbols.findCollections threeClasses) = [].
Proof. by vm_compute. Qed.



(** ** More on the sample-code pipeline *)

Lemma filter_filter_absorb {A} (f g : A -> bool) l :
  (forall x, f x = true -> g x = true) ->
  List.filter f (List.filter g l) = List.filter f l.
Proof.
  intros H. induction l as [|x r IH]; simpl; [done|].
  destruct (g x) eqn:Eg; simpl; [by rewrite IH|].
  destruct (f x) eqn:Ef; [|done]. apply H in Ef. congruence.
Qed.

Lemma filter_filter_and {A} (f g : A -> bool) l :
  List.filter f (List.filter g l) = List.filter (fun x => g x && f x) l.
Proof.
  induction l as [|x r IH]; simpl; [done|].
  destruct (g x); simpl; [|done]. destruct (f x); by rewrite IH.
Qed.

Lemma keys_mergeInto m c :
  map fst (Samples.mergeInto m c) =
    if bool_decide (Samples.s_path c ∈ map fst m) then map fst m
    else map fst m ++ [Samples.s_path c].
Proof.
  unfold Samples.mergeInto.
  destruct (Samples.mapGet _ m); apply keys_mapSet.
Qed.

Lemma keys_fold_mergeInto l :
  forall m,
    map fst (fold_left Samples.mergeInto l m) =
      map fst m
      ++ List.filter (fun y => bool_decide (y ∉ map fst m))
           (firstOccurrences (map Samples.s_path l)).
Proof.
  induction l as [|c l IH]; intros m; simpl.
  - by rewrite app_nil_r.
  - rewrite IH, keys_mergeInto.
    destruct (bool_decide (Samples.s_path c ∈ map fst m)) eqn:Hin.
    + apply bool_decide_eq_true_1 in Hin.
      rewrite (bool_decide_eq_false_2 (Samples.s_path c ∉ map fst m)) by tauto.
      f_equal. symmetry. apply filter_filter_absorb.
      intros x Hx. apply bool_decide_eq_true_1 in Hx.
      apply negb_true_iff, String.eqb_neq. by intros ->.
    + apply bool_decide_eq_false_1 in Hin.
      rewrite (bool_decide_eq_true_2 (Samples.s_path c ∉ map fst m)) by done.
      rewrite <- app_assoc. simpl. do 2 f_equal.
      rewrite filter_filter_and. apply List.filter_ext. intros x.
      destruct (String.eqb x (Samples.s_path c)) eqn:E; simpl.
      * apply String.eqb_eq in E. subst x. apply bool_decide_eq_false_2.
        intros H. apply H. apply elem_of_app. right. by left.
      * apply String.eqb_neq in E. apply bool_decide_ext.
        rewrite elem_of_app, list_elem_of_singleton. tauto.
Qed.

Lemma mapGet_fresh k m : k ∉ map fst m -> Samples.mapGet k m = None.
Proof.
  induction m as [|[k0 x] r IH]; simpl; [done|]. intros H.
  apply not_elem_of_cons in H as [Hne H].
  destruct (String.eqb k0 k) eqn:E; [|by apply IH].
  apply String.eqb_eq in E. congruence.
Qed.

Lemma mapSet_fresh k v m : k ∉ map fst m -> Samples.mapSet k v m = m ++ [(k, v)].
Proof.
  induction m as [|[k0 x] r IH]; simpl; [done|]. intros H.
  apply not_elem_of_cons in H as [Hne H].
  destruct (String.eqb k0 k) eqn:E.
  - apply String.eqb_eq in E. congruence.
  - by rewrite IH.
Qed.

Lemma fold_mergeInto_fresh l :
  forall m,
    NoDup (map fst m ++ map Samples.s_path l) ->
    fold_left Samples.mergeInto l m = m ++ map (fun c => (Samples.s_path c, c)) l.
Proof.
  induction l as [|c l IH]; intros m Hnd; simpl.
  - by rewrite app_nil_r.
  - simpl in Hnd.
    assert (Hc : Samples.s_path c ∉ map fst m).
    { apply NoDup_app in Hnd as (_ & Hd & _). intros Hin.
      apply (Hd _ Hin). by left. }
    unfold Samples.mergeInto at 2.
    rewrite (mapGet_fresh _ _ Hc), (mapSet_fresh _ _ _ Hc).
    rewrite IH; [by rewrite <- app_assoc|].
    rewrite map_app. simpl. rewrite <- app_assoc. exact Hnd.
Qed.

Lemma merged_nil : merged [] [].
Proof.
  split; [constructor|]. split; [done|]. intros d Hd. by apply elem_of_nil in Hd.
Qed.

Lemma merged_keys m l k v : merged m l -> (k, v) ∈ m -> Samples.s_path v = k.
Proof.
  intros (Hnd & Hgood & _) Hin. apply (elem_mapGet k v m Hnd) in Hin.
  by destruct (Hgood k v Hin).
Qed.

Lemma merged_paths m l : merged m l -> map Samples.s_path (map snd m) = map fst m.
Proof.
  intros H. rewrite map_map. apply map_ext_in. intros [k v] Hin. simpl.
  eapply merged_keys; [exact H|]. by apply list_elem_of_In.
Qed.

(** X14: the de-duplication keeps the order of first occurrence: the
    paths of the result are the distinct paths of the input, each at the
    place of its first occurrence; a list whose paths are already
    distinct is returned as it is. *)
Theorem deduplicate_keeps_first_occurrence_order
    (sampleCodes : list Samples.ParsedSampleCode) :
  map Samples.s_path (Samples.deduplicate sampleCodes)
  = firstOccurrences (map Samples.s_path sampleCodes)
  /\ (NoDup (map Samples.s_path sampleCodes) ->
      Samples.deduplicate sampleCodes = sampleCodes).
Proof.
  unfold Samples.deduplicate. split.
  - rewrite (merged_paths _ sampleCodes)
      by apply (fold_mergeInto_merged sampleCodes [] [] merged_nil).
    rewrite keys_fold_mergeInto. simpl.
    induction (firstOccurrences _) as [|x r IH]; [done|].
    cbn [List.filter]. by rewrite IH.
  - intros Hnd. rewrite fold_mergeInto_fresh by done. simpl.
    rewrite map_map. simpl. apply map_id.
Qed.

Lemma deduplicate_keeps_first_occurrence_order_witness :
  Samples.deduplicate [plainSample] = [plainSample].
Proof.
  apply (proj2 (deduplicate_keeps_first_occurrence_order [plainSample])).
  repeat constructor. apply not_elem_of_nil.
Defined.

Lemma find_app_Some {A} (f : A -> bool) l k x :
  List.find f l = Some x -> List.find f (l ++ k) = Some x.
Proof. induction l as [|y r IH]; simpl; [done|]. destruct (f y); auto. Qed.

Lemma find_app_None {A} (f : A -> bool) l k :
  List.find f l = None -> List.find f (l ++ k) = List.find f k.
Proof. induction l as [|y r IH]; simpl; [done|]. destruct (f y); [done|auto]. Qed.

Lemma find_none_iff {A} (f : A -> bool) l :
  (forall x, x ∈ l -> f x = false) -> List.find f l = None.
Proof.
  induction l as [|y r IH]; simpl; intros H; [done|].
  rewrite (H y) by (by left). apply IH. intros x Hx. apply H. by right.
Qed.

Lemma orElse_hasFramework c (b : option string) :
  orElse (Samples.s_framework c) b
  = if hasFramework c then Samples.s_framework c else b.
Proof. unfold hasFramework. by destruct (Samples.s_framework c) as [[|]|]. Qed.

Lemma mergeInto_provenance m l c :
  merged m l -> provenance m l ->
  provenance (Samples.mergeInto m c) (l ++ [c]).
Proof.
  intros (Hnd & Hgood & Hall) Hprov k v.
  unfold firstWith, lastFrameworkWith. rewrite rev_unit. simpl List.find.
  unfold Samples.mergeInto.
  destruct (Samples.mapGet (Samples.s_path c) m) as [existing|] eqn:Hget;
    rewrite mapGet_mapSet;
    destruct (String.eqb (Samples.s_path c) k) eqn:E.
  - apply String.eqb_eq in E. subst k. intros [= <-].
    destruct (Hprov _ _ Hget) as (first & Hf & Ht & Hu & Hd & Hfw).
    exists first. simpl. repeat split; try done.
    + by apply find_app_Some.
    + rewrite orElse_hasFramework. by destruct (hasFramework c).
  - intros Hv. destruct (Hprov _ _ Hv) as (first & Hf & Ht & Hu & Hd & Hfw).
    exists first. repeat split; try done. by apply find_app_Some.
  - apply String.eqb_eq in E. subst k. intros [= <-].
    assert (Hno : forall d, d ∈ l ->
              String.eqb (Samples.s_path d) (Samples.s_path c) = false).
    { intros d Hd. apply String.eqb_neq. intros Hp.
      apply (Hall d Hd). by rewrite Hp. }
    exists c. repeat split.
    + rewrite find_app_None by (by apply find_none_iff).
      simpl. by rewrite String.eqb_refl.
    + destruct (hasFramework c); simpl; [done|].
      rewrite find_none_iff; [done|].
      intros d Hd. apply list_elem_of_In, in_rev, list_elem_of_In in Hd.
      by rewrite (Hno d Hd).
  - intros Hv. destruct (Hprov _ _ Hv) as (first & Hf & Ht & Hu & Hd & Hfw).
    exists first. repeat split; try done. by apply find_app_Some.
Qed.

Lemma fold_mergeInto_provenance l :
  forall m l0,
    merged m l0 -> provenance m l0 ->
    provenance (fold_left Samples.mergeInto l m) (l0 ++ l).
Proof.
  induction l as [|c l IH]; intros m l0 Hm Hp; simpl.
  - by rewrite app_nil_r.
  - replace (l0 ++ c :: l) with ((l0 ++ [c]) ++ l) by (by rewrite <- app_assoc).
    apply IH; [by apply mergeInto_merged|by apply mergeInto_provenance].
Qed.

(** X15: which duplicate gives what.  The record kept for a path has the
    title, the URL and the description of the first record with that
    path, and the framework of the last one whose framework is present
    and not empty (of the first one, if there is none). *)
Theorem deduplicate_first_title_last_framework
    (sampleCodes : list Samples.ParsedSampleCode) r :
  r ∈ Samples.deduplicate sampleCodes ->
  exists first,
    firstWith (Samples.s_path r) sampleCodes = Some first
    /\ Samples.s_title r = Samples.s_title first
    /\ Samples.s_url r = Samples.s_url first
    /\ Samples.s_description r = Samples.s_description first
    /\ Samples.s_framework r
       = match lastFrameworkWith (Samples.s_path r) sampleCodes with
         | Some d => Samples.s_framework d
         | None => Samples.s_framework first
         end.
Proof.
  unfold Samples.deduplicate. intros Hr.
  apply list_elem_of_fmap in Hr as ([k v] & -> & Hin). simpl.
  pose proof (fold_mergeInto_merged sampleCodes [] [] merged_nil) as Hm.
  simpl in Hm.
  rewrite (merged_keys _ _ _ _ Hm Hin).
  apply (fold_mergeInto_provenance sampleCodes [] [] merged_nil); [done|].
  destruct Hm as (Hnd & _). by apply elem_mapGet.
Qed.

Lemma deduplicate_first_title_last_framework_witness :
  exists first,
    firstWith "/documentation/swiftui/landmarks" [plainSample; featuredBetaSample]
    = Some first
    /\ Samples.s_title plainSample = Samples.s_title first.
Proof.
  destruct (deduplicate_first_title_last_framework
              [plainSample; featuredBetaSample]
              (Samples.mkSample "Landmarks" (Some "SwiftUI") None true true
                 "https://developer.apple.com/documentation/swiftui/landmarks"
                 "/documentation/swiftui/landmarks" 1))
    as (first & Hf & Ht & _).
  - vm_compute. by left.
  - exists first. split; [exact Hf|exact Ht].
Defined.

Lemma fold_mergeInto_preserves (Q : Samples.ParsedSampleCode -> Prop) l :
  (forall code existing,
     Q code -> Q existing -> Samples.s_path existing = Samples.s_path code ->
     Q (mergeRecords code existing)) ->
  forall m l0,
    merged m l0 ->
    (forall k v, Samples.mapGet k m = Some v -> Q v) ->
    Forall Q l ->
    forall k v, Samples.mapGet k (fold_left Samples.mergeInto l m) = Some v -> Q v.
Proof.
  intros Hmerge. induction l as [|c l IH]; intros m l0 Hm HQ Hl; simpl; [done|].
  apply Forall_cons in Hl as [Hc Hl].
  apply (IH _ (l0 ++ [c])); [by apply mergeInto_merged| |done].
  intros k v. unfold Samples.mergeInto.
  destruct (Samples.mapGet (Samples.s_path c) m) as [existing|] eqn:Hget;
    rewrite mapGet_mapSet;
    destruct (String.eqb (Samples.s_path c) k) eqn:E; try apply HQ.
  - intros [= <-]. apply Hmerge; [done|by apply (HQ _ _ Hget)|].
    destruct Hm as (_ & Hgood & _). by destruct (Hgood _ _ Hget).
  - by intros [= <-].
Qed.

Lemma deduplicate_preserves (Q : Samples.ParsedSampleCode -> Prop) l :
  (forall code existing,
     Q code -> Q existing -> Samples.s_path existing = Samples.s_path code ->
     Q (mergeRecords code existing)) ->
  Forall Q l -> Forall Q (Samples.deduplicate l).
Proof.
  intros Hmerge Hl. unfold Samples.deduplicate.
  apply Forall_forall. intros r Hr.
  apply list_elem_of_fmap in Hr as ([k v] & -> & Hin). simpl.
  apply (fold_mergeInto_preserves Q l Hmerge [] [] merged_nil (fun _ _ H => ltac:(discriminate H))
           Hl k).
  destruct (fold_mergeInto_merged l [] [] merged_nil) as (Hnd & _).
  by apply elem_mapGet.
Qed.

Lemma wellFormed_mergeRecords featuredIds minDepth code existing :
  wellFormed featuredIds minDepth code ->
  wellFormed featuredIds minDepth existing ->
  Samples.s_path existing = Samples.s_path code ->
  wellFormed featuredIds minDepth (mergeRecords code existing).
Proof.
  intros (Hp & Hu & Hf & Hd & Hft & Hz) (Hp' & Hu' & Hf' & Hd' & Hft' & Hz') E.
  unfold wellFormed, mergeRecords. simpl. repeat split; try done.
  - by destruct (Samples.s_framework code) as [[|]|].
  - rewrite Hft, Hft', E. apply orb_diag.
  - lia.
Qed.

Lemma wellFormed_weaken featuredIds d d' r :
  d <= d' -> wellFormed featuredIds d' r -> wellFormed featuredIds d r.
Proof. intros Hd (? & ? & ? & ? & ? & ?). repeat split; try done. lia. Qed.

Section SampleRecordFacts.
Variable normalizeFramework : string -> string.
Variable frameworkMap : gmap string string.
Variable featuredIds : gset string.

#[local] Notation "'visit'" :=
  (Samples.processSampleCodeNode normalizeFramework frameworkMap featuredIds).

Lemma fold_pushesAll {B} Q
    (f : list Samples.ParsedSampleCode -> B -> _) (nodes : list B) :
  Forall (fun n => pushesAll Q (fun acc => f acc n)) nodes ->
  pushesAll Q (fold_left f nodes).
Proof.
  induction 1 as [|x rest Hx _ IH]; intros sampleCodes; simpl.
  - exists []. by rewrite app_nil_r.
  - destruct (Hx sampleCodes) as (p1 & E1 & Q1).
    destruct (IH (f sampleCodes x)) as (p2 & E2 & Q2).
    exists (p1 ++ p2). split; [by rewrite E2, E1, app_assoc|by apply Forall_app].
Qed.

Lemma processSampleCodeNode_wellFormed node :
  forall fw depth,
    pushesAll (wellFormed featuredIds depth) (fun acc => visit fw depth acc node).
Proof.
  induction node as [node IH] using Node_nested_ind.
  intros fw depth sampleCodes. cbv beta. rewrite processSampleCodeNode_eq.
  assert (Hnone : exists pushed,
             sampleCodes = sampleCodes ++ pushed
             /\ Forall (wellFormed featuredIds depth) pushed).
  { exists []. by rewrite app_nil_r. }
  assert (Hkids : forall fw' cs, Samples.children node = Some cs ->
             exists pushed,
               fold_left (visit fw' (depth + 1)) cs sampleCodes = sampleCodes ++ pushed
               /\ Forall (wellFormed featuredIds depth) pushed).
  { intros fw' cs Hcs.
    destruct (fold_pushesAll (wellFormed featuredIds (depth + 1))
                (visit fw' (depth + 1)) cs) with (sampleCodes := sampleCodes)
      as (p & E & Hp).
    { eapply Forall_impl; [exact (IH cs Hcs)|]. intros x Hx. apply Hx. }
    exists p. split; [done|].
    eapply Forall_impl; [exact Hp|]. intros r. apply wellFormed_weaken. lia. }
  destruct (String.eqb (Samples.type node) "groupMarker").
  { destruct (Samples.children node) as [cs|]; [by apply Hkids|exact Hnone]. }
  destruct (String.eqb (Samples.type node) "sampleCode") eqn:Hty.
  2:{ destruct (Samples.children node) as [cs|]; [by apply Hkids|exact Hnone]. }
  destruct (Samples.path node) as [[|c p]|] eqn:Hpath.
  1,3: destruct (Samples.children node) as [cs|]; [by apply Hkids|exact Hnone].
  eexists [_]. split; [reflexivity|].
  constructor; [|constructor].
  unfold wellFormed. cbn [Samples.s_path Samples.s_url Samples.s_framework
                          Samples.s_description Samples.s_featured Samples.s_depth].
  repeat split; try done; try lia.
  unfold orElse. by destruct (normalizeFramework _).
Qed.

(** X16: the records the listing works on.  Whatever the index trees
    are, every record that the walker builds from them and the
    de-duplication keeps has a non-empty path, the URL made of the Apple
    host and that path, a framework that is absent rather than empty, no
    description, the [featured] flag of its path, and a depth that is
    not negative. *)
Theorem parsed_samples_wellFormed
    (languages : list (list Samples.SampleCodeIndexNode)) :
  Forall (wellFormed featuredIds 0)
    (Samples.deduplicate
       (fold_left
          (fun acc nodes =>
             Samples.processSampleCodeNodes normalizeFramework frameworkMap
               featuredIds nodes acc "" 0)
          languages [])).
Proof.
  apply deduplicate_preserves; [apply wellFormed_mergeRecords|].
  destruct (fold_pushesAll (wellFormed featuredIds 0)
              (fun acc nodes =>
                 Samples.processSampleCodeNodes normalizeFramework frameworkMap
                   featuredIds nodes acc "" 0) languages) with (sampleCodes := @nil Samples.ParsedSampleCode)
    as (p & E & Hp).
  - apply Forall_forall. intros nodes _. unfold Samples.processSampleCodeNodes.
    apply fold_pushesAll. apply Forall_forall. intros n _.
    apply processSampleCodeNode_wellFormed.
  - by rewrite E.
Qed.

End SampleRecordFacts.

(** ** Filtering, sorting and cutting the sample list *)

Lemma filter_sublist {A} (f : A -> bool) l : sublist (List.filter f l) l.
Proof.
  induction l as [|x r IH]; simpl; [done|].
  destruct (f x); [by apply sublist_skip|by apply sublist_cons].
Qed.

Lemma elem_of_List_filter {A} (f : A -> bool) l x :
  x ∈ List.filter f l <-> x ∈ l /\ f x = true.
Proof. rewrite !list_elem_of_In. apply filter_In. Qed.

Section SampleSelection.
Variable P : Platform.
Variable normalizeFramework : string -> string.

#[local] Notation "'filterResults'" := (Samples.filterResults normalizeFramework).
#[local] Notation "'matchesFramework'" := (Samples.matchesFramework normalizeFramework).

(** X17: the filters combine as a conjunction and keep the order.  A
    record passes exactly when it passes the framework filter (if a
    non-empty framework is given), the beta filter ([exclude] keeps the
    records that are not beta, [only] those that are, any other value
    all) and the search filter (if a non-empty query is given). *)
Theorem filterResults_conjunction framework beta searchQuery results :
  sublist (filterResults framework beta searchQuery results) results
  /\ forall c,
       c ∈ filterResults framework beta searchQuery results
       <-> c ∈ results
           /\ (forall fw, framework = Some fw -> fw <> "" ->
                 matchesFramework (toLowerCase (normalizeFramework fw)) c = true)
           /\ (beta = "exclude" -> Samples.s_beta c = false)
           /\ (beta = "only" -> Samples.s_beta c = true)
           /\ (forall q, searchQuery = Some q -> q <> "" ->
                 Samples.matchesQuery (toLowerCase q) c = true).
Proof.
  unfold Samples.filterResults.
  set (r1 := match framework with
             | Some (String _ _ as fw) => List.filter _ results
             | _ => results
             end).
  set (r2 := if String.eqb beta "exclude" then _ else _).
  assert (H1 : sublist r1 results
               /\ forall c, c ∈ r1 <-> c ∈ results
                  /\ (forall fw, framework = Some fw -> fw <> "" ->
                        matchesFramework (toLowerCase (normalizeFramework fw)) c = true)).
  { unfold r1. destruct framework as [[|a fw]|].
    - split; [done|]. intros c. split; [|tauto]. intros H. split; [done|].
      by intros fw [= <-].
    - split; [apply filter_sublist|]. intros c. rewrite elem_of_List_filter.
      split; intros [Hc H]; (split; [done|]).
      + by intros fw' [= <-] _.
      + by apply H.
    - split; [done|]. intros c. split; [|tauto]. intros H. split; [done|].
      by intros fw [=]. }
  assert (H2 : sublist r2 r1
               /\ forall c, c ∈ r2 <-> c ∈ r1
                  /\ (beta = "exclude" -> Samples.s_beta c = false)
                  /\ (beta = "only" -> Samples.s_beta c = true)).
  { unfold r2. destruct (String.eqb beta "exclude") eqn:Ex.
    - apply String.eqb_eq in Ex. subst beta.
      split; [apply filter_sublist|]. intros c. rewrite elem_of_List_filter.
      rewrite negb_true_iff. split; [intros [? ?]|intros (? & H & _)]; auto.
      repeat split; auto. discriminate.
    - apply String.eqb_neq in Ex. destruct (String.eqb beta "only") eqn:Eo.
      + apply String.eqb_eq in Eo. subst beta.
        split; [apply filter_sublist|]. intros c. rewrite elem_of_List_filter.
        split; [intros [? ?]|intros (? & _ & H)]; auto.
        repeat split; auto. discriminate.
      + apply String.eqb_neq in Eo. split; [done|]. intros c.
        split; [|tauto]. intros H. repeat split; [done|by intros ->..]. }
  destruct H1 as [S1 M1], H2 as [S2 M2].
  destruct searchQuery as [[|a q]|].
  - split; [by etrans|]. intros c. rewrite M2, M1.
    split; [|tauto]. intros ((? & ?) & ? & ?). repeat split; try done.
    by intros q [= <-].
  - split; [etrans; [apply filter_sublist|by etrans]|].
    intros c. rewrite elem_of_List_filter, M2, M1.
    split.
    + intros (((? & ?) & ? & ?) & ?). repeat split; try done.
      by intros q' [= <-] _.
    + intros (? & ? & ? & ? & H). repeat split; try done. by apply H.
  - split; [by etrans|]. intros c. rewrite M2, M1.
    split; [|tauto]. intros ((? & ?) & ? & ?). repeat split; done.
Qed.

Hypothesis collation : Collation (localeCompare P).

#[local] Notation "'cmp'" := (Samples.compareSamples P).
#[local] Notation "'le'" := (notAfter P).

Lemma compareSamples_antisym a b : cmp a b = CompOpp (cmp b a).
Proof.
  unfold Samples.compareSamples.
  destruct (Samples.s_featured a), (Samples.s_featured b); simpl; try done;
    apply (collation_antisym _ collation).
Qed.

Lemma localeCompare_le_trans a b c :
  localeCompare P a b <> Gt -> localeCompare P b c <> Gt ->
  localeCompare P a c <> Gt.
Proof.
  intros H1 H2.
  destruct (localeCompare P a b) eqn:E1; [| |done].
  - apply (collation_eq _ collation) in E1. by subst.
  - destruct (localeCompare P b c) eqn:E2; [| |done].
    + apply (collation_eq _ collation) in E2. subst. by rewrite E1.
    + by rewrite (collation_trans _ collation a b c E1 E2).
Qed.

Lemma notAfter_trans a b c : le a b -> le b c -> le a c.
Proof.
  unfold notAfter, Samples.compareSamples.
  destruct (Samples.s_featured a), (Samples.s_featured b),
    (Samples.s_featured c); simpl; try done; apply localeCompare_le_trans.
Qed.

Lemma insertSample_perm c l : Samples.insertSample P c l ≡ₚ c :: l.
Proof.
  induction l as [|x r IH]; simpl; [done|].
  destruct (cmp c x); try done. rewrite IH. apply perm_swap.
Qed.

Lemma sortSamples_perm l : Samples.sortSamples P l ≡ₚ l.
Proof.
  induction l as [|x r IH]; simpl; [done|].
  rewrite insertSample_perm. by rewrite IH.
Qed.

Lemma insertSample_sorted c l :
  StronglySorted le l -> StronglySorted le (Samples.insertSample P c l).
Proof.
  induction 1 as [|x r Hr IH Hx]; simpl.
  - repeat constructor.
  - destruct (cmp c x) eqn:E.
    + constructor; [by constructor|]. constructor.
      * unfold notAfter. by rewrite E.
      * eapply Forall_impl; [exact Hx|]. intros y Hy.
        apply (notAfter_trans c x y); [|done]. unfold notAfter. by rewrite E.
    + constructor; [by constructor|]. constructor.
      * unfold notAfter. by rewrite E.
      * eapply Forall_impl; [exact Hx|]. intros y Hy.
        apply (notAfter_trans c x y); [|done]. unfold notAfter. by rewrite E.
    + constructor; [exact IH|].
      rewrite insertSample_perm. constructor; [|done].
      unfold notAfter. rewrite compareSamples_antisym, E. done.
Qed.

Lemma sortSamples_sorted l : StronglySorted le (Samples.sortSamples P l).
Proof.
  induction l as [|x r IH]; simpl; [constructor|]. by apply insertSample_sorted.
Qed.

(** X18: for a collation that is a total order on titles, the sort
    stage rearranges the records so that none comes after a later one:
    a featured record before every record that is not, and among records
    of the same kind the titles in collation order. *)
Theorem sortSamples_featured_then_title results :
  Samples.sortSamples P results ≡ₚ results
  /\ StronglySorted le (Samples.sortSamples P results)
  /\ forall before a after b rest,
       Samples.sortSamples P results = before ++ a :: after ++ b :: rest ->
       (Samples.s_featured b = true -> Samples.s_featured a = true)
       /\ (Samples.s_featured a = Samples.s_featured b ->
           localeCompare P (Samples.s_title a) (Samples.s_title b) <> Gt).
Proof.
  split; [apply sortSamples_perm|]. split; [apply sortSamples_sorted|].
  intros before a after b rest E.
  pose proof (sortSamples_sorted results) as Hs. rewrite E in Hs.
  apply StronglySorted_app_1_r in Hs.
  apply StronglySorted_inv in Hs as [_ Ha].
  apply Forall_app in Ha as [_ Ha]. apply Forall_cons in Ha as [Hab _].
  revert Hab. unfold notAfter, Samples.compareSamples.
  destruct (Samples.s_featured a), (Samples.s_featured b); simpl; try done.
Qed.

Lemma insertSample_featuredFirst c l :
  StronglySorted featuredFirst l ->
  StronglySorted featuredFirst (Samples.insertSample P c l).
Proof.
  induction 1 as [|x r Hr IH Hx]; simpl.
  - repeat constructor.
  - assert (Hnot : cmp c x <> Gt ->
                   StronglySorted featuredFirst (c :: x :: r)).
    { intros Hc. constructor; [by constructor|].
      assert (Hcx : featuredFirst c x).
      { revert Hc. unfold featuredFirst, Samples.compareSamples.
        destruct (Samples.s_featured c), (Samples.s_featured x); simpl; done. }
      constructor; [exact Hcx|].
      eapply Forall_impl; [exact Hx|]. intros y Hy Hfy. apply Hcx, Hy, Hfy. }
    destruct (cmp c x) eqn:E; [by apply Hnot|by apply Hnot|].
    constructor; [exact IH|].
    rewrite insertSample_perm. constructor; [|done].
    revert E. unfold featuredFirst, Samples.compareSamples.
    destruct (Samples.s_featured c), (Samples.s_featured x); simpl; done.
Qed.

Lemma sortSamples_featuredFirst l :
  StronglySorted featuredFirst (Samples.sortSamples P l).
Proof.
  induction l as [|x r IH]; simpl; [constructor|].
  by apply insertSample_featuredFirst.
Qed.

(** X19: the cut.  With a limit that is not negative, at most [limit]
    records are shown, they are the first of the sorted list, the count
    reported is that of the records that passed the filters, and no
    record that is not featured is shown unless every featured record
    that passed the filters is shown too; this holds whatever the
    collation of the titles is. *)
Theorem selectSamples_cut framework beta searchQuery limit results :
  0 <= limit ->
  let filtered := filterResults framework beta searchQuery results in
  let shown :=
    fst (Samples.selectSamples P normalizeFramework framework beta searchQuery
           limit results) in
  shown = take (Z.to_nat limit) (Samples.sortSamples P filtered)
  /\ len shown = Z.min limit (len filtered)
  /\ snd (Samples.selectSamples P normalizeFramework framework beta searchQuery
            limit results) = len filtered
  /\ forall c f,
       c ∈ shown -> Samples.s_featured c = false ->
       f ∈ filtered -> Samples.s_featured f = true -> f ∈ shown.
Proof.
  intros Hl filtered shown.
  assert (E : shown = take (Z.to_nat limit) (Samples.sortSamples P filtered)).
  { unfold shown, Samples.selectSamples, JS.sliceTo. simpl.
    destruct (limit <? 0) eqn:El; [lia|done]. }
  split; [exact E|]. split; [|split; [done|]].
  - rewrite E. unfold len. rewrite length_take.
    rewrite (Permutation_length (sortSamples_perm filtered)). lia.
  - intros c f Hc Hcf Hf Hff. rewrite E in *.
    assert (Hf' : f ∈ Samples.sortSamples P filtered)
      by (by rewrite sortSamples_perm).
    rewrite <- (take_drop (Z.to_nat limit) (Samples.sortSamples P filtered)) in Hf'.
    apply elem_of_app in Hf' as [Hf'|Hf']; [done|exfalso].
    pose proof (sortSamples_featuredFirst filtered) as Hs.
    rewrite <- (take_drop (Z.to_nat limit) (Samples.sortSamples P filtered)) in Hs.
    pose proof (StronglySorted_app_1_elem_of _ _ _ c f Hs Hc Hf') as Ha.
    specialize (Ha Hff). congruence.
Qed.

End SampleSelection.

Lemma sortSamples_featured_then_title_witness :
  Samples.sortSamples offline fourSamples ≡ₚ fourSamples
  /\ map Samples.s_title (Samples.sortSamples offline fourSamples)
     = ["Bonjour"; "Maps"; "Audio"; "Zoo"].
Proof.
  split; [|reflexivity].
  apply (proj1 (sortSamples_featured_then_title offline compare_Collation fourSamples)).
Defined.

Lemma selectSamples_cut_witness :
  fst (Samples.selectSamples offline (fun s => s) None "exclude" None 1 fourSamples)
  = take (Z.to_nat 1)
      (Samples.sortSamples offline
         (Samples.filterResults (fun s => s) None "exclude" None fourSamples)).
Proof.
  apply (selectSamples_cut offline (fun s => s)
           None "exclude" None 1 fourSamples).
  lia.
Defined.

(** The selection on four samples: filters, featured first, titles in
    order, the cut, and a negative limit, which drops from the end. *)
Example selectSamples_examples :
  (let '(shown, totalFound) :=
     Samples.selectSamples offline (fun s => s) None "include" None 3 fourSamples in
   (map Samples.s_title shown, totalFound))
  = (["Bonjour"; "Maps"; "Audio"], 4)
  /\ map Samples.s_title
       (fst (Samples.selectSamples offline (fun s => s) None "exclude" None 50
               fourSamples))
     = ["Audio"; "Zoo"]
  /\ map Samples.s_title
       (fst (Samples.selectSamples offline (fun s => s) (Some "mapkit") "only" None 50
               fourSamples))
     = ["Maps"]
  /\ map Samples.s_title
       (fst (Samples.selectSamples offline (fun s => s) None "include" (Some "ZO") 50
               fourSamples))
     = ["Zoo"]
  /\ map Samples.s_title
       (fst (Samples.selectSamples offline (fun s => s) None "include" None (-1)
               fourSamples))
     = ["Bonjour"; "Maps"; "Audio"].
Proof. by vm_compute. Qed.

(** ** Identifiers and the technology filters *)

Lemma startsWith_http_not_doc id :
  startsWith id "http" = true -> startsWith id "doc://" = false.
Proof.
  unfold startsWith. destruct id as [|c r]; [done|].
  rewrite !prefix_cons.
  destruct (ascii_dec "h" c) as [<-|]; [|done]. intros _.
  by destruct (ascii_dec "d" "h").
Qed.

Lemma prefix_append (a b : string) : String.prefix a (a +:+ b) = true.
Proof.
  induction a as [|c a IH]; [apply prefix_empty|].
  rewrite append_cons, prefix_cons. by destruct (ascii_dec c c).
Qed.

Lemma dropHost_host host path :
  noSlash host = true -> dropHost (host +:+ String "/" path) = String "/" path.
Proof.
  induction host as [|c host IH]; [done|]. simpl noSlash.
  intros [Hc Hh]%andb_true_iff. rewrite append_cons.
  cbn [dropHost]. apply negb_true_iff in Hc. rewrite Hc. auto.
Qed.

(** X20: identifiers to web URLs.  The result always starts with
    [http]; converting it again changes nothing; a [doc://] identifier
    with a host and a path becomes the Apple host followed by that path;
    and the copy of the function in lib/format.ts computes the same. *)
Theorem identifierToWebUrl_result id :
  startsWith (Technologies.identifierToWebUrl id) "http" = true
  /\ Technologies.identifierToWebUrl (Technologies.identifierToWebUrl id)
     = Technologies.identifierToWebUrl id
  /\ Format.identifierToUrl id = Technologies.identifierToWebUrl id
  /\ forall host path,
       host <> "" -> noSlash host = true ->
       id = "doc://" +:+ host +:+ String "/" path ->
       Technologies.identifierToWebUrl id
       = "https://developer.apple.com" +:+ String "/" path.
Proof.
  assert (H1 : startsWith (Technologies.identifierToWebUrl id) "http" = true).
  { unfold Technologies.identifierToWebUrl.
    destruct (startsWith id "doc://"); [done|].
    destruct (startsWith id "http") eqn:E; [done|].
    by destruct (startsWith id "/"). }
  split; [exact H1|]. split; [|split; [done|]].
  - set (r := Technologies.identifierToWebUrl id) in *.
    unfold Technologies.identifierToWebUrl at 1.
    by rewrite (startsWith_http_not_doc r H1), H1.
  - intros host path Hne Hns ->.
    unfold Technologies.identifierToWebUrl.
    unfold startsWith at 1. rewrite prefix_append. cbv zeta. f_equal. unfold stripDocHost.
    change (sliceFrom 6 ("doc://" +:+ host +:+ String "/" path))
      with (host +:+ String "/" path).
    destruct host as [|c host]; [done|]. rewrite append_cons.
    simpl in Hns. apply andb_true_iff in Hns as [Hc Hh].
    apply negb_true_iff in Hc. rewrite Hc.
    rewrite <- append_cons. apply dropHost_host. simpl. by rewrite Hc.
Qed.

Lemma identifierToWebUrl_result_witness :
  Technologies.identifierToWebUrl "doc://com.apple.SwiftUI/documentation/SwiftUI/View"
  = "https://developer.apple.com/documentation/SwiftUI/View".
Proof.
  apply (proj2 (proj2 (proj2 (identifierToWebUrl_result
           "doc://com.apple.SwiftUI/documentation/SwiftUI/View")))
           "com.apple.SwiftUI" "documentation/SwiftUI/View").
  - discriminate.
  - reflexivity.
  - reflexivity.
Defined.

(** The cases of the repository's tests of [identifierToUrl], and a
    [doc://] identifier without a host, which is not rewritten. *)
Example identifierToUrl_tests :
  Format.identifierToUrl "doc://com.apple.SwiftUI/documentation/SwiftUI/View"
  = "https://developer.apple.com/documentation/SwiftUI/View"
  /\ Format.identifierToUrl "doc://com.apple.documentation/tutorials/swiftui-concepts"
     = "https://developer.apple.com/tutorials/swiftui-concepts"
  /\ Format.identifierToUrl "https://developer.apple.com/documentation/SwiftUI"
     = "https://developer.apple.com/documentation/SwiftUI"
  /\ Format.identifierToUrl "/documentation/SwiftUI/View"
     = "https://developer.apple.com/documentation/SwiftUI/View"
  /\ Format.identifierToUrl "SwiftUI/View"
     = "https://developer.apple.com/documentation/SwiftUI/View"
  /\ Format.identifierToUrl "doc://com.apple.SwiftUI"
     = "https://developer.apple.com"
  /\ Format.identifierToUrl "doc:///documentation/x"
     = "https://developer.apple.comdoc:///documentation/x".
Proof. by vm_compute. Qed.

Section TechnologyFilters.
Variable category : option string.
Variable language : option string.
Variable includeBeta : option bool.

#[local] Notation "'applyFilters'" :=
  (Technologies.applyFilters category language includeBeta).
#[local] Notation "'filterGroup'" :=
  (Technologies.filterGroup category language includeBeta).

Lemma allTechnologies_nonEmptyGroups_cons g rest :
  allTechnologies (Technologies.nonEmptyGroups (Some g :: rest))
  = Technologies.technologies g
    ++ allTechnologies (Technologies.nonEmptyGroups rest).
Proof.
  by destruct g as [n [|t ts]].
Qed.

Lemma limitGroups_take limit groups :
  forall total,
    allTechnologies
      (Technologies.nonEmptyGroups (Technologies.limitGroups limit total groups))
    = take (Z.to_nat (limit - total)) (allTechnologies groups).
Proof.
  induction groups as [|g r IH]; intros total.
  - unfold allTechnologies. simpl. by rewrite take_nil.
  - cbn [Technologies.limitGroups]. cbv zeta.
    destruct (limit - total <=? 0) eqn:E.
    + change (Technologies.nonEmptyGroups (None :: ?l))
        with (Technologies.nonEmptyGroups l).
      rewrite IH. replace (Z.to_nat (limit - total)) with 0%nat by lia.
      by rewrite !take_0.
    + rewrite allTechnologies_nonEmptyGroups_cons, IH.
      cbn [Technologies.technologies]. unfold sliceTo.
      destruct (limit - total <? 0) eqn:E'; [lia|].
      unfold allTechnologies. simpl flat_map. rewrite take_app. f_equal.
      f_equal. unfold len. rewrite length_take. lia.
Qed.

Lemma filterGroup_nonempty g f :
  filterGroup g = Some f -> Technologies.technologies f <> [].
Proof.
  unfold Technologies.filterGroup. destruct (_ && _); [done|].
  destruct (len _ >? 0) eqn:E; [|done]. intros [= <-]. simpl.
  intros H. rewrite H in E. done.
Qed.

(** X21: the limit of the technology list counts technologies, not
    groups.  With a limit that is not negative the technologies listed
    are the first [limit] of those listed without a limit, in the same
    order (so a limit of 0 lists nothing); with a negative limit nothing
    is cut; and in every case no group is listed empty. *)
Theorem applyFilters_limit limit groups :
  (forall n, limit = Some n -> 0 <= n ->
     allTechnologies (applyFilters limit groups)
     = take (Z.to_nat n) (allTechnologies (applyFilters None groups)))
  /\ (forall n, limit = Some n -> n < 0 ->
        applyFilters limit groups = applyFilters None groups)
  /\ Forall (fun g => Technologies.technologies g <> []) (applyFilters limit groups).
Proof.
  assert (Hne : Forall (fun g => Technologies.technologies g <> [])
                  (omap filterGroup groups)).
  { apply Forall_forall. intros f Hf.
    apply list_elem_of_omap in Hf as (g & _ & Hg). by eapply filterGroup_nonempty. }
  split; [|split].
  - intros n -> Hn. unfold Technologies.applyFilters.
    destruct (n >=? 0) eqn:E; [|lia].
    destruct (n =? 0) eqn:E0.
    + replace (Z.to_nat n) with 0%nat by lia. by rewrite take_0.
    + rewrite limitGroups_take. by rewrite Z.sub_0_r.
  - intros n -> Hn. unfold Technologies.applyFilters.
    destruct (n >=? 0) eqn:E; [lia|done].
  - unfold Technologies.applyFilters. destruct limit as [n|]; [|exact Hne].
    destruct (n >=? 0); [|exact Hne]. destruct (n =? 0); [constructor|].
    apply Forall_forall. intros g Hg. unfold Technologies.nonEmptyGroups in Hg.
    apply list_elem_of_omap in Hg as ([g0|] & _ & Hg0); [|done].
    destruct (len (Technologies.technologies g0) >? 0) eqn:E; [|done].
    injection Hg0 as <-. intros H. rewrite H in E. done.
Qed.

Lemma limitGroups_origin limit fs :
  forall total g',
    g' ∈ Technologies.nonEmptyGroups (Technologies.limitGroups limit total fs) ->
    exists f, f ∈ fs
              /\ Technologies.name g' = Technologies.name f
              /\ sublist (Technologies.technologies g') (Technologies.technologies f).
Proof.
  induction fs as [|f r IH]; intros total g' Hg.
  - by apply elem_of_nil in Hg.
  - cbn [Technologies.limitGroups] in Hg. cbv zeta in Hg.
    destruct (limit - total <=? 0).
    + change (Technologies.nonEmptyGroups (None :: ?l))
        with (Technologies.nonEmptyGroups l) in Hg.
      destruct (IH _ _ Hg) as (f0 & Hf0 & H). exists f0. split; [by right|done].
    + unfold Technologies.nonEmptyGroups in Hg. simpl in Hg.
      fold (Technologies.nonEmptyGroups
              (Technologies.limitGroups limit
                 (total + len (sliceTo (limit - total) (Technologies.technologies f))) r))
        in Hg.
      assert (Hhere : exists f0, f0 ∈ f :: r
                /\ Technologies.name
                     (Technologies.mkGroup (Technologies.name f)
                        (sliceTo (limit - total) (Technologies.technologies f)))
                   = Technologies.name f0
                /\ sublist (sliceTo (limit - total) (Technologies.technologies f))
                           (Technologies.technologies f0)).
      { exists f. split; [by left|]. split; [done|].
        unfold sliceTo. destruct (_ <? 0); apply sublist_take. }
      destruct (len _ >? 0).
      * apply elem_of_cons in Hg as [->|Hg]; [exact Hhere|].
        destruct (IH _ _ Hg) as (f0 & Hf0 & H). exists f0. split; [by right|done].
      * destruct (IH _ _ Hg) as (f0 & Hf0 & H). exists f0. split; [by right|done].
Qed.

Lemma arrayIncludes_true arr x :
  Technologies.arrayIncludes arr x = true <-> x ∈ arr.
Proof.
  unfold Technologies.arrayIncludes. rewrite existsb_exists. split.
  - intros (y & Hy & E). apply String.eqb_eq in E. subst. by apply list_elem_of_In.
  - intros H. exists x. split; [by apply list_elem_of_In|apply String.eqb_refl].
Qed.

(** X22: what the technology filters let through, whatever the limit.
    Every listed group is one of the given groups with some of its
    technologies, in order; its name contains the category, up to case,
    if a non-empty category is given; none of its technologies is
    tagged [Beta] unless [includeBeta] is true; and each supports the
    language if a non-empty language is given. *)
Theorem applyFilters_sound limit groups g' :
  g' ∈ applyFilters limit groups ->
  (exists g, g ∈ groups
             /\ Technologies.name g' = Technologies.name g
             /\ sublist (Technologies.technologies g') (Technologies.technologies g))
  /\ (forall c, category = Some c -> c <> "" ->
        includes (toLowerCase (Technologies.name g')) (toLowerCase c) = true)
  /\ forall t, t ∈ Technologies.technologies g' ->
       (includeBeta <> Some true -> "Beta" ∉ Technologies.tags t)
       /\ (forall l, language = Some l -> l <> "" -> l ∈ Technologies.languages t).
Proof.
  intros Hg.
  assert (Hf : exists f, f ∈ omap filterGroup groups
                 /\ Technologies.name g' = Technologies.name f
                 /\ sublist (Technologies.technologies g')
                            (Technologies.technologies f)).
  { unfold Technologies.applyFilters in Hg.
    assert (Hid : g' ∈ omap filterGroup groups ->
                  exists f, f ∈ omap filterGroup groups
                    /\ Technologies.name g' = Technologies.name f
                    /\ sublist (Technologies.technologies g')
                               (Technologies.technologies f))
      by (intros H; by exists g').
    destruct limit as [n|]; [|by apply Hid].
    destruct (n >=? 0); [|by apply Hid].
    destruct (n =? 0); [by apply elem_of_nil in Hg|].
    by apply limitGroups_origin in Hg. }
  destruct Hf as (f & Hf & Hname & Hsub).
  apply list_elem_of_omap in Hf as (g & Hgin & Hfg).
  unfold Technologies.filterGroup in Hfg.
  destruct (truthy (optStr category) && _) eqn:Hcat; [done|].
  destruct (len _ >? 0); [|done]. injection Hfg as <-. simpl in *.
  split; [|split].
  - exists g. split; [done|]. split; [done|].
    etrans; [exact Hsub|apply filter_sublist].
  - intros c -> Hc. rewrite Hname. simpl in Hcat.
    destruct c; [done|]. simpl in Hcat. by apply negb_false_iff in Hcat.
  - intros t Ht.
    assert (Hk : Technologies.keepsTechnology language includeBeta t = true).
    { pose proof (elem_of_sublist _ _ _ Ht Hsub) as Ht'.
      by apply elem_of_List_filter in Ht' as [_ Ht']. }
    unfold Technologies.keepsTechnology in Hk.
    destruct (negb (truthy (optBool includeBeta)) && _) eqn:Hb; [done|].
    destruct (truthy (optStr language) && _) eqn:Hl; [done|]. clear Hk.
    split.
    + intros Hinc Hbeta. apply arrayIncludes_true in Hbeta. rewrite Hbeta in Hb.
      destruct includeBeta as [[|]|]; done.
    + intros l -> Hne. simpl in Hl. destruct l; [done|]. simpl in Hl.
      apply negb_false_iff in Hl. by apply arrayIncludes_true.
Qed.

End TechnologyFilters.

Lemma applyFilters_limit_witness :
  allTechnologies (Technologies.applyFilters None None (Some true) (Some 4) techGroups)
  = take (Z.to_nat 4)
      (allTechnologies (Technologies.applyFilters None None (Some true) None techGroups)).
Proof.
  apply (proj1 (applyFilters_limit None None (Some true) (Some 4) techGroups) 4).
  - reflexivity.
  - lia.
Defined.

Lemma applyFilters_sound_witness :
  exists g, g ∈ techGroups
    /\ "Graphics and Games" = Technologies.name g
    /\ sublist [tech "Metal" [] ["swift"; "occ"]] (Technologies.technologies g).
Proof.
  apply (applyFilters_sound (Some "GAMES") (Some "occ") None (Some 5) techGroups
           (Technologies.mkGroup "Graphics and Games"
              [tech "Metal" [] ["swift"; "occ"]])).
  vm_compute. by left.
Defined.

(** The filters on two groups: the category, the beta filter, the
    language, and the limit, which cuts inside a group. *)
Example applyFilters_examples :
  map (fun g => (Technologies.name g,
                 map Technologies.title (Technologies.technologies g)))
      (Technologies.applyFilters None None (Some true) (Some 4) techGroups)
  = [("App Frameworks", ["SwiftUI"; "UIKit"; "FoundationModels"]);
     ("Graphics and Games", ["Metal"])]
  /\ map (fun g => map Technologies.title (Technologies.technologies g))
       (Technologies.applyFilters (Some "games") (Some "occ") None None techGroups)
     = [["Metal"]]
  /\ Technologies.applyFilters None None (Some true) (Some 0) techGroups = []
  /\ Technologies.applyFilters None None (Some true) (Some (-1)) techGroups
     = techGroups.
Proof. by vm_compute. Qed.

(** ** The documentation updates: enrichment and filters *)

Section SectionInduction.
Variable Q : Updates.UpdatesIndexSection -> Prop.
Hypothesis step :
  forall section,
    (forall cs, Updates.sec_children section = Some cs -> Forall Q cs) -> Q section.

Lemma section_children_all (kids : option (list Updates.UpdatesIndexSection)) :
  match kids with Some l => Forall Q l | None => True end ->
  forall cs, kids = Some cs -> Forall Q cs.
Proof. intros H cs E. subst kids. exact H. Qed.

Fixpoint Section_nested_ind (section : Updates.UpdatesIndexSection) : Q section :=
  step section
    (match section as s
           return forall cs, Updates.sec_children s = Some cs -> Forall Q cs with
     | Updates.mkSection _ _ _ _ kids =>
         section_children_all kids
           (match kids as k
                  return match k with Some l => Forall Q l | None => True end with
            | None => I
            | Some l =>
                (fix all (l : list Updates.UpdatesIndexSection) : Forall Q l :=
                   match l with
                   | [] => @List.Forall_nil _ Q
                   | x :: r =>
                       @List.Forall_cons _ Q x r (Section_nested_ind x) (all r)
                   end) l
            end)
     end).
End SectionInduction.

Lemma processSection_eq section updates :
  Updates.processSection section updates =
    let updates :=
      Updates.updateFirst (Updates.matchesSection section)
                           (Updates.enrich section) updates in
    match Updates.sec_children section with
    | Some cs => Updates.processIndex cs updates
    | None => updates
    end.
Proof. destruct section; reflexivity. Qed.

Lemma sectionsOf_eq section :
  sectionsOf section =
    section :: match Updates.sec_children section with
               | Some cs => flat_map sectionsOf cs
               | None => []
               end.
Proof. destruct section; reflexivity. Qed.


Lemma sameUpdate_refl u : sameUpdate u u.
Proof. by repeat split. Qed.

Lemma sameUpdate_trans u v w : sameUpdate u v -> sameUpdate v w -> sameUpdate u w.
Proof.
  intros (? & ? & ? & ? & ? & ? & ? & ?) (? & ? & ? & ? & ? & ? & ? & ?).
  repeat split; congruence.
Qed.

Lemma Forall2_sameUpdate_trans l1 l2 l3 :
  Forall2 sameUpdate l1 l2 -> Forall2 sameUpdate l2 l3 -> Forall2 sameUpdate l1 l3.
Proof.
  intros H. revert l3. induction H as [|u v l1 l2 Huv _ IH]; intros l3 H3.
  - by inversion H3.
  - inversion H3 as [|v' w l2' l3' Hvw H3']; subst. constructor.
    + by eapply sameUpdate_trans.
    + by apply IH.
Qed.

Lemma enriches_nil : enriches [] (fun updates => updates).
Proof.
  intros updates. split; [|done].
  induction updates; constructor; [apply sameUpdate_refl|done].
Qed.

Lemma enriches_compose s1 s2 f g :
  enriches s1 f -> enriches s2 g -> enriches (s1 ++ s2) (fun updates => g (f updates)).
Proof.
  intros Hf Hg updates. destruct (Hf updates) as [F1 U1].
  destruct (Hg (f updates)) as [F2 U2]. split.
  - by eapply Forall2_sameUpdate_trans.
  - intros i u Hi Hno. apply U2.
    + apply U1; [done|]. intros s Hs. apply Hno. apply elem_of_app. by left.
    + intros s Hs. apply Hno. apply elem_of_app. by right.
Qed.

Lemma updateFirst_enriches section :
  enriches [section]
    (Updates.updateFirst (Updates.matchesSection section) (Updates.enrich section)).
Proof.
  intros updates. split.
  - induction updates as [|u r IH]; simpl; [constructor|].
    destruct (Updates.matchesSection section u).
    + constructor; [by repeat split|].
      clear. induction r; constructor; [apply sameUpdate_refl|done].
    + constructor; [apply sameUpdate_refl|done].
  - intros i u Hi Hno.
    assert (Hs : Updates.matchesSection section u = false)
      by (apply Hno; by left).
    clear Hno. revert i Hi. induction updates as [|v r IH]; intros i Hi; [done|].
    simpl. destruct i as [|i]; simpl in *.
    + injection Hi as ->. by rewrite Hs.
    + destruct (Updates.matchesSection section v); [done|]. by apply IH.
Qed.

Lemma processIndex_fold_enriches sections :
  Forall (fun s => enriches (sectionsOf s) (Updates.processSection s)) sections ->
  enriches (flat_map sectionsOf sections) (Updates.processIndex sections).
Proof.
  unfold Updates.processIndex.
  induction 1 as [|s r Hs _ IH]; simpl; [apply enriches_nil|].
  apply (enriches_compose _ _ (Updates.processSection s)
           (fold_left (fun acc section => Updates.processSection section acc) r));
    done.
Qed.

Lemma processSection_enriches section :
  enriches (sectionsOf section) (Updates.processSection section).
Proof.
  induction section as [section IH] using Section_nested_ind.
  intros updates. rewrite processSection_eq, sectionsOf_eq. cbv zeta.
  destruct (Updates.sec_children section) as [cs|] eqn:Hcs.
  - apply (enriches_compose [section] (flat_map sectionsOf cs)
             (Updates.updateFirst (Updates.matchesSection section)
                                   (Updates.enrich section))
             (Updates.processIndex cs)).
    + apply updateFirst_enriches.
    + apply processIndex_fold_enriches. by apply IH.
  - apply updateFirst_enriches.
Qed.

(** X23: the enrichment from the index.  [processIndex] keeps the
    updates in place and changes nothing but their [beta] and
    [technology] fields; an update that no section of the index tree
    matches (by path within its URL, or by title) is left as it is; and a
    section with an empty path matches every update, so that it marks
    the first update of the list. *)
Theorem processIndex_enriches sections updates :
  Forall2 sameUpdate updates (Updates.processIndex sections updates)
  /\ (forall i u,
        updates !! i = Some u ->
        (forall s, s ∈ flat_map sectionsOf sections ->
                   Updates.matchesSection s u = false) ->
        Updates.processIndex sections updates !! i = Some u)
  /\ (forall s u rest,
        Updates.sec_path s = "" -> Updates.sec_children s = None ->
        Updates.processIndex [s] (u :: rest) = Updates.enrich s u :: rest).
Proof.
  destruct (processIndex_fold_enriches sections
              ltac:(apply Forall_forall; intros s _; apply processSection_enriches)
              updates) as [H1 H2].
  split; [exact H1|]. split; [exact H2|].
  intros s u rest Hp Hc. unfold Updates.processIndex. simpl.
  rewrite processSection_eq, Hc. simpl.
  unfold Updates.matchesSection. rewrite Hp.
  assert (E : includes (Updates.url u) "" = true).
  { destruct (Updates.url u); reflexivity. }
  by rewrite E.
Qed.

Lemma processIndex_enriches_witness :
  Updates.processIndex updatesIndex someUpdates !! 3%nat
  = Some (update "Xcode 26" "/documentation/xcode-release-notes/xcode-26"
                 "release-notes" None).
Proof.
  apply (proj1 (proj2 (processIndex_enriches updatesIndex someUpdates)) 3%nat).
  - reflexivity.
  - intros s Hs. simpl in Hs.
    repeat (apply elem_of_cons in Hs as [->|Hs]; [by vm_compute|]).
    by apply elem_of_nil in Hs.
Defined.

(** The enrichment on four updates: the root section of the index is
    found in the URL of the first update, a section path is searched as
    it is written but a title compared as a whole, and the technology
    name is read off the path. *)
Example processIndex_example :
  map (fun u => (Updates.title u, Updates.beta u, Updates.technology u))
      (Updates.processIndex updatesIndex someUpdates)
  = [("WWDC25", Some false, None);
     ("SwiftUI updates", Some false, Some "SwiftUI");
     ("Core ML updates", Some true, Some "Core Ml");
     ("Xcode 26", None, None)]
  /\ Updates.extractTechFromPath "/documentation/updates/" = None
  /\ Updates.extractTechFromPath "/Documentation/Updates//documentation/updates/a-b/c"
     = Some "A B"
  /\ map Updates.getSectionCategory
       ["WWDC 2025 Release Notes"; "Release notes"; "Technology updates"; "News"]
     = ["wwdc"; "release-notes"; "technology"; "other"].
Proof. by vm_compute. Qed.

Lemma keepsWhere_filter {A} (C : A -> Prop) (f : A -> bool) l :
  (forall u, f u = true <-> C u) -> keepsWhere C (List.filter f l) l.
Proof.
  intros H. split; [apply filter_sublist|].
  intros u. rewrite elem_of_List_filter. by rewrite H.
Qed.

Lemma keepsWhere_all {A} (C : A -> Prop) (l : list A) :
  (forall u, C u) -> keepsWhere C l l.
Proof. intros H. split; [done|]. intros u. split; [by auto|tauto]. Qed.

Lemma keepsWhere_trans {A} (C1 C2 : A -> Prop) l l1 l2 :
  keepsWhere C1 l1 l -> keepsWhere C2 l2 l1 ->
  keepsWhere (fun u => C1 u /\ C2 u) l2 l.
Proof.
  intros [S1 M1] [S2 M2]. split; [by etrans|].
  intros u. rewrite M2, M1. tauto.
Qed.

(** X24: the filters of the updates list and its limit.  The updates
    shown are those that pass every filter that is switched on, in their
    original order: the category unless it is [all]; the technology,
    the year and the search text if not empty; no beta update unless
    [includeBeta].  A positive limit keeps the first [limit] of them; a
    limit of zero or below keeps them all. *)
Theorem selectUpdates_filters_and_limit
    category technology year searchQuery includeBeta limit updates :
  let passing :=
    Updates.selectUpdates category technology year searchQuery includeBeta 0
                           updates in
  keepsWhere
    (fun u =>
       (category <> "all" -> Updates.category u = category)
       /\ (forall t, technology = Some t -> t <> "" ->
             Updates.matchesTechnology (toLowerCase t) u = true)
       /\ (forall y, year = Some y -> y <> "" -> Updates.year u = Some y)
       /\ (forall q, searchQuery = Some q -> q <> "" ->
             Updates.matchesQuery (toLowerCase q) u = true)
       /\ (includeBeta = false -> Updates.beta u <> Some true))
    passing updates
  /\ Updates.selectUpdates category technology year searchQuery includeBeta limit
                            updates
     = if limit >? 0 then take (Z.to_nat limit) passing else passing.
Proof.
  intros passing. split.
  2:{ unfold passing, Updates.selectUpdates. change (0 >? 0) with false. cbv iota.
      destruct (limit >? 0) eqn:E; [|done].
      unfold sliceTo. destruct (limit <? 0) eqn:E'; [lia|done]. }
  unfold passing, Updates.selectUpdates. change (0 >? 0) with false. cbv iota zeta.
  set (l1 := if negb (String.eqb category "all") then _ else updates).
  set (l2 := match technology with Some (String _ _ as t) => List.filter _ l1 | _ => l1 end).
  set (l3 := match year with Some (String _ _ as y) => List.filter _ l2 | _ => l2 end).
  set (l4 := match searchQuery with
             | Some (String _ _ as q) => List.filter _ l3 | _ => l3 end).
  assert (H1 : keepsWhere (fun u => category <> "all" -> Updates.category u = category)
                          l1 updates).
  { unfold l1. destruct (String.eqb category "all") eqn:E; simpl.
    - apply String.eqb_eq in E. by apply keepsWhere_all.
    - apply String.eqb_neq in E. apply keepsWhere_filter. intros u.
      rewrite String.eqb_eq. tauto. }
  assert (H2 : keepsWhere (fun u => forall t, technology = Some t -> t <> "" ->
                             Updates.matchesTechnology (toLowerCase t) u = true)
                          l2 l1).
  { unfold l2. destruct technology as [[|a t]|].
    - apply keepsWhere_all. by intros u t [= <-].
    - apply keepsWhere_filter. intros u. split; [by intros H t' [= <-] _|].
      intros H. by apply H.
    - by apply keepsWhere_all. }
  assert (H3 : keepsWhere (fun u => forall y, year = Some y -> y <> "" ->
                             Updates.year u = Some y) l3 l2).
  { unfold l3. destruct year as [[|a y]|].
    - apply keepsWhere_all. by intros u y [= <-].
    - apply keepsWhere_filter. intros u. rewrite bool_decide_eq_true.
      split; [by intros H y' [= <-] _|]. intros H. by apply H.
    - by apply keepsWhere_all. }
  assert (H4 : keepsWhere (fun u => forall q, searchQuery = Some q -> q <> "" ->
                             Updates.matchesQuery (toLowerCase q) u = true) l4 l3).
  { unfold l4. destruct searchQuery as [[|a q]|].
    - apply keepsWhere_all. by intros u q [= <-].
    - apply keepsWhere_filter. intros u. split; [by intros H q' [= <-] _|].
      intros H. by apply H.
    - by apply keepsWhere_all. }
  assert (H5 : keepsWhere (fun u => includeBeta = false -> Updates.beta u <> Some true)
                 (if negb includeBeta
                  then List.filter (fun u => negb (truthy (optBool (Updates.beta u)))) l4
                  else l4) l4).
  { destruct includeBeta; simpl.
    - by apply keepsWhere_all.
    - apply keepsWhere_filter. intros u.
      destruct (Updates.beta u) as [[|]|]; simpl; split; try done.
      intros H. by destruct H. }
  pose proof (keepsWhere_trans _ _ _ _ _
                (keepsWhere_trans _ _ _ _ _
                   (keepsWhere_trans _ _ _ _ _
                      (keepsWhere_trans _ _ _ _ _ H1 H2) H3) H4) H5) as [S M].
  split; [exact S|]. intros u. rewrite M. tauto.
Qed.

Lemma selectUpdates_filters_and_limit_witness :
  update "Core ML updates" "/documentation/updates/core-ml" "technology" None
  ∈ Updates.selectUpdates "technology" None None (Some "Core") true 0 someUpdates.
Proof.
  destruct (selectUpdates_filters_and_limit "technology" None None (Some "Core")
              true 0 someUpdates) as [[_ M] _].
  apply M. split; [vm_compute; by do 2 right; left|].
  split; [reflexivity|]. split; [discriminate|]. split; [discriminate|].
  split; [|discriminate]. intros q [= <-] _. reflexivity.
Defined.

(** The filters and the limit on four updates; a limit of 0 cuts
    nothing. *)
Example selectUpdates_examples :
  map Updates.title
      (Updates.selectUpdates "technology" None None None true 50 someUpdates)
  = ["SwiftUI updates"; "Core ML updates"]
  /\ map Updates.title
       (Updates.selectUpdates "all" None (Some "2025") None true 50 someUpdates)
     = ["WWDC25"]
  /\ map Updates.title
       (Updates.selectUpdates "all" (Some "core ml") None None false 50
          (Updates.processIndex updatesIndex someUpdates))
     = []
  /\ List.length (Updates.selectUpdates "all" None None None true 0 someUpdates)
     = 4%nat
  /\ List.length (Updates.selectUpdates "all" None None None true 1 someUpdates)
     = 1%nat.
Proof. by vm_compute. Qed.

(** ** Section categories and technology names *)

Lemma lowerChar_idempotent c : lowerChar (lowerChar c) = lowerChar c.
Proof. by destruct c as [[] [] [] [] [] [] [] []]. Qed.

Lemma toLowerCase_idempotent s : toLowerCase (toLowerCase s) = toLowerCase s.
Proof.
  induction s as [|c s IH]; [done|].
  cbn [toLowerCase]. by rewrite lowerChar_idempotent, IH.
Qed.

(** X25: the category of a section is one of the four known ones and
    does not depend on the case of the title: a title and its lower-case
    form are classified alike. *)
Theorem getSectionCategory_ignores_case title :
  Updates.getSectionCategory (toLowerCase title) = Updates.getSectionCategory title
  /\ Updates.getSectionCategory title
     ∈ ["wwdc"; "release-notes"; "technology"; "other"].
Proof.
  unfold Updates.getSectionCategory. rewrite toLowerCase_idempotent.
  split; [done|].
  destruct (includes _ "wwdc"); [by left|].
  destruct (includes _ "release notes"); [by right; left|].
  destruct (includes _ "technology"); [by do 2 right; left|by do 3 right; left].
Qed.

Lemma Forall_join {A} (Q : A -> Prop) sep (parts : list (list A)) :
  Forall Q sep -> Forall (Forall Q) parts -> Forall Q (join sep parts).
Proof.
  intros Hsep. induction 1 as [|p r Hp Hr IH]; [constructor|].
  cbn [join]. destruct r as [|q r]; [done|].
  apply Forall_app. split; [done|]. apply Forall_app. split; [done|exact IH].
Qed.

Lemma Forall_split (Q : ascii -> Prop) sep s :
  Forall Q s -> Forall (Forall Q) (split sep s).
Proof.
  induction 1 as [|c r Hc Hr IH]; simpl; [by repeat constructor|].
  destruct (Ascii.eqb c sep); [by constructor|].
  destruct (split sep r) as [|h t]; [by repeat constructor|].
  apply Forall_cons in IH as [Hh Ht]. constructor; [by constructor|done].
Qed.

Lemma split_nonempty sep s : split sep s <> [].
Proof.
  destruct s as [|c r]; simpl; [done|].
  destruct (Ascii.eqb c sep); [done|]. by destruct (split sep r).
Qed.

Lemma segment_no_slash s :
  Forall (fun c => c <> "/"%char) (list_ascii_of_string (segment s)).
Proof.
  induction s as [|c s IH]; simpl; [constructor|].
  destruct (Ascii.eqb c "/") eqn:E; simpl; [constructor|].
  constructor; [by apply Ascii.eqb_neq|done].
Qed.

Lemma updatesSegment_segment path seg :
  Updates.updatesSegment path = Some seg ->
  seg <> "" /\ exists rest, seg = segment rest.
Proof.
  induction path as [|c path IH].
  - simpl. discriminate.
  - cbn [Updates.updatesSegment].
    destruct (prefixIgnoringCase _ _).
    + destruct (segment (sliceFrom 23 (String c path))) as [|a s] eqn:E.
      * exact IH.
      * intros [= <-]. split; [done|]. by eexists.
    + exact IH.
Qed.

Lemma canonicalize_plain c :
  c <> "/"%char -> c <> "-"%char ->
  canonicalize c <> "/"%char /\ canonicalize c <> "-"%char.
Proof. destruct c as [[] [] [] [] [] [] [] []]; by vm_compute. Qed.

(** X26: the technology name read off a section path, when there is
    one, is not empty and contains neither a slash nor a dash: the
    segment ends at the first slash and its dashes become spaces. *)
Theorem extractTechFromPath_name path name :
  Updates.extractTechFromPath path = Some name ->
  name <> ""
  /\ Forall (fun c => c <> "/"%char /\ c <> "-"%char) (list_ascii_of_string name).
Proof.
  unfold Updates.extractTechFromPath.
  destruct (Updates.updatesSegment path) as [seg|] eqn:E; [|done].
  intros [= <-]. apply updatesSegment_segment in E as (Hne & rest & ->).
  set (chars := dashesToSpaces (list_ascii_of_string (segment rest))).
  assert (Hchars : Forall (fun c => c <> "/"%char /\ c <> "-"%char) chars).
  { unfold chars, dashesToSpaces. apply Forall_map.
    eapply Forall_impl; [apply segment_no_slash|]. intros c Hc. simpl.
    destruct (Ascii.eqb c "-") eqn:Ed; [done|].
    split; [done|by apply Ascii.eqb_neq]. }
  assert (Hwords : Forall (Forall (fun c => c <> "/"%char /\ c <> "-"%char))
                     (map capitalize (split " " chars))).
  { apply Forall_map. eapply Forall_impl; [apply Forall_split, Hchars|].
    intros w Hw. destruct w as [|c w]; [constructor|]. simpl.
    apply Forall_cons in Hw as [[H1 H2] Hw].
    constructor; [by apply canonicalize_plain|done]. }
  rewrite list_ascii_of_string_of_list_ascii. split.
  - intros H.
    assert (Hlen : chars <> []).
    { unfold chars, dashesToSpaces. destruct (segment rest); [done|discriminate]. }
    apply (f_equal list_ascii_of_string) in H.
    rewrite list_ascii_of_string_of_list_ascii in H. simpl in H.
    clear Hwords Hchars. destruct chars as [|c r]; [done|]. clear Hlen.
    revert H. simpl split. destruct (Ascii.eqb c " ").
    + destruct (split " " r) as [|h t] eqn:Es; [by apply split_nonempty in Es|].
      cbn [map join]. discriminate.
    + destruct (split " " r) as [|h t]; [discriminate|].
      cbn [map]. cbn [capitalize join]. destruct (map capitalize t); discriminate.
  - apply Forall_join; [|exact Hwords]. repeat constructor; discriminate.
Qed.

Lemma extractTechFromPath_name_witness :
  "Core Ml" <> ""
  /\ Forall (fun c => c <> "/"%char /\ c <> "-"%char) (list_ascii_of_string "Core Ml").
Proof.
  apply (extractTechFromPath_name "/documentation/updates/core-ml/whats-new").
  reflexivity.
Defined.

(** ** The search results *)

Section SearchResults.
Variable normalizeFramework : string -> string.
Variable notAFunction : string.

#[local] Notation "'parseResult'" :=
  (Search.parseResult normalizeFramework notAFunction).
#[local] Notation "'collectResults'" :=
  (Search.collectResults normalizeFramework notAFunction).
#[local] Notation "'accepted'" := (Spec.accepted normalizeFramework notAFunction).

Lemma TYPE_MAPPING_not_inherited filterType :
  filterType ∉ inheritedNames ->
  match Search.TYPE_MAPPING filterType with
  | Search.Missing => Search.TYPE_MAPPING "all"
  | found => found
  end = Search.Own (allowedTypes filterType).
Proof.
  intros Hn. unfold Search.TYPE_MAPPING, allowedTypes.
  destruct (String.eqb filterType "all") eqn:Ea.
  { apply String.eqb_eq in Ea. by subst. }
  destruct (String.eqb filterType "documentation"); [done|].
  destruct (String.eqb filterType "sample"); [done|].
  destruct (existsb _ inheritedNames) eqn:Ei; [|done].
  exfalso. apply Hn. apply existsb_exists in Ei as (x & Hx & E).
  apply String.eqb_eq in E. subst. by apply list_elem_of_In.
Qed.

Lemma existsb_eqb_true x (l : list string) :
  existsb (String.eqb x) l = true <-> x ∈ l.
Proof.
  rewrite existsb_exists. split.
  - intros (y & Hy & E). apply String.eqb_eq in E. subst. by apply list_elem_of_In.
  - intros H. exists x. split; [by apply list_elem_of_In|apply String.eqb_refl].
Qed.

Lemma parseResult_listable filterType el :
  filterType ∉ inheritedNames ->
  exists o, parseResult el filterType = Normal o
            /\ forall r, o = Some r -> listable filterType r.
Proof.
  intros Hn. unfold Search.parseResult. cbv zeta.
  rewrite (TYPE_MAPPING_not_inherited _ Hn).
  destruct (negb (existsb _ (allowedTypes filterType)) || _) eqn:Ety.
  { exists None. split; [done|discriminate]. }
  apply orb_false_iff in Ety as [Ety _]. apply negb_false_iff in Ety.
  apply existsb_eqb_true in Ety.
  set (url := if startsWith _ "/" then _ else _).
  destruct (String.eqb url "" || _ || _ || _ || _) eqn:Eurl.
  { exists None. split; [done|discriminate]. }
  repeat (apply orb_false_iff in Eurl as [Eurl ?]).
  eexists. split; [reflexivity|]. intros r [= <-].
  unfold listable. cbn [Search.type Search.url Search.languages Search.beta].
  repeat split; try done.
  - by apply String.eqb_neq.
  - by apply negb_false_iff.
  - destruct (len _ >? 0) eqn:E; [|done]. intros [= Hl]. rewrite Hl in E. done.
Qed.

Lemma collectResults_take filterType limit elements :
  filterType ∉ inheritedNames ->
  forall results,
    collectResults filterType limit elements results
    = Normal (results
              ++ take (Z.to_nat (limit - len results)) (accepted filterType elements)).
Proof.
  intros Hn. induction elements as [|el rest IH]; intros results.
  - simpl. by rewrite take_nil, app_nil_r.
  - cbn [Search.collectResults]. unfold Spec.accepted. cbn [omap list_omap].
    fold (accepted filterType rest).
    destruct (len results >=? limit) eqn:E.
    + replace (Z.to_nat (limit - len results)) with 0%nat by lia.
      by rewrite take_0, app_nil_r.
    + destruct (parseResult_listable filterType el Hn) as (o & -> & _).
      destruct o as [r|]; [|apply IH].
      rewrite IH, <- app_assoc. do 2 f_equal.
      replace (Z.to_nat (limit - len results))
        with (S (Z.to_nat (limit - len (results ++ [r]))))
        by (rewrite len_app; unfold len in *; cbn [List.length]; lia).
      reflexivity.
Qed.

(** X27: the results of a search.  For a filter type that is not a
    name every object inherits, the results are the first [limit] (none
    if the limit is not positive) of the results of the elements that
    [parseResult] accepts, in page order; each has a type the filter
    allows (any other filter than [documentation] and [sample] allows
    both types), and a URL that contains [/documentation/] and none of
    the excluded texts. *)
Theorem collectResults_accepts filterType limit elements :
  filterType ∉ inheritedNames ->
  let results := take (Z.to_nat limit) (accepted filterType elements) in
  collectResults filterType limit elements [] = Normal results
  /\ len results <= Z.max 0 limit
  /\ Forall (listable filterType) results.
Proof.
  intros Hn results. split; [|split].
  - rewrite collectResults_take by done. simpl. unfold results. do 2 f_equal.
    unfold len. simpl. lia.
  - unfold results, len. rewrite length_take. lia.
  - apply Forall_take. unfold Spec.accepted. apply Forall_forall. intros r Hr.
    apply list_elem_of_omap in Hr as (el & _ & Hel).
    destruct (parseResult_listable filterType el Hn) as (o & E & Ho).
    rewrite E in Hel. destruct o as [r'|]; [|done]. injection Hel as <-.
    by apply Ho.
Qed.

(** X28: the fallback to [all] does not cover the names every object
    inherits.  For such a filter type (for example [constructor]) the
    lookup in [TYPE_MAPPING] finds a value that is not a list of types,
    and the first element that is looked at, if there is one and the
    limit is positive, makes the extraction fail with the engine's
    TypeError; any other unknown filter type behaves as [all]. *)
Theorem collectResults_inherited_name filterType limit el rest :
  (filterType ∈ inheritedNames -> 0 < limit ->
   collectResults filterType limit (el :: rest) []
   = Throw (ErrorObject notAFunction))
  /\ (Search.TYPE_MAPPING filterType = Search.Missing ->
      collectResults filterType limit (el :: rest) []
      = collectResults "all" limit (el :: rest) []).
Proof.
  split.
  - intros Hin Hl. cbn [Search.collectResults].
    destruct (len [] >=? limit) eqn:E;
      [exfalso; change (len []) with 0 in E; lia|].
    unfold Search.parseResult. cbv zeta.
    assert (Hi : Search.TYPE_MAPPING filterType = Search.Inherited).
    { repeat (apply elem_of_cons in Hin as [->|Hin]; [reflexivity|]).
      by apply elem_of_nil in Hin. }
    by rewrite Hi.
  - intros Hm.
    assert (Hp : forall e, parseResult e filterType = parseResult e "all").
    { intros e. unfold Search.parseResult. by rewrite Hm. }
    generalize (@nil Search.SearchResult).
    induction (el :: rest) as [|e r IH]; intros acc; [done|].
    cbn [Search.collectResults]. rewrite Hp.
    destruct (len acc >=? limit); [done|].
    destruct (parseResult e "all") as [[x|]|]; [apply IH|apply IH|done].
Qed.

End SearchResults.

Lemma collectResults_accepts_witness :
  Search.collectResults (fun s => s) "allowed.includes is not a function" "sample" 50
    resultPage []
  = Normal (take (Z.to_nat 50)
              (accepted (fun s => s) "allowed.includes is not a function" "sample"
                        resultPage)).
Proof.
  apply (collectResults_accepts (fun s => s) "allowed.includes is not a function"
           "sample" 50 resultPage).
  intros H. repeat (apply elem_of_cons in H as [H|H]; [discriminate H|]).
  by apply elem_of_nil in H.
Defined.

Lemma collectResults_inherited_name_witness :
  Search.collectResults (fun s => s) "allowed.includes is not a function"
    "constructor" 50 resultPage []
  = Throw (ErrorObject "allowed.includes is not a function").
Proof.
  apply (proj1 (collectResults_inherited_name (fun s => s)
                  "allowed.includes is not a function" "constructor" 50
                  (element "search-result documentation" "/documentation/swiftui/view"
                           "View")
                  (tail resultPage))).
  - by left.
  - lia.
Defined.

(** The extraction on a page of five elements. *)
Example collectResults_examples :
  match Search.collectResults (fun s => s) "" "all" 50 resultPage [] with
  | Normal rs =>
      map (fun r => (Search.title r, Search.type r, Search.framework r,
                     Search.languages r, Search.beta r)) rs
  | Throw _ => []
  end
  = [("View", "documentation", Some "swiftui", Some ["Swift"], Some true);
     ("Food Truck", "sample_code", Some "swiftui", Some ["Swift"], Some true);
     ("UIView", "documentation", Some "uikit", Some ["Swift"], Some true)]
  /\ match Search.collectResults (fun s => s) "" "documentation" 1 resultPage [] with
     | Normal rs => map Search.url rs
     | Throw _ => []
     end
     = ["https://developer.apple.com/documentation/swiftui/view"]
  /\ Search.collectResults (fun s => s) "" "videos" 0 resultPage [] = Normal []
  /\ map Search.extractResultType
       [Search.mkElement None "" None "" [] "";
        Search.mkElement (Some "  search-result  ") "" None "" [] "";
        Search.mkElement (Some "search-result general extra") "" None "" [] ""]
     = ["other"; "other"; "general"].
Proof. by vm_compute. Qed.

(** ** Where the commands send their requests *)

Section RequestsOnly.
Variable ok : string -> Prop.

Lemma requestsOnly_ret {A} (a : A) n : requestsOnly ok n (ret a).
Proof. intros w. exists []. rewrite app_nil_r. repeat split; [constructor|simpl; lia]. Qed.

Lemma requestsOnly_lift {A} (c : Completion A) n : requestsOnly ok n (lift c).
Proof. intros w. exists []. rewrite app_nil_r. repeat split; [constructor|simpl; lia]. Qed.

Lemma requestsOnly_bind {A B} (m : M A) (k : A -> M B) n1 n2 :
  requestsOnly ok n1 m -> (forall a, requestsOnly ok n2 (k a)) ->
  requestsOnly ok (n1 + n2) (bind m k).
Proof.
  intros Hm Hk w. unfold bind. destruct (Hm w) as (r1 & E1 & F1 & L1).
  destruct (m w) as [[a|e] w1]; simpl in *.
  - destruct (Hk a w1) as (r2 & E2 & F2 & L2). exists (r1 ++ r2).
    rewrite E2, E1, app_assoc, length_app.
    repeat split; [by apply Forall_app|lia].
  - exists r1. repeat split; [done..|lia].
Qed.

Lemma requestsOnly_tryCatch {A} (body : M A) h n :
  requestsOnly ok n body -> (forall e, requestsOnly ok 0 (h e)) ->
  requestsOnly ok n (tryCatch body h).
Proof.
  intros Hb Hh w. unfold tryCatch. destruct (Hb w) as (r1 & E1 & F1 & L1).
  destruct (body w) as [[a|e] w1]; simpl in *; [by exists r1|].
  destruct (Hh e w1) as (r2 & E2 & F2 & L2). exists (r1 ++ r2).
  rewrite E2, E1, app_assoc, length_app.
  repeat split; [by apply Forall_app|lia].
Qed.

Lemma requestsOnly_fetchWithRetry P url :
  ok url -> requestsOnly ok 3 (Http.fetchWithRetry P url 3).
Proof.
  intros Hu w. unfold Http.fetchWithRetry.
  destruct (retryLoop_request_count P url 3 (Z.to_nat 3) 0 None w)
    as (k & Hk & _ & E & _).
  exists (replicate k url). split; [done|]. split.
  - apply Forall_forall. intros x Hx. by apply elem_of_replicate in Hx as [-> _].
  - rewrite length_replicate. exact Hk.
Qed.

Lemma requestsOnly_fetchJson P url :
  ok url -> requestsOnly ok 3 (Http.fetchJson P url).
Proof.
  intros Hu. apply (requestsOnly_bind _ _ 3 0);
    [by apply requestsOnly_fetchWithRetry|intros r; apply requestsOnly_lift].
Qed.

Lemma requestsOnly_fetchHtml P url :
  ok url -> requestsOnly ok 3 (Http.fetchHtml P url).
Proof.
  intros Hu. apply (requestsOnly_bind _ _ 3 0);
    [by apply requestsOnly_fetchWithRetry|intros r; apply requestsOnly_lift].
Qed.

Lemma requestsOnly_promiseAll2 P {A B} (a : M A) (b : M B) n1 n2 :
  requestsOnly ok n1 a -> requestsOnly ok n2 b ->
  requestsOnly ok (n1 + n2) (Http.promiseAll2 P a b).
Proof.
  intros Ha Hb w. unfold Http.promiseAll2.
  destruct (Ha w) as (r1 & E1 & F1 & L1). destruct (a w) as [ra w1]. simpl in *.
  destruct (Hb w1) as (r2 & E2 & F2 & L2). destruct (b w1) as [rb w2]. simpl in *.
  exists (r1 ++ r2).
  assert (E : requests w2 = requests w ++ r1 ++ r2) by (by rewrite E2, E1, app_assoc).
  rewrite length_app.
  destruct ra, rb; simpl.
  all: split; [exact E|].
  all: split; [|lia].
  all: apply Forall_app; by split.
Qed.

Lemma requestsOnly_cacheGetOrSet key (fn : M Value) ttlMs n :
  requestsOnly ok n fn -> requestsOnly ok n (Cache.cacheGetOrSet key fn ttlMs).
Proof.
  intros Hfn w. unfold Cache.cacheGetOrSet.
  assert (E0 : requests (snd (Cache.cacheGet key w)) = requests w).
  { unfold Cache.cacheGet. destruct (store w !! key) as [entry|]; [|done].
    by destruct (now w >? expiresAt entry). }
  destruct (Cache.cacheGet key w) as [cached w0]. simpl in E0.
  destruct (isDefined cached).
  - exists []. simpl. rewrite E0, app_nil_r. repeat split; [constructor|simpl; lia].
  - unfold Cache.invoke.
    set (w0' := mkWorld (store w0) (now w0) (requests w0) (S (producerCalls w0))).
    destruct (Hfn w0') as (r & E & F & L).
    change (requests w0') with (requests w0) in E. rewrite E0 in E.
    destruct (fn w0') as [[v|e] w1]; exists r; (split; [exact E|by split]).
Qed.

End RequestsOnly.

Section CommandRequests.
Variable P : Platform.
Variable renderSearch : string -> string -> string -> Z -> string -> Completion string.
Variable renderTechnologies :
  Json -> option string -> option string -> bool -> Z -> Completion string.
Variable indexItemsOf : Json -> string -> Completion (list Symbols.IndexItem).
Variable languageUnavailable : Json -> string -> string -> Completion string.
Variable formatSymbols :
  string -> string -> option string ->
  list Symbols.IndexItem -> list Symbols.IndexItem -> Completion string.
Variable renderUpdates :
  Json -> Json -> string -> option string -> option string -> option string ->
  bool -> Z -> Completion string.
Variable normalizeFramework : string -> string.
Variable featuredIdsOf : Json -> Completion (gset string).
Variable frameworkMapOf : Json -> Completion (gmap string string).
Variable interfaceLanguagesOf :
  Json -> Completion (list (list Samples.SampleCodeIndexNode)).
Variable filterSortFormat :
  list Samples.ParsedSampleCode -> option string -> string -> option string -> Z ->
  Completion string.

(** X29: where five of the commands send their requests.  Whatever the
    arguments, the platform and the cache, the search, technologies,
    symbols, updates and samples commands only append to the request
    log, every URL they request is on the Apple developer host, and a
    call sends at most three requests (six for the two commands that
    read two documents). *)
Theorem commands_request_the_apple_host :
  (forall query filterType limit,
     requestsOnly toAppleHost 3
       (Search.searchAppleDocs P renderSearch query filterType limit))
  /\ (forall category language includeBeta limit,
        requestsOnly toAppleHost 3
          (Technologies.listTechnologies P renderTechnologies category language
             includeBeta limit))
  /\ (forall framework symbolType namePattern language limit,
        requestsOnly toAppleHost 3
          (Symbols.searchFrameworkSymbols P indexItemsOf languageUnavailable
             formatSymbols framework symbolType namePattern language limit))
  /\ (forall category technology year searchQuery includeBeta limit,
        requestsOnly toAppleHost 6
          (Updates.getDocumentationUpdates P renderUpdates category technology year
             searchQuery includeBeta limit))
  /\ (forall framework beta searchQuery limit,
        requestsOnly toAppleHost 6
          (Samples.getSampleCode P normalizeFramework featuredIdsOf frameworkMapOf
             interfaceLanguagesOf filterSortFormat framework beta searchQuery limit)).
Proof.
  repeat split; intros;
    (apply requestsOnly_tryCatch; [|intros e; apply requestsOnly_ret]).
  - intros w. unfold Search.searchAppleDocs_try, bind at 1, lift at 1, Search.searchUrlOf.
    destruct (encodeURIComponent P query) as [q|e].
    + apply (requestsOnly_bind toAppleHost
               (Http.fetchHtml P (Urls.SEARCH +:+ "?q=" +:+ q)) _ 3 0);
        [by apply requestsOnly_fetchHtml|].
      intros html. apply (requestsOnly_bind _ _ _ 0 0); [apply requestsOnly_lift|].
      intros content. apply requestsOnly_ret.
    + exists []. rewrite app_nil_r. repeat split; [constructor|simpl; lia].
  - apply requestsOnly_cacheGetOrSet.
    apply (requestsOnly_bind _ _ _ 3 0); [by apply requestsOnly_fetchJson|].
    intros data. apply (requestsOnly_bind _ _ _ 0 0); [apply requestsOnly_lift|].
    intros content. apply requestsOnly_ret.
  - apply requestsOnly_cacheGetOrSet.
    apply (requestsOnly_bind _ _ _ 3 0); [by apply requestsOnly_fetchJson|].
    intros data. apply (requestsOnly_bind _ _ _ 0 0); [apply requestsOnly_lift|].
    intros indexItems. destruct (len indexItems =? 0).
    + apply (requestsOnly_bind _ _ _ 0 0); [apply requestsOnly_lift|].
      intros message. apply requestsOnly_ret.
    + apply (requestsOnly_bind _ _ _ 0 0); [apply requestsOnly_lift|].
      intros result. apply requestsOnly_ret.
  - apply requestsOnly_cacheGetOrSet.
    apply (requestsOnly_bind _ _ _ 6 0).
    + apply (requestsOnly_promiseAll2 _ P _ _ 3 3); by apply requestsOnly_fetchJson.
    + intros [updatesData updatesIndex].
      apply (requestsOnly_bind _ _ _ 0 0); [apply requestsOnly_lift|].
      intros content. apply requestsOnly_ret.
  - apply requestsOnly_cacheGetOrSet.
    apply (requestsOnly_bind _ _ _ 6 0).
    + apply (requestsOnly_promiseAll2 _ P _ _ 3 3); by apply requestsOnly_fetchJson.
    + intros [contentData indexData].
      apply (requestsOnly_bind _ _ _ 0 0); [apply requestsOnly_lift|]. intros featuredIds.
      apply (requestsOnly_bind _ _ _ 0 0); [apply requestsOnly_lift|]. intros frameworkMap.
      apply (requestsOnly_bind _ _ _ 0 0); [apply requestsOnly_lift|]. intros languages.
      apply (requestsOnly_bind _ _ _ 0 0); [apply requestsOnly_lift|]. intros content.
      apply requestsOnly_ret.
Qed.

End CommandRequests.
